(** * Verification of the binlog-to-MongoDB audit pipeline (main.go)

    A shallow embedding of the sink, the retry harness, the handler and the
    start-up sequence of [src/main.go], with the MongoDB collections as
    finite maps and every store call driven by an explicit fault script. *)

From Stdlib Require Import ZArith String Ascii List Bool Lia.
From stdpp Require Import base option list gmap strings pretty.

Local Open Scope string_scope.
Local Open Scope Z_scope.

(** ** Go errors *)

(** The error values the program distinguishes, by dynamic type.
    [Wrapf p e] is [fmt.Errorf(p + ": %w", e)].

    [CommandError], [BulkWriteException] and [WriteException] are the
    struct types [mongo.CommandError], [mongo.BulkWriteException] and
    [mongo.WriteException]: the driver (go.mongodb.org/mongo-driver, v1)
    returns its errors as values of these types.  [CommandErrorPtr] and
    [BulkWriteExceptionPtr] are the pointer types [*mongo.CommandError] and
    [*mongo.BulkWriteException], which also implement [error] and are the
    types that main.go hands to [errors.As] (main.go 106, 157, 284, 333).
    [NetError] is a network error as the driver returns it: a
    [mongo.CommandError] value with code 0 that wraps the connection
    error, in whose chain sits a [net.Error] with its [Temporary()].

    A bulk-write exception carries the code of its write-concern error, if
    any, and the codes of its write errors; [labels] is the [Labels] field
    of a driver error. *)
Inductive error : Type :=
| ContextCanceled
| ContextDeadlineExceeded
| CommandError (code : Z) (labels : list string) (msg : string)
| CommandErrorPtr (code : Z) (labels : list string) (msg : string)
| NetError (temporary : bool) (labels : list string) (msg : string)
| BulkWriteException (writeConcernError : option Z) (writeErrors : list Z)
    (labels : list string) (msg : string)
| BulkWriteExceptionPtr (writeConcernError : option Z) (writeErrors : list Z)
    (labels : list string) (msg : string)
| WriteException (writeErrors : list Z) (labels : list string) (msg : string)
| ErrNoDocuments
| OtherError (msg : string)
| Wrapf (prefix : string) (e : error).

(** [err.Error()] *)
Fixpoint Error (e : error) : string :=
  match e with
  | ContextCanceled => "context canceled"
  | ContextDeadlineExceeded => "context deadline exceeded"
  | CommandError _ _ msg => msg
  | CommandErrorPtr _ _ msg => msg
  | NetError _ _ msg => msg
  | BulkWriteException _ _ _ msg => msg
  | BulkWriteExceptionPtr _ _ _ msg => msg
  | WriteException _ _ msg => msg
  | ErrNoDocuments => "mongo: no documents in result"
  | OtherError msg => msg
  | Wrapf p e' => p +:+ ": " +:+ Error e'
  end.

(** The innermost error of a chain of [%w] wrappers. *)
Fixpoint unwrap_all (e : error) : error :=
  match e with
  | Wrapf _ e' => unwrap_all e'
  | _ => e
  end.

(** [errors.Is(err, context.Canceled)] *)
Definition is_Canceled (e : error) : bool :=
  match unwrap_all e with ContextCanceled => true | _ => false end.

(** [errors.Is(err, context.DeadlineExceeded)] *)
Definition is_DeadlineExceeded (e : error) : bool :=
  match unwrap_all e with ContextDeadlineExceeded => true | _ => false end.

(** [errors.As(err, &cmdErr)] with [var cmdErr *mongo.CommandError]
    (main.go 106-110): the code of the command error, if the chain holds
    one of the pointer type.  A [mongo.CommandError] value, which is what
    the driver returns, is not assignable to the target and does not
    match. *)
Definition as_CommandError (e : error) : option Z :=
  match unwrap_all e with CommandErrorPtr c _ _ => Some c | _ => None end.

(** [errors.As(err, &netErr)] with [var netErr interface{ Temporary() bool }]
    followed by [netErr.Temporary()]. *)
Definition as_NetError (e : error) : option bool :=
  match unwrap_all e with NetError t _ _ => Some t | _ => None end.

(** [errors.As(err, &bwe)] with [var bwe *mongo.BulkWriteException]
    (main.go 157-158, 284-285, 333-334): the codes of [bwe.WriteErrors], if
    the chain holds an exception of the pointer type.  The
    [mongo.BulkWriteException] value that [BulkWrite] returns does not
    match. *)
Definition as_BulkWriteException (e : error) : option (list Z) :=
  match unwrap_all e with BulkWriteExceptionPtr _ ws _ _ => Some ws | _ => None end.

(** The labels of the driver error at the end of the chain. *)
Definition error_labels (e : error) : list string :=
  match unwrap_all e with
  | CommandError _ ls _ | CommandErrorPtr _ ls _ | NetError _ ls _
  | BulkWriteException _ _ ls _ | BulkWriteExceptionPtr _ _ ls _
  | WriteException _ ls _ => ls
  | _ => []
  end.

(** The driver's [errorHasLabel(err, label)]: an error of the chain
    carries the label. *)
Definition has_label (label : string) (e : error) : bool :=
  bool_decide (label ∈ error_labels e).

(** The classification of retryWithBackoff (main.go 106-117). *)
Definition isTransient (e : error) : bool :=
  match as_CommandError e with
  | Some c => (c =? 64) || (c =? 10107) || (c =? 13435)
  | None =>
      match as_NetError e with
      | Some t => t
      | None => false
      end
  end.

(** ** Strings *)

Fixpoint has_prefix (p s : string) : bool :=
  match p, s with
  | EmptyString, _ => true
  | String a p', String b s' => bool_decide (a = b) && has_prefix p' s'
  | String _ _, EmptyString => false
  end.

(** [strings.Contains(s, sub)] *)
Fixpoint Contains (s sub : string) : bool :=
  has_prefix sub s ||
  match s with
  | EmptyString => false
  | String _ s' => Contains s' sub
  end.

(** [strings.Join(parts, sep)] *)
Fixpoint Join (parts : list string) (sep : string) : string :=
  match parts with
  | [] => ""
  | [p] => p
  | p :: rest => p +:+ sep +:+ Join rest sep
  end.

(** ** Durations and machine integers *)

Definition Millisecond : Z := 1000000.
Definition Second : Z := 1000000000.

(** Two's-complement wrap-around of a signed 64-bit integer. *)
Definition wrap64 (z : Z) : Z := (z + 2 ^ 63) mod 2 ^ 64 - 2 ^ 63.

(** [uint32(x)] *)
Definition to_uint32 (z : Z) : Z := z mod 2 ^ 32.

(** ** Values, events and store documents *)

(** A column value of a row ([any] in Go).  Floating-point columns are
    left out of the embedding. *)
Inductive value : Type :=
| VNil
| VInt (z : Z)
| VStr (s : string)
| VBytes (b : list Z).

Global Instance value_eq_dec : EqDecision value.
Proof. solve_decision. Defined.

(** [reflect.DeepEqual] on column values: same dynamic type and same
    contents. *)
Definition DeepEqual (a b : value) : bool := bool_decide (a = b).

(** [fmt.Sprint(v)], also the [%v] verb. *)
Definition toS (v : value) : string :=
  match v with
  | VNil => "<nil>"
  | VInt z => pretty z
  | VStr s => s
  | VBytes b => "[" +:+ Join (map pretty b) " " +:+ "]"
  end.

Record Delta := { F : value; T : value }.

Record Meta := { DB : string; Tbl : string; PK : value }.

(** The [Src] map of an event: [{"binlog": {"file", "pos"}, "gtid"}]. *)
Record Src := { src_file : string; src_pos : Z; src_gtid : string }.

(** [TS] is the event time in seconds since the epoch (UTC). *)
Record EventDoc := {
  ID : string;
  TS : Z;
  OP : string;
  meta : Meta;
  Seq : Z;
  Chg : gmap string Delta;
  src : Src;
  TSIST : string
}.

Inductive Status := pending | committed | archived.

Global Instance Status_eq_dec : EqDecision Status.
Proof. solve_decision. Defined.

(** A document of the staging collection (a [bson.M] in main.go). *)
Record StagingDoc := {
  st_id : string;
  st_events : list EventDoc;
  st_source : string;
  st_gtid : string;
  st_file : string;
  st_pos : Z;
  st_createdAt : Z;
  st_status : Status;
  st_committedAt : option Z;
  st_archivedAt : option Z
}.

(** A document of the offsets collection, keyed by the source. *)
Record OffsetDoc := {
  of_source : string;
  of_gtid : string;
  of_file : string;
  of_pos : Z;
  of_updatedAt : Z
}.

(** ** The world: collections, sink state and environment *)

(** What [log.Printf] and [log.Println] are called with, one constructor
    per call site of main.go. *)
Inductive LogMsg : Type :=
| LogMaxRetries (lastErr : error)
| LogTransient (attempt maxRetries delay : Z) (err : error)
| LogNoTxWarning
| LogFoundPending (n : nat)
| LogRecovering (id : string)
| LogFlushing (n : nat)
| LogSchemaChange (key : string)
| LogFlushError (err : error)
| LogRecoverWarning (err : error)
| LogResuming (gtid : string)
| LogStartingFromMaster (gtid : string).

(** The calls the program issues to its collaborators, recorded in the
    order they are issued (before their outcome is known). *)
Inductive Effect : Type :=
| EInsertStaging (id : string)
| EStartSession
| EBulkWrite (ids : list string)
| EUpsertOffset (source gtid file : string) (pos : Z)
| EMarkStaging (id : string) (st : Status)
| ECommitTx
| EAbortTx
| EFindPending
| ECursorAll
| EFindOffset (byId : bool) (source : string)
| ESleep (delay : Z)
| ELog (m : LogMsg)
| EParseGTIDSet (s : string)
| EGetMasterGTIDSet
| EStartFromGTID (gset : string).

(** What [ctx.Err()] can be once [ctx.Done()] is closed. *)
Inductive ctx_error := Canceled | DeadlineExceeded.

Definition ctx_Err (c : ctx_error) : error :=
  match c with
  | Canceled => ContextCanceled
  | DeadlineExceeded => ContextDeadlineExceeded
  end.

(** The contexts main.go creates: [context.Background()], which is never
    done, and [context.WithTimeout(...)]. *)
Inductive Context := Background | WithTimeout.

(** [events], [offsets] and [staging] are the three collections, keyed by
    [_id].  [noTxWarningLogged] is the field of [MongoSink].  [clock] is
    the wall clock in nanoseconds.  [faults] scripts the store: each store
    call consumes one entry, [Some e] makes the call fail with [e] and no
    effect, [None] (or an exhausted script) lets it act on the
    collections.  [interrupts] scripts a cancellable context the same way
    for each backoff sleep.  [txTimer] scripts the 120 s timer of the
    driver's [session.WithTransaction]: each time the driver looks at the
    timer one entry is consumed, [true] (or an exhausted script) meaning
    that the timer has fired. *)
Record World := {
  events : gmap string EventDoc;
  offsets : gmap string OffsetDoc;
  staging : gmap string StagingDoc;
  noTxWarningLogged : bool;
  clock : Z;
  faults : list (option error);
  interrupts : list (option ctx_error);
  txTimer : list bool;
  trace : list Effect
}.

Definition with_events (x : gmap string EventDoc) (w : World) : World :=
  {| events := x; offsets := offsets w; staging := staging w;
     noTxWarningLogged := noTxWarningLogged w; clock := clock w;
     faults := faults w; interrupts := interrupts w;
     txTimer := txTimer w; trace := trace w |}.

Definition with_offsets (x : gmap string OffsetDoc) (w : World) : World :=
  {| events := events w; offsets := x; staging := staging w;
     noTxWarningLogged := noTxWarningLogged w; clock := clock w;
     faults := faults w; interrupts := interrupts w;
     txTimer := txTimer w; trace := trace w |}.

Definition with_staging (x : gmap string StagingDoc) (w : World) : World :=
  {| events := events w; offsets := offsets w; staging := x;
     noTxWarningLogged := noTxWarningLogged w; clock := clock w;
     faults := faults w; interrupts := interrupts w;
     txTimer := txTimer w; trace := trace w |}.

Definition with_noTxWarningLogged (x : bool) (w : World) : World :=
  {| events := events w; offsets := offsets w; staging := staging w;
     noTxWarningLogged := x; clock := clock w;
     faults := faults w; interrupts := interrupts w;
     txTimer := txTimer w; trace := trace w |}.

Definition with_clock (x : Z) (w : World) : World :=
  {| events := events w; offsets := offsets w; staging := staging w;
     noTxWarningLogged := noTxWarningLogged w; clock := x;
     faults := faults w; interrupts := interrupts w;
     txTimer := txTimer w; trace := trace w |}.

Definition with_faults (x : list (option error)) (w : World) : World :=
  {| events := events w; offsets := offsets w; staging := staging w;
     noTxWarningLogged := noTxWarningLogged w; clock := clock w;
     faults := x; interrupts := interrupts w; txTimer := txTimer w;
     trace := trace w |}.

Definition with_interrupts (x : list (option ctx_error)) (w : World) : World :=
  {| events := events w; offsets := offsets w; staging := staging w;
     noTxWarningLogged := noTxWarningLogged w; clock := clock w;
     faults := faults w; interrupts := x; txTimer := txTimer w;
     trace := trace w |}.

Definition with_trace (x : list Effect) (w : World) : World :=
  {| events := events w; offsets := offsets w; staging := staging w;
     noTxWarningLogged := noTxWarningLogged w; clock := clock w;
     faults := faults w; interrupts := interrupts w;
     txTimer := txTimer w; trace := x |}.

Definition with_txTimer (x : list bool) (w : World) : World :=
  {| events := events w; offsets := offsets w; staging := staging w;
     noTxWarningLogged := noTxWarningLogged w; clock := clock w;
     faults := faults w; interrupts := interrupts w;
     txTimer := x; trace := trace w |}.

Definition emit (e : Effect) (w : World) : World :=
  with_trace (trace w ++ [e]) w.

Definition log (m : LogMsg) (w : World) : World := emit (ELog m) w.

Definition pop_fault (w : World) : option error * World :=
  match faults w with
  | [] => (None, w)
  | f :: fs => (f, with_faults fs w)
  end.

(** [time.Now()]: reads the clock, which then moves on. *)
Definition Now (w : World) : Z * World :=
  (clock w, with_clock (clock w + 1) w).

(** The [select] of retryWithBackoff (main.go 129-134): the timer fires
    after [delay], unless the context is done first. *)
Definition sleep (ctx : Context) (delay : Z) (w : World) : option error * World :=
  let w := emit (ESleep delay) w in
  let fired := with_clock (clock w + Z.max 0 delay) w in
  match ctx with
  | Background => (None, fired)
  | WithTimeout =>
      match interrupts w with
      | Some c :: rest => (Some (ctx_Err c), with_interrupts rest w)
      | None :: rest => (None, with_interrupts rest fired)
      | [] => (None, fired)
      end
  end.

(** ** retryWithBackoff (main.go 80-145) *)

(** [fn] is a Go closure: besides the world it may update the variables
    it captured, which are threaded as a value of type [C].  The body of
    the [for] loop follows; [n] counts the iterations that remain before
    [attempt <= maxRetries] fails, and [lastErr] is the variable of that
    name. *)
Fixpoint retry_loop {C : Type} (n : nat) (ctx : Context)
    (fn : Context -> C -> World -> option error * C * World)
    (maxRetries attempt delay : Z) (lastErr : option error) (c : C) (w : World)
    : option error * C * World :=
  match n with
  | O => (lastErr, c, w)
  | S n' =>
      let '(err, c, w) := fn ctx c w in
      match err with
      | None => (None, c, w)
      | Some e =>
          if is_Canceled e || is_DeadlineExceeded e then (Some e, c, w)
          else
            let transient := isTransient e in
            if (attempt >=? maxRetries) || negb transient then
              let w := if transient then log (LogMaxRetries e) w else w in
              (Some e, c, w)
            else
              let w := log (LogTransient (attempt + 1) maxRetries delay e) w in
              match sleep ctx delay w with
              | (Some ce, w) => (Some ce, c, w)
              | (None, w) =>
                  let delay := wrap64 (delay * 2) in
                  let delay := if delay >? 10 * Second then 10 * Second else delay in
                  retry_loop n' ctx fn maxRetries (attempt + 1) delay (Some e) c w
              end
      end
  end.

Definition retryWithBackoff {C : Type} (ctx : Context)
    (fn : Context -> C -> World -> option error * C * World)
    (maxRetries initialDelay : Z) (c : C) (w : World) : option error * C * World :=
  let maxRetries := if maxRetries <=? 0 then 5 else maxRetries in
  let initialDelay := if initialDelay <=? 0 then 100 * Millisecond else initialDelay in
  retry_loop (Z.to_nat (maxRetries + 1)) ctx fn maxRetries 0 initialDelay None c w.

(** ** The store calls of the MongoDB driver *)

Definition dup_key_msg : string := "E11000 duplicate key error".

(** [s.staging.InsertOne(ctx, doc)]: [_id] is unique in a collection. *)
Definition staging_InsertOne (doc : StagingDoc) (w : World) : option error * World :=
  let w := emit (EInsertStaging (st_id doc)) w in
  let '(f, w) := pop_fault w in
  match f with
  | Some e => (Some e, w)
  | None =>
      match staging w !! st_id doc with
      | Some _ => (Some (WriteException [11000] [] dup_key_msg), w)
      | None => (None, with_staging (<[st_id doc := doc]> (staging w)) w)
      end
  end.

(** One insert of an unordered bulk write: a document whose [_id] is
    taken yields write error 11000 and the others are still inserted. *)
Definition bulk_insert_one (acc : gmap string EventDoc * list Z) (d : EventDoc)
    : gmap string EventDoc * list Z :=
  let '(m, errs) := acc in
  match m !! ID d with
  | Some _ => (m, (errs ++ [11000])%list)
  | None => (<[ID d := d]> m, errs)
  end.

(** [s.events.BulkWrite(ctx, ws, SetOrdered(false))] with one insert model
    per document. *)
Definition events_BulkWrite (docs : list EventDoc) (w : World) : option error * World :=
  let w := emit (EBulkWrite (map ID docs)) w in
  let '(f, w) := pop_fault w in
  match f with
  | Some e => (Some e, w)
  | None =>
      let '(m, errs) := foldl bulk_insert_one (events w, []) docs in
      let w := with_events m w in
      match errs with
      | [] => (None, w)
      | _ => (Some (BulkWriteException None errs [] "bulk write exception"), w)
      end
  end.

(** [s.offsets.UpdateByID(ctx, source, {"$set": ...}, SetUpsert(true))] *)
Definition offsets_Upsert (source gtid file : string) (pos : Z) (w : World)
    : option error * World :=
  let '(t, w) := Now w in
  let w := emit (EUpsertOffset source gtid file pos) w in
  let '(f, w) := pop_fault w in
  match f with
  | Some e => (Some e, w)
  | None =>
      let doc := {| of_source := source; of_gtid := gtid; of_file := file;
                    of_pos := pos; of_updatedAt := t |} in
      (None, with_offsets (<[source := doc]> (offsets w)) w)
  end.

Definition set_status (st : Status) (t : Z) (d : StagingDoc) : StagingDoc :=
  {| st_id := st_id d; st_events := st_events d; st_source := st_source d;
     st_gtid := st_gtid d; st_file := st_file d; st_pos := st_pos d;
     st_createdAt := st_createdAt d; st_status := st;
     st_committedAt := if decide (st = committed) then Some t else st_committedAt d;
     st_archivedAt := if decide (st = archived) then Some t else st_archivedAt d |}.

(** [s.staging.UpdateByID(ctx, id, {"$set": {"status": st, <st>At: now}})];
    an id that matches no document is not an error. *)
Definition staging_SetStatus (id : string) (st : Status) (w : World)
    : option error * World :=
  let '(t, w) := Now w in
  let w := emit (EMarkStaging id st) w in
  let '(f, w) := pop_fault w in
  match f with
  | Some e => (Some e, w)
  | None => (None, with_staging (alter (set_status st t) id (staging w)) w)
  end.

(** [s.client.StartSession()] *)
Definition StartSession (w : World) : option error * World :=
  pop_fault (emit EStartSession w).

(** The writes of a transaction to the events and offsets collections
    are undone when the transaction is aborted or its commit fails. *)
Definition rollback (before after : World) : World :=
  with_offsets (offsets before) (with_events (events before) after).

(** The error labels that [session.WithTransaction] looks at. *)
Definition TransientTransactionError : string := "TransientTransactionError".
Definition UnknownTransactionCommitResult : string := "UnknownTransactionCommitResult".

(** What the commit loop of [session.WithTransaction] does with a failed
    commit.  It looks at the error with [err.(CommandError)], which holds
    for a command error returned by value (a network error is one, with
    code 0): labelled UnknownTransactionCommitResult and not
    MaxTimeMSExpired (code 50), the commit is tried again; labelled
    TransientTransactionError, the whole transaction is run again; any
    other error is returned. *)
Inductive commit_verdict := CommitAgain | RunAgain | GiveUp.

Definition after_failed_commit (e : error) : commit_verdict :=
  let verdict (code : Z) (ls : list string) :=
    if bool_decide (UnknownTransactionCommitResult ∈ ls) && negb (code =? 50)
    then CommitAgain
    else if bool_decide (TransientTransactionError ∈ ls) then RunAgain
    else GiveUp in
  match e with
  | CommandError code ls _ => verdict code ls
  | NetError _ ls _ => verdict 0 ls
  | _ => GiveUp
  end.

(** The loop of [session.WithTransaction(ctx, body)] (the driver's
    mongo/session.go).  The callback is run in a new transaction; when it
    fails the transaction is aborted, and the callback is run again if the
    120 s timer has not fired and the error is labelled
    TransientTransactionError.  When it succeeds the transaction is
    committed; a failed commit is handled as [after_failed_commit] says,
    unless the timer has fired.  [timer] is what is left of the script of
    the timer, and [resume] is [Some w1] when only the commit of the
    callback's world [w1] is to be tried again.  A context that ends
    between the callback and the commit shows as a failed commit. *)
Fixpoint tx_loop (timer : list bool) (resume : option World)
    (body : World -> option error * World) (w : World) : option error * World :=
  let '(r, w1) := match resume with
                  | Some w1 => (None, w1)
                  | None => body w
                  end in
  match r with
  | Some e =>
      let w2 := emit EAbortTx (rollback w w1) in
      match timer with
      | [] => (Some e, w2)
      | true :: rest => (Some e, with_txTimer rest w2)
      | false :: rest =>
          if has_label TransientTransactionError e
          then tx_loop rest None body (with_txTimer rest w2)
          else (Some e, with_txTimer rest w2)
      end
  | None =>
      let '(f, w2) := pop_fault (emit ECommitTx w1) in
      match f with
      | None => (None, w2)
      | Some e =>
          match timer with
          | [] => (Some e, rollback w w2)
          | true :: rest => (Some e, rollback w (with_txTimer rest w2))
          | false :: rest =>
              let w3 := with_txTimer rest w2 in
              match after_failed_commit e with
              | CommitAgain => tx_loop rest (Some w3) body w
              | RunAgain => tx_loop rest None body (rollback w w3)
              | GiveUp => (Some e, rollback w w3)
              end
          end
      end
  end.

Definition WithTransaction (body : World -> option error * World) (w : World)
    : option error * World :=
  tx_loop (txTimer w) None body w.

(** [s.staging.Find(ctx, {"status": "pending"})] followed by
    [cursor.All(ctx, &stagingDocs)]: the cursor holds the pending documents
    of the collection at the time of the query. *)
Definition staging_FindPending (w : World) : (error + list StagingDoc) * World :=
  let w := emit EFindPending w in
  let '(f, w) := pop_fault w in
  match f with
  | Some e => (inl e, w)
  | None =>
      (inr (filter (fun d => st_status d = pending) (map snd (map_to_list (staging w)))), w)
  end.

Definition cursor_All (cursor : list StagingDoc) (w : World)
    : (error + list StagingDoc) * World :=
  let w := emit ECursorAll w in
  let '(f, w) := pop_fault w in
  match f with
  | Some e => (inl e, w)
  | None => (inr cursor, w)
  end.

(** ** The sink (main.go 147-397) *)

(** [allDup]: every write error of the bulk-write exception is a duplicate
    key (main.go 159-165, 286-292, 335-341). *)
Definition allDup (writeErrors : list Z) : bool :=
  forallb (fun code => code =? 11000) writeErrors.

(** writeBatch (main.go 147-173) *)
Definition writeBatch (docs : list EventDoc) (w : World) : option error * World :=
  match docs with
  | [] => (None, w)
  | _ =>
      let '(err, w) := events_BulkWrite docs w in
      match err with
      | Some e =>
          match as_BulkWriteException e with
          | Some ws => if allDup ws then (None, w) else (Some e, w)
          | None => (Some e, w)
          end
      | None => (None, w)
      end
  end.

(** The function passed to [session.WithTransaction] (main.go 276-317). *)
Definition txBody (docs : list EventDoc) (source gtid file : string) (pos : Z)
    (w : World) : option error * World :=
  let '(err, w) := events_BulkWrite docs w in
  let abort :=
    match err with
    | Some e =>
        match as_BulkWriteException e with
        | Some ws => if allDup ws then None else Some e
        | None => Some e
        end
    | None => None
    end in
  match abort with
  | Some e => (Some e, w)
  | None =>
      let '(err, w) := offsets_Upsert source gtid file pos w in
      match err with
      | Some e => (Some (Wrapf "save GTID" e), w)
      | None => (None, w)
      end
  end.

(** writeBatchWithTransaction (main.go 269-320) *)
Definition writeBatchWithTransaction (docs : list EventDoc)
    (source gtid file : string) (pos : Z) (w : World) : option error * World :=
  let '(err, w) := StartSession w in
  match err with
  | Some e => (Some (Wrapf "start session" e), w)
  | None => WithTransaction (txBody docs source gtid file pos) w
  end.

(** writeBatchWithoutTransaction (main.go 325-366) *)
Definition writeBatchWithoutTransaction (docs : list EventDoc)
    (source gtid file : string) (pos : Z) (w : World) : option error * World :=
  let '(err, w) := events_BulkWrite docs w in
  let abort :=
    match err with
    | Some e =>
        match as_BulkWriteException e with
        | Some ws => if allDup ws then None else Some (Wrapf "bulk write events" e)
        | None => Some (Wrapf "bulk write events" e)
        end
    | None => None
    end in
  match abort with
  | Some e => (Some e, w)
  | None =>
      let '(err, w) := offsets_Upsert source gtid file pos w in
      match err with
      | Some e => (Some (Wrapf "save GTID (non-transactional)" e), w)
      | None => (None, w)
      end
  end.

Definition no_replica_set_msg : string :=
  "Transaction numbers are only allowed on a replica set".
Definition time_series_msg : string :=
  "Cannot insert into a time-series collection in a multi-document transaction".

(** The closure that writeBatchWithGTID hands to retryWithBackoff
    (main.go 195-226).  [batchID] and [stagingDoc] are computed once by
    the enclosing call (main.go 182-192) and only read here; the closure
    assigns to no captured variable. *)
Definition commitAttempt (batchID : string) (stagingDoc : StagingDoc)
    (docs : list EventDoc) (source gtid file : string) (pos : Z)
    (retryCtx : Context) (captured : unit) (w : World)
    : option error * unit * World :=
  let '(err, w) := staging_InsertOne stagingDoc w in
  match err with
  | Some e => (Some (Wrapf "staging insert" e), captured, w)
  | None =>
      let '(err, w) := writeBatchWithTransaction docs source gtid file pos w in
      let '(err, w) :=
        match err with
        | Some e =>
            let errStr := Error e in
            if Contains errStr no_replica_set_msg || Contains errStr time_series_msg then
              let w := if noTxWarningLogged w then w
                       else with_noTxWarningLogged true (log LogNoTxWarning w) in
              let '(err, w) := writeBatchWithoutTransaction docs source gtid file pos w in
              match err with
              | Some e' => (Some (Wrapf "write batch (non-transactional fallback)" e'), w)
              | None => (None, w)
              end
            else (Some e, w)
        | None => (None, w)
        end in
      match err with
      | Some e => (Some e, captured, w)
      | None =>
          let '(_, w) := staging_SetStatus batchID committed w in
          (None, captured, w)
      end
  end.

(** [fmt.Sprintf("%s_%d_%s", source, time.Now().UnixNano(), gtid)] *)
Definition mkBatchID (source : string) (nanos : Z) (gtid : string) : string :=
  source +:+ "_" +:+ pretty nanos +:+ "_" +:+ gtid.

(** writeBatchWithGTID (main.go 176-227) *)
Definition writeBatchWithGTID (ctx : Context) (docs : list EventDoc)
    (source gtid file : string) (pos : Z) (w : World) : option error * World :=
  match docs with
  | [] => (None, w)
  | _ =>
      let '(t, w) := Now w in
      let batchID := mkBatchID source t gtid in
      let '(created, w) := Now w in
      let stagingDoc :=
        {| st_id := batchID; st_events := docs; st_source := source;
           st_gtid := gtid; st_file := file; st_pos := pos;
           st_createdAt := created; st_status := pending;
           st_committedAt := None; st_archivedAt := None |} in
      let '(err, _, w) :=
        retryWithBackoff ctx
          (commitAttempt batchID stagingDoc docs source gtid file pos)
          5 (100 * Millisecond) tt w in
      (err, w)
  end.

(** RecoverPendingBatches (main.go 370-397) *)
Definition archive_one (w : World) (doc : StagingDoc) : World :=
  let w := log (LogRecovering (st_id doc)) w in
  snd (staging_SetStatus (st_id doc) archived w).

Definition RecoverPendingBatches (w : World) : option error * World :=
  let '(r, w) := staging_FindPending w in
  match r with
  | inl e => (Some (Wrapf "find pending batches" e), w)
  | inr cursor =>
      let '(r, w) := cursor_All cursor w in
      match r with
      | inl e => (Some (Wrapf "decode pending batches" e), w)
      | inr stagingDocs =>
          match stagingDocs with
          | [] => (None, w)
          | _ =>
              let w := log (LogFoundPending (length stagingDocs)) w in
              (None, foldl archive_one w stagingDocs)
          end
      end
  end.

(** ** crypto/sha1 and encoding/hex *)

Definition bytes_of_string (s : string) : list Z :=
  map (fun a => Z.of_nat (nat_of_ascii a)) (list_ascii_of_string s).

Definition mask32 (x : Z) : Z := Z.land x 4294967295.

Definition rotl32 (n x : Z) : Z :=
  mask32 (Z.lor (Z.shiftl x n) (Z.shiftr x (32 - n))).

(** Big-endian encoding of [x] on [n] bytes. *)
Fixpoint be_bytes (n : nat) (x : Z) : list Z :=
  match n with
  | O => []
  | S n' => Z.land (Z.shiftr x (8 * Z.of_nat n')) 255 :: be_bytes n' x
  end.

(** The message followed by 0x80, zeros up to 56 modulo 64, and the bit
    length on eight bytes. *)
Definition sha1_pad (msg : list Z) : list Z :=
  let len := Z.of_nat (length msg) in
  let zeros := Z.to_nat ((55 - len) mod 64) in
  (msg ++ 128 :: replicate zeros 0 ++ be_bytes 8 (8 * len))%list.

Fixpoint be_words (n : nat) (bs : list Z) : list Z :=
  match n with
  | O => []
  | S n' =>
      match bs with
      | b0 :: b1 :: b2 :: b3 :: rest =>
          (Z.shiftl b0 24 + Z.shiftl b1 16 + Z.shiftl b2 8 + b3) :: be_words n' rest
      | _ => []
      end
  end.

(** The message schedule, most recent word first. *)
Fixpoint sha1_schedule (n : nat) (ws : list Z) : list Z :=
  match n with
  | O => ws
  | S n' =>
      let x := Z.lxor (Z.lxor (nth 2 ws 0) (nth 7 ws 0))
                      (Z.lxor (nth 13 ws 0) (nth 15 ws 0)) in
      sha1_schedule n' (rotl32 1 x :: ws)
  end.

Definition sha1_state : Type := Z * Z * Z * Z * Z.

Definition sha1_round (st : sha1_state * Z) (wt : Z) : sha1_state * Z :=
  let '(a, b, c, d, e, t) := st in
  let '(f, k) :=
    if t <? 20 then
      (Z.lor (Z.land b c) (Z.land (Z.lxor b 4294967295) d), 1518500249)
    else if t <? 40 then (Z.lxor (Z.lxor b c) d, 1859775393)
    else if t <? 60 then
      (Z.lor (Z.lor (Z.land b c) (Z.land b d)) (Z.land c d), 2400959708)
    else (Z.lxor (Z.lxor b c) d, 3395469782) in
  let tmp := mask32 (rotl32 5 a + f + e + k + wt) in
  (tmp, a, rotl32 30 b, c, d, t + 1).

Definition sha1_block (h : sha1_state) (block : list Z) : sha1_state :=
  let ws := rev (sha1_schedule 64 (rev (be_words 16 block))) in
  let '(h0, h1, h2, h3, h4) := h in
  let '(a, b, c, d, e, _) := foldl sha1_round (h, 0) ws in
  (mask32 (h0 + a), mask32 (h1 + b), mask32 (h2 + c), mask32 (h3 + d), mask32 (h4 + e)).

Fixpoint sha1_blocks (n : nat) (h : sha1_state) (bs : list Z) : sha1_state :=
  match n with
  | O => h
  | S n' => sha1_blocks n' (sha1_block h (take 64 bs)) (drop 64 bs)
  end.

(** [sha1.Sum(data)]: the twenty bytes of the digest. *)
Definition sha1_Sum (data : list Z) : list Z :=
  let padded := sha1_pad data in
  let '(h0, h1, h2, h3, h4) :=
    sha1_blocks (Nat.div (length padded) 64)
      (1732584193, 4023233417, 2562383102, 271733878, 3285377520) padded in
  (be_bytes 4 h0 ++ be_bytes 4 h1 ++ be_bytes 4 h2 ++ be_bytes 4 h3 ++ be_bytes 4 h4)%list.

Definition hex_digit (x : Z) : string :=
  String (nth (Z.to_nat x) (list_ascii_of_string "0123456789abcdef") "0"%char) "".

(** [hex.EncodeToString] *)
Fixpoint hex_EncodeToString (bs : list Z) : string :=
  match bs with
  | [] => ""
  | b :: rest => hex_digit (b / 16) +:+ hex_digit (b mod 16) +:+ hex_EncodeToString rest
  end.

(** ** time: locations and formatting *)

(** A [*time.Location], as the offset east of UTC (in seconds) in force at
    a given instant. *)
Definition Location : Type := Z -> Z.

(** Asia/Kolkata, the default of the [TZ] setting. *)
Definition Kolkata : Location := fun _ => 19800.

(** Year, month and day of a day number counted from 1970-01-01. *)
Definition civil_from_days (z : Z) : Z * Z * Z :=
  let z := z + 719468 in
  let era := z / 146097 in
  let doe := z mod 146097 in
  let yoe := (doe - doe / 1460 + doe / 36524 - doe / 146096) / 365 in
  let y := yoe + era * 400 in
  let doy := doe - (365 * yoe + yoe / 4 - yoe / 100) in
  let mp := (5 * doy + 2) / 153 in
  let d := doy - (153 * mp + 2) / 5 + 1 in
  let m := if mp <? 10 then mp + 3 else mp - 9 in
  (if m <=? 2 then y + 1 else y, m, d).

(** A non-negative number in decimal, zero-padded to [width] digits. *)
Definition zero_pad (width : nat) (n : Z) : string :=
  let s := pretty n in
  string_of_list_ascii (replicate (width - String.length s) "0"%char) +:+ s.

(** [ts.In(loc).Format("2006-01-02 15:04:05")] for the instant [ts]
    (seconds since the epoch). *)
Definition format_datetime (loc : Location) (ts : Z) : string :=
  let local := ts + loc ts in
  let '(y, m, d) := civil_from_days (local / 86400) in
  let secs := local mod 86400 in
  (if y <? 0 then "-" +:+ zero_pad 4 (- y) else zero_pad 4 y) +:+ "-" +:+
  zero_pad 2 m +:+ "-" +:+ zero_pad 2 d +:+ " " +:+
  zero_pad 2 (secs / 3600) +:+ ":" +:+ zero_pad 2 (secs mod 3600 / 60) +:+ ":" +:+
  zero_pad 2 (secs mod 60).

(** ** The handler (main.go 399-637) *)

(** [canal.InsertAction], [canal.UpdateAction], [canal.DeleteAction] *)
Definition InsertAction : string := "insert".
Definition UpdateAction : string := "update".
Definition DeleteAction : string := "delete".

(** The part of [schema.Table] that OnRow reads: [Columns] holds the
    column names in declared order and [PKColumns] the positions of the
    primary-key columns in it. *)
Record Table := {
  Schema : string;
  Name : string;
  Columns : list string;
  PKColumns : list nat
}.

(** [canal.RowsEvent]; [Timestamp] is [e.Header.Timestamp] (uint32). *)
Record RowsEvent := {
  table : Table;
  Action : string;
  Rows : list (list value);
  Timestamp : Z
}.

(** [loc] is [None] for a nil [*time.Location]. *)
Record Handler := {
  source : string;
  batch : list EventDoc;
  lastFile : string;
  lastPos : Z;
  lastGTID : string;
  loc : option Location;
  batchFile : string;
  batchPos : Z;
  batchGTID : string;
  tableSchemas : gmap string (list string)
}.

Definition with_batch (b : list EventDoc) (h : Handler) : Handler :=
  {| source := source h; batch := b; lastFile := lastFile h;
     lastPos := lastPos h; lastGTID := lastGTID h; loc := loc h;
     batchFile := batchFile h; batchPos := batchPos h;
     batchGTID := batchGTID h; tableSchemas := tableSchemas h |}.

Definition with_batch_position (file : string) (pos : Z) (gtid : string)
    (h : Handler) : Handler :=
  {| source := source h; batch := batch h; lastFile := lastFile h;
     lastPos := lastPos h; lastGTID := lastGTID h; loc := loc h;
     batchFile := file; batchPos := pos;
     batchGTID := gtid; tableSchemas := tableSchemas h |}.

Definition with_tableSchemas (t : gmap string (list string)) (h : Handler) : Handler :=
  {| source := source h; batch := batch h; lastFile := lastFile h;
     lastPos := lastPos h; lastGTID := lastGTID h; loc := loc h;
     batchFile := batchFile h; batchPos := batchPos h;
     batchGTID := batchGTID h; tableSchemas := t |}.

(** A run-time panic of the Go program. *)
Inductive panic := IndexOutOfRange | MissingLocation.

(** How a handler callback ends: it returns its [error] result, or the
    goroutine panics. *)
Inductive result := Return (err : option error) | Panicked (p : panic).

(** Flush (main.go 423-433) *)
Definition Flush (ctx : Context) (h : Handler) (w : World)
    : option error * Handler * World :=
  match batch h with
  | [] => (None, h, w)
  | _ =>
      let w := log (LogFlushing (length (batch h))) w in
      let '(err, w) :=
        writeBatchWithGTID ctx (batch h) (source h) (batchGTID h) (batchFile h)
          (batchPos h) w in
      match err with
      | Some e => (Some (Wrapf "flush batch" e), h, w)
      | None => (None, with_batch [] h, w)
      end
  end.

(** The string that makeID hashes: the format has seven verbs for eight
    operands, so [gtid] meets the verb [%d] and [pos] is left over; fmt
    renders them as [%!d(string=...)] and [%!(EXTRA uint64=...)]. *)
Definition makeID_input (db tbl : string) (pk : value) (ts : Z) (op file : string)
    (pos : Z) (gtid : string) : string :=
  db +:+ "|" +:+ tbl +:+ "|" +:+ toS pk +:+ "|" +:+
  pretty (wrap64 (ts * Second)) +:+ "|" +:+ op +:+ "|" +:+ file +:+ "|" +:+
  "%!d(string=" +:+ gtid +:+ ")" +:+ "%!(EXTRA uint64=" +:+ pretty pos +:+ ")".

(** makeID (main.go 450-454) *)
Definition makeID (db tbl : string) (pk : value) (ts : Z) (op file : string)
    (pos : Z) (gtid : string) : string :=
  let s := makeID_input db tbl pk ts op file pos gtid in
  hex_EncodeToString (sha1_Sum (bytes_of_string s)).

(** [for i := 0; i < n; i++ { body }] over an accumulator; [None] when
    the body panics. *)
Fixpoint for_range {A : Type} (n i : nat) (body : nat -> A -> option A) (a : A)
    : option A :=
  match n with
  | O => Some a
  | S n' =>
      match body i a with
      | Some a' => for_range n' (S i) body a'
      | None => None
      end
  end.

(** The change map of an inserted row (main.go 546-553); every slice
    access is a lookup that fails when out of range. *)
Definition chg_insert (colNames : list string) (row : list value)
    : option (gmap string Delta) :=
  let maxIdx := length colNames in
  let maxIdx := if decide (length row < maxIdx)%nat then length row else maxIdx in
  for_range maxIdx 0
    (fun i chg =>
       match colNames !! i, row !! i with
       | Some c, Some v => Some (<[c := {| F := VNil; T := v |}]> chg)
       | _, _ => None
       end) ∅.

(** The change map of a deleted row (main.go 560-567). *)
Definition chg_delete (colNames : list string) (row : list value)
    : option (gmap string Delta) :=
  let maxIdx := length colNames in
  let maxIdx := if decide (length row < maxIdx)%nat then length row else maxIdx in
  for_range maxIdx 0
    (fun i chg =>
       match colNames !! i, row !! i with
       | Some c, Some v => Some (<[c := {| F := v; T := VNil |}]> chg)
       | _, _ => None
       end) ∅.

(** The change map of an updated row (main.go 575-587). *)
Definition chg_update (colNames : list string) (before after : list value)
    : option (gmap string Delta) :=
  let maxIdx := length colNames in
  let maxIdx := if decide (length before < maxIdx)%nat then length before else maxIdx in
  let maxIdx := if decide (length after < maxIdx)%nat then length after else maxIdx in
  for_range maxIdx 0
    (fun c chg =>
       match before !! c, after !! c with
       | Some b, Some a =>
           if negb (DeepEqual b a) then
             match colNames !! c with
             | Some name => Some (<[name := {| F := b; T := a |}]> chg)
             | None => None
             end
           else Some chg
       | _, _ => None
       end) ∅.

(** The closure [pkVal] of OnRow (main.go 491-515).  Each access
    [row[idx]] sits behind the test [idx >= len(row)], so the lookup and
    its guard are one [match]. *)
Definition pkVal (e : RowsEvent) (row : list value) : value :=
  match PKColumns (table e) with
  | [idx] =>
      match row !! idx with
      | None => VNil
      | Some v => v
      end
  | _ :: _ :: _ =>
      let parts :=
        foldl (fun parts idx =>
                 match row !! idx with
                 | None => parts
                 | Some v => (parts ++ [toS v])%list
                 end) [] (PKColumns (table e)) in
      match parts with
      | [] => VNil
      | _ => VStr (Join parts "|")
      end
  | [] =>
      match row with
      | v :: _ => v
      | [] => VNil
      end
  end.

(** The document that [addDoc] builds (main.go 518-526), for the time
    zone [l] of the handler. *)
Definition mkDoc (e : RowsEvent) (pk : value) (chg : gmap string Delta)
    (op : string) (h : Handler) (l : Location) : EventDoc :=
  let ts := Timestamp e in
  let db := Schema (table e) in
  let tbl := Name (table e) in
  {| ID := makeID db tbl pk ts op (lastFile h) (lastPos h) (lastGTID h);
     TS := ts;
     OP := op;
     meta := {| DB := db; Tbl := tbl; PK := pk |};
     Seq := 0;
     Chg := chg;
     src := {| src_file := lastFile h; src_pos := lastPos h;
               src_gtid := lastGTID h |};
     TSIST := format_datetime l ts |}.

(** The closure [addDoc] of OnRow (main.go 517-541); formatting the time
    in a nil location panics. *)
Definition addDoc (e : RowsEvent) (pk : value) (chg : gmap string Delta)
    (op : string) (h : Handler) (w : World) : result * Handler * World :=
  match loc h with
  | None => (Panicked MissingLocation, h, w)
  | Some l =>
      let doc := mkDoc e pk chg op h l in
      let h := with_batch (batch h ++ [doc]) h in
      let h := with_batch_position (lastFile h) (to_uint32 (lastPos h)) (lastGTID h) h in
      if decide (100 <= length (batch h))%nat then
        let '(err, w) :=
          writeBatchWithGTID Background (batch h) (source h) (batchGTID h)
            (batchFile h) (batchPos h) w in
        match err with
        | Some err => (Return (Some (Wrapf "write batch with GTID" err)), h, w)
        | None => (Return None, with_batch [] h, w)
        end
      else (Return None, h, w)
  end.

(** What follows a call of [addDoc] inside the loops of OnRow: a non-nil
    error is wrapped and returned, a panic unwinds, and otherwise the loop
    goes on with [k]. *)
Definition and_then (wrap : string) (r : result * Handler * World)
    (k : Handler -> World -> result * Handler * World) : result * Handler * World :=
  match r with
  | (Return None, h, w) => k h w
  | (Return (Some err), h, w) => (Return (Some (Wrapf wrap err)), h, w)
  | (Panicked p, h, w) => (Panicked p, h, w)
  end.

(** [for _, row := range e.Rows] of the insert case (main.go 545-557). *)
Fixpoint insert_rows (e : RowsEvent) (rows : list (list value)) (h : Handler)
    (w : World) : result * Handler * World :=
  match rows with
  | [] => (Return None, h, w)
  | row :: rest =>
      match chg_insert (Columns (table e)) row with
      | None => (Panicked IndexOutOfRange, h, w)
      | Some chg =>
          and_then "insert action" (addDoc e (pkVal e row) chg "i" h w)
            (insert_rows e rest)
      end
  end.

(** [for _, row := range e.Rows] of the delete case (main.go 559-571). *)
Fixpoint delete_rows (e : RowsEvent) (rows : list (list value)) (h : Handler)
    (w : World) : result * Handler * World :=
  match rows with
  | [] => (Return None, h, w)
  | row :: rest =>
      match chg_delete (Columns (table e)) row with
      | None => (Panicked IndexOutOfRange, h, w)
      | Some chg =>
          and_then "delete action" (addDoc e (pkVal e row) chg "d" h w)
            (delete_rows e rest)
      end
  end.

(** [for i := 0; i < len(e.Rows); i += 2] of the update case (main.go
    573-591); [n] counts the iterations that remain, [i] is the index. *)
Fixpoint update_rows (e : RowsEvent) (n i : nat) (h : Handler) (w : World)
    : result * Handler * World :=
  match n with
  | O => (Return None, h, w)
  | S n' =>
      match Rows e !! i, Rows e !! (i + 1)%nat with
      | Some before, Some after =>
          match chg_update (Columns (table e)) before after with
          | None => (Panicked IndexOutOfRange, h, w)
          | Some chg =>
              and_then "update action" (addDoc e (pkVal e after) chg "u" h w)
                (update_rows e n' (i + 2)%nat)
          end
      | _, _ => (Panicked IndexOutOfRange, h, w)
      end
  end.

(** The number of values of [i] that [for i := 0; i < len; i += 2]
    goes through. *)
Definition update_iterations (len : nat) : nat := Nat.div2 (S len).

(** OnRow (main.go 474-594) *)
Definition OnRow (e : RowsEvent) (h : Handler) (w : World) : result * Handler * World :=
  match PKColumns (table e) with
  | [] => (Return None, h, w)
  | _ =>
      if decide (Action e = InsertAction) then insert_rows e (Rows e) h w
      else if decide (Action e = DeleteAction) then delete_rows e (Rows e) h w
      else if decide (Action e = UpdateAction) then
        update_rows e (update_iterations (length (Rows e))) 0 h w
      else (Return None, h, w)
  end.

(** OnTableChanged (main.go 619-629) *)
Definition OnTableChanged (schema tbl : string) (h : Handler) (w : World)
    : option error * Handler * World :=
  let key := schema +:+ "." +:+ tbl in
  let h := with_tableSchemas (delete key (tableSchemas h)) h in
  let w := log (LogSchemaChange key) w in
  let '(err, h, w) := Flush Background h w in
  let w := match err with
           | Some e => log (LogFlushError e) w
           | None => w
           end in
  (None, h, w).

(** ** Start-up (main.go 240-266 and 707-739) *)

(** [s.offsets.FindOne(ctx, {"_id": source}).Decode(&doc)] *)
Definition offsets_FindOneById (source : string) (w : World)
    : (error + OffsetDoc) * World :=
  let w := emit (EFindOffset true source) w in
  let '(f, w) := pop_fault w in
  match f with
  | Some e => (inl e, w)
  | None =>
      match offsets w !! source with
      | Some d => (inr d, w)
      | None => (inl ErrNoDocuments, w)
      end
  end.

(** [s.offsets.FindOne(ctx, {"source": source}).Decode(&doc)] *)
Definition offsets_FindOneBySource (source : string) (w : World)
    : (error + OffsetDoc) * World :=
  let w := emit (EFindOffset false source) w in
  let '(f, w) := pop_fault w in
  match f with
  | Some e => (inl e, w)
  | None =>
      match filter (fun d => of_source d = source) (map snd (map_to_list (offsets w))) with
      | d :: _ => (inr d, w)
      | [] => (inl ErrNoDocuments, w)
      end
  end.

(** [err != mongo.ErrNoDocuments] compares with the sentinel itself. *)
Definition is_ErrNoDocuments (e : error) : bool :=
  match e with ErrNoDocuments => true | _ => false end.

(** The closure of loadGTID (main.go 246-256); the captured variable is
    [doc.GTID]. *)
Definition loadAttempt (source : string) (retryCtx : Context) (gtid : string)
    (w : World) : option error * string * World :=
  let '(r, w) := offsets_FindOneById source w in
  match r with
  | inr d => (None, of_gtid d, w)
  | inl err =>
      let '(r2, w) := offsets_FindOneBySource source w in
      let gtid := match r2 with inr d => of_gtid d | inl _ => gtid end in
      if negb (is_ErrNoDocuments err) then (Some err, gtid, w)
      else (None, gtid, w)
  end.

(** loadGTID (main.go 240-266) *)
Definition loadGTID (ctx : Context) (source : string) (w : World)
    : (string * bool * option error) * World :=
  let '(err, gtid, w) :=
    retryWithBackoff ctx (loadAttempt source) 5 (100 * Millisecond) "" w in
  match err with
  | Some e =>
      if negb (is_ErrNoDocuments e) then (("", false, Some e), w)
      else if decide (gtid = "") then (("", false, None), w)
      else ((gtid, true, None), w)
  | None =>
      if decide (gtid = "") then (("", false, None), w)
      else ((gtid, true, None), w)
  end.

(** The replication-log reader as main.go uses it: parsing a stored
    position, asking the source for its current position, and running
    from a position until the reader stops ([None] for a nil error). *)
Record Canal := {
  ParseGTIDSet : string -> error + string;
  GetMasterGTIDSet : error + string;
  StartFromGTID : string -> option error
}.

(** The second half of the goroutine of main (main.go 714-738): load the
    stored position and start the reader from it, or from the current
    position of the source.  The result is what is sent on [errChan], if
    anything. *)
Definition startReader (c : Canal) (h : Handler) (w : World) : option error * World :=
  let '((gtidStr, ok, _), w) := loadGTID Background (source h) w in
  if ok && negb (bool_decide (gtidStr = "")) then
    let w := emit (EParseGTIDSet gtidStr) w in
    match ParseGTIDSet c gtidStr with
    | inl e => (Some (Wrapf "parse GTID" e), w)
    | inr gtidSet =>
        let w := log (LogResuming gtidStr) w in
        let w := emit (EStartFromGTID gtidSet) w in
        (StartFromGTID c gtidSet, w)
    end
  else
    let w := emit EGetMasterGTIDSet w in
    match GetMasterGTIDSet c with
    | inl e => (Some (Wrapf "GetMasterGTIDSet" e), w)
    | inr gset =>
        let w := log (LogStartingFromMaster gset) w in
        let w := emit (EStartFromGTID gset) w in
        (StartFromGTID c gset, w)
    end.

(** The goroutine of main (main.go 707-739). *)
Definition startup (c : Canal) (h : Handler) (w : World) : option error * World :=
  let '(err, w) := RecoverPendingBatches w in
  let w := match err with
           | Some e => log (LogRecoverWarning e) w
           | None => w
           end in
  startReader c h w.

(** ** BSON layout of an event document (main.go 28-45) *)

#[warnings="-register-all"]
Inductive bson : Type :=
| BNull
| BInt64 (z : Z)
| BString (s : string)
| BBinary (b : list Z)
| BDateTime (millis : Z)
| BDocument (fields : list (string * bson)).

Definition bson_of_value (v : value) : bson :=
  match v with
  | VNil => BNull
  | VInt z => BInt64 z
  | VStr s => BString s
  | VBytes b => BBinary b
  end.

(** A field of type [any] tagged [omitempty] is left out when nil. *)
Definition omitempty_value (name : string) (v : value) : list (string * bson) :=
  match v with
  | VNil => []
  | _ => [(name, bson_of_value v)]
  end.

Definition bson_of_Delta (d : Delta) : bson :=
  BDocument (omitempty_value "f" (F d) ++ omitempty_value "t" (T d)).

(** The fields of an [EventDoc] under its struct tags; untagged fields
    take their lower-cased name, and [omitempty] drops an empty map or
    string. *)
Definition bson_of_EventDoc (d : EventDoc) : list (string * bson) :=
  [ ("_id", BString (ID d));
    ("ts", BDateTime (TS d * 1000));
    ("op", BString (OP d));
    ("meta", BDocument [ ("db", BString (DB (meta d)));
                         ("tbl", BString (Tbl (meta d)));
                         ("pk", bson_of_value (PK (meta d))) ]);
    ("seq", BInt64 (Seq d)) ]
  ++ (if decide (Chg d = ∅) then []
      else [("chg", BDocument (map (fun kv => (fst kv, bson_of_Delta (snd kv)))
                                   (map_to_list (Chg d))))])
  ++ [ ("src", BDocument [ ("binlog", BDocument [ ("file", BString (src_file (src d)));
                                                  ("pos", BInt64 (src_pos (src d))) ]);
                           ("gtid", BString (src_gtid (src d))) ]) ]
  ++ (if decide (TSIST d = "") then [] else [("ts_ist", BString (TSIST d))]).

(** The value of a top-level field of a document. *)
Fixpoint bson_field (name : string) (fields : list (string * bson)) : option bson :=
  match fields with
  | [] => None
  | (k, v) :: rest => if decide (k = name) then Some v else bson_field name rest
  end.

(** ** Vocabulary of the statements *)

(** The closure [fn] with a counter of its executions added to the
    variables it captures. *)
Definition counted {C : Type}
    (fn : Context -> C -> World -> option error * C * World)
    : Context -> C * nat -> World -> option error * (C * nat) * World :=
  fun ctx ck w =>
    let '(r, c', w') := fn ctx (fst ck) w in
    (r, (c', S (snd ck)), w').

(** The delays of the backoff sleeps issued so far. *)
Definition sleeps (t : list Effect) : list Z :=
  omap (fun e => match e with ESleep d => Some d | _ => None end) t.

(** min(D * 2^i, 10 s) *)
Definition backoff (D : Z) (i : nat) : Z := Z.min (D * 2 ^ Z.of_nat i) (10 * Second).

(** The attempt count and the initial delay after the defaults of
    retryWithBackoff (main.go 81-86) are applied. *)
Definition effective_retries (maxRetries : Z) : Z :=
  if maxRetries <=? 0 then 5 else maxRetries.
Definition effective_delay (initialDelay : Z) : Z :=
  if initialDelay <=? 0 then 100 * Millisecond else initialDelay.

(** An operation that issues no backoff sleep of its own. *)
Definition sleep_free {C : Type}
    (fn : Context -> C -> World -> option error * C * World) : Prop :=
  forall ctx c w, sleeps (trace (snd (fn ctx c w))) = sleeps (trace w).

(** An operation that always fails with a temporary network error. *)
Definition always_transient (ctx : Context) (c : unit) (w : World)
    : option error * unit * World :=
  (Some (NetError true [] "i/o timeout"), c, w).

Definition empty_world : World :=
  {| events := ∅; offsets := ∅; staging := ∅; noTxWarningLogged := false;
     clock := 0; faults := []; interrupts := []; txTimer := []; trace := [] |}.

(** A sample event. *)
Definition sample_doc : EventDoc :=
  {| ID := "e1"; TS := 1765621800; OP := "i";
     meta := {| DB := "shop"; Tbl := "orders"; PK := VInt 1 |};
     Seq := 0;
     Chg := {[ "id" := {| F := VNil; T := VInt 1 |} ]};
     src := {| src_file := "binlog.000001"; src_pos := 4; src_gtid := "uuid:1-5" |};
     TSIST := "2025-12-13 16:00:00" |}.

(** A store that accepts the staging insert and the session and then
    loses its connection for a while: the bulk write of the transaction
    fails with a temporary network error, which the driver labels
    TransientTransactionError; the driver runs the callback again, with
    the same result, and then the 120 s of the transaction are over.
    Afterwards the store works normally. *)
Definition connection_lost : error :=
  NetError true ["NetworkError"; TransientTransactionError] "connection reset by peer".

Definition transient_phase2_world : World :=
  with_txTimer [false]
    (with_faults [None; None; Some connection_lost; Some connection_lost] empty_world).

Definition staged_ids (t : list Effect) : list string :=
  omap (fun e => match e with EInsertStaging id => Some id | _ => None end) t.

(** The store does not fail any of the next [n] calls. *)
Definition no_fault_in_next (n : nat) (w : World) : Prop :=
  Forall (fun f => f = None) (take n (faults w)).

(** A store that already holds [sample_doc]. *)
Definition replay_world : World :=
  with_events {[ "e1" := sample_doc ]} empty_world.

(** A reader that parses every stored position, reports "uuid:1-9" as
    the current position of the source and runs until it is closed. *)
Definition sample_canal : Canal :=
  {| ParseGTIDSet := fun s => inr s;
     GetMasterGTIDSet := inr "uuid:1-9";
     StartFromGTID := fun _ => None |}.

Definition sample_handler : Handler :=
  {| source := "mysql://127.0.0.1:3306"; batch := []; lastFile := "binlog.000001";
     lastPos := 4; lastGTID := "uuid:1-5"; loc := Some Kolkata;
     batchFile := ""; batchPos := 0; batchGTID := "";
     tableSchemas := ∅ |}.

(** A store whose first call (the query for pending batches) fails. *)
Definition find_fails_world : World :=
  with_faults [Some (NetError false [] "connection refused")] empty_world.

(** The reader is started at some position. *)
Definition reader_started (t : list Effect) : Prop :=
  exists gset, EStartFromGTID gset ∈ t.

(** The documents that the query of Recovery finds. *)
Definition pending_docs (w : World) : list StagingDoc :=
  filter (fun d => st_status d = pending) (map snd (map_to_list (staging w))).

(** What Recovery logs and asks of the store for the documents found. *)
Definition recovery_effects (found : list StagingDoc) : list Effect :=
  match found with
  | [] => []
  | _ =>
      ELog (LogFoundPending (length found))
      :: flat_map (fun d => [ELog (LogRecovering (st_id d));
                             EMarkStaging (st_id d) archived]) found
  end.

(** Every staging document is stored under its own [_id]. *)
Definition staging_wf (w : World) : Prop :=
  forall k d, staging w !! k = Some d -> st_id d = k.

(** The store fails no call. *)
Definition no_faults (w : World) : Prop := Forall (fun f => f = None) (faults w).

(** The archived form of a staging document. *)
Definition is_archived_of (d d' : StagingDoc) : Prop :=
  st_status d' = archived /\ (exists t, st_archivedAt d' = Some t) /\
  st_id d' = st_id d /\ st_events d' = st_events d.

(** A store left by a crash between staging and commit: one pending
    batch, no event, no offset. *)
Definition crashed_world : World :=
  with_staging
    {[ "mysql://127.0.0.1:3306_0_uuid:1-5" :=
         {| st_id := "mysql://127.0.0.1:3306_0_uuid:1-5"; st_events := [sample_doc];
            st_source := "mysql://127.0.0.1:3306"; st_gtid := "uuid:1-5";
            st_file := "binlog.000001"; st_pos := 4; st_createdAt := 1;
            st_status := pending; st_committedAt := None; st_archivedAt := None |} ]}
    empty_world.

(** A table with a generated third column that the log does not carry,
    and an update of its row 1 from v = "a" to v = "b". *)
Definition sample_table : Table :=
  {| Schema := "shop"; Name := "orders"; Columns := ["id"; "v"; "v_upper"];
     PKColumns := [0%nat] |}.

Definition sample_update : RowsEvent :=
  {| table := sample_table; Action := UpdateAction;
     Rows := [[VInt 1; VStr "a"]; [VInt 1; VStr "b"]];
     Timestamp := 1765621800 |}.

(** Strings of exactly [k] decimal digits, and the layout
    "YYYY-MM-DD HH:MM:SS". *)
Definition is_digit (a : ascii) : bool :=
  let n := nat_of_ascii a in (48 <=? n)%nat && (n <=? 57)%nat.

Definition all_digits (k : nat) (s : string) : bool :=
  (String.length s =? k)%nat && forallb is_digit (list_ascii_of_string s).

Definition datetime_layout (s : string) : Prop :=
  exists Y M D hh mm ss : string,
    all_digits 4 Y = true /\ all_digits 2 M = true /\ all_digits 2 D = true /\
    all_digits 2 hh = true /\ all_digits 2 mm = true /\ all_digits 2 ss = true /\
    s = Y +:+ "-" +:+ M +:+ "-" +:+ D +:+ " " +:+ hh +:+ ":" +:+ mm +:+ ":" +:+ ss.

(** A document whose time is a 32-bit header timestamp and whose display
    string is that time formatted in the zone [l]. *)
Definition stamped (l : Location) (d : EventDoc) : Prop :=
  0 <= TS d < 2 ^ 32 /\ TSIST d = format_datetime l (TS d).

(** Every document of [w'] was already in [w] or is one of [docs]. *)
Definition events_from (docs : list EventDoc) (w w' : World) : Prop :=
  forall id d, events w' !! id = Some d -> events w !! id = Some d \/ d ∈ docs.

(** The checks behind the layout: padded numbers are digits, and every
    day that a 32-bit timestamp can fall on, in a zone at most a day from
    UTC, has a four-digit year, a month and a day of month. *)
Fixpoint forallb_from (f : Z -> bool) (n : nat) (z : Z) : bool :=
  match n with
  | O => true
  | S n' => f z && forallb_from f n' (z + 1)
  end.

Definition check_zero_pad (k : nat) (bound : Z) : bool :=
  forallb_from (fun n => all_digits k (zero_pad k n)) (Z.to_nat bound) 0.

Definition check_civil (first count : Z) : bool :=
  forallb_from (fun z =>
                  let '(y, m, d) := civil_from_days z in
                  (0 <=? y) && (y <? 10000) && (1 <=? m) && (m <=? 12) &&
                  (1 <=? d) && (d <=? 31)) (Z.to_nat count) first.

(** A handler callback that keeps the time zone and adds only documents
    that satisfy [P]: what is in the batch afterwards was in the batch
    before or satisfies [P], and what is in the events collection
    afterwards was there before, was in the batch before, or satisfies
    [P]. *)
Definition adds_only (P : EventDoc -> Prop) (h : Handler) (w : World)
    (r : result * Handler * World) : Prop :=
  loc (snd (fst r)) = loc h /\
  (forall d, d ∈ batch (snd (fst r)) -> d ∈ batch h \/ P d) /\
  (forall id d, events (snd r) !! id = Some d ->
                events w !! id = Some d \/ d ∈ batch h \/ P d).

(** What the change map of an inserted row, of a deleted row and of an
    updated pair of rows holds, column by column. *)
Definition insert_entries (cols : list string) (row : list value)
    (chg : gmap string Delta) : Prop :=
  forall col d,
    chg !! col = Some d <->
    exists i v, (i < Nat.min (length cols) (length row))%nat /\
                cols !! i = Some col /\ row !! i = Some v /\
                d = {| F := VNil; T := v |}.

Definition delete_entries (cols : list string) (row : list value)
    (chg : gmap string Delta) : Prop :=
  forall col d,
    chg !! col = Some d <->
    exists i v, (i < Nat.min (length cols) (length row))%nat /\
                cols !! i = Some col /\ row !! i = Some v /\
                d = {| F := v; T := VNil |}.

Definition update_entries (cols : list string) (before after : list value)
    (chg : gmap string Delta) : Prop :=
  forall col d,
    chg !! col = Some d <->
    exists i b a,
      (i < Nat.min (length cols) (Nat.min (length before) (length after)))%nat /\
      cols !! i = Some col /\ before !! i = Some b /\ after !! i = Some a /\
      DeepEqual b a = false /\ d = {| F := b; T := a |}.

(** The handler and the store after the sample update was received and
    the batch flushed, and the document this run wrote. *)
Definition after_sample_update : Handler * World :=
  let '(_, h, w) := OnRow sample_update sample_handler empty_world in
  let '(_, h, w) := Flush Background h w in
  (h, w).

Definition written_sample_docs : list EventDoc :=
  map snd (map_to_list (events (snd after_sample_update))).

(** An update event that lost the after-image of its second row. *)
Definition sample_odd_update : RowsEvent :=
  {| table := sample_table; Action := UpdateAction;
     Rows := [[VInt 1; VStr "a"]; [VInt 1; VStr "b"]; [VInt 2; VStr "c"]];
     Timestamp := 1765621800 |}.

(** ** The rest of main.go *)

(** saveGTID (main.go 229-238) *)
Definition saveGTID (source gtid file : string) (pos : Z) (w : World)
    : option error * World :=
  offsets_Upsert source gtid file pos w.

(** hasPrimaryKey (main.go 435-437) *)
Definition hasPrimaryKey (e : RowsEvent) : bool :=
  bool_decide (0 < length (PKColumns (table e)))%nat.

(** shortOP (main.go 439-448) *)
Definition shortOP (action : string) : string :=
  if decide (action = InsertAction) then "i"
  else if decide (action = DeleteAction) then "d"
  else "u".

(** [for i, idx := range e.Table.PKColumns { parts[i] = fmt.Sprint(row[idx]) }]
    of toPK; [None] when [row[idx]] is out of range. *)
Fixpoint toPK_parts (idxs : list nat) (row : list value) : option (list string) :=
  match idxs with
  | [] => Some []
  | idx :: rest =>
      match row !! idx with
      | None => None
      | Some v =>
          match toPK_parts rest row with
          | None => None
          | Some parts => Some (toS v :: parts)
          end
      end
  end.

(** toPK (main.go 456-472); [None] when an index is out of range and the
    program panics. *)
Definition toPK (e : RowsEvent) (row : list value) : option value :=
  match PKColumns (table e) with
  | [idx] => row !! idx
  | _ :: _ :: _ =>
      match toPK_parts (PKColumns (table e)) row with
      | None => None
      | Some parts => Some (VStr (Join parts "|"))
      end
  | [] =>
      match row with
      | v :: _ => Some v
      | [] => Some VNil
      end
  end.

Definition with_last (file : string) (pos : Z) (gtid : string) (h : Handler) : Handler :=
  {| source := source h; batch := batch h; lastFile := file;
     lastPos := pos; lastGTID := gtid; loc := loc h;
     batchFile := batchFile h; batchPos := batchPos h;
     batchGTID := batchGTID h; tableSchemas := tableSchemas h |}.

(** OnPosSynced (main.go 596-611); [pos] is [pos.Pos] (uint32) and [set]
    is [set.String()], or [None] for a nil set. *)
Definition OnPosSynced (name : string) (pos : Z) (set : option string) (h : Handler)
    : option error * Handler :=
  let gtid := match set with
              | Some s => s
              | None => lastGTID h
              end in
  (None, with_last name pos gtid h).

(** OnRotate (main.go 613-617) *)
Definition OnRotate (nextLogName : string) (position : Z) (h : Handler)
    : option error * Handler :=
  (None, with_last nextLogName position (lastGTID h) h).

(** OnXID (main.go 631) *)
Definition OnXID (h : Handler) : option error * Handler := (None, h).

(** OnGTID (main.go 633-637); [rendered] is [fmt.Sprintf("%+v", ev)]. *)
Definition OnGTID (rendered : string) (h : Handler) : option error * Handler :=
  (None, with_last (lastFile h) (lastPos h) rendered h).

(** ** Vocabulary of the further statements *)

(** The ids of [docs] differ from one another and none is taken in the
    collection [m]. *)
Definition fresh_ids (docs : list EventDoc) (m : gmap string EventDoc) : Prop :=
  NoDup (map ID docs) /\ forall d, d ∈ docs -> m !! ID d = None.

(** The events collection after an unordered bulk insert of [docs] that
    the store lets through. *)
Definition bulk_events (docs : list EventDoc) (m : gmap string EventDoc)
    : gmap string EventDoc :=
  fst (foldl bulk_insert_one (m, []) docs).

(** The closure [fn] with the list of its results added to the variables
    it captures. *)
Definition recorded {C : Type}
    (fn : Context -> C -> World -> option error * C * World)
    : Context -> C * list (option error) -> World
      -> option error * (C * list (option error)) * World :=
  fun ctx cl w =>
    let '(r, c', w') := fn ctx (fst cl) w in
    (r, (c', (snd cl ++ [r])%list), w').

(** A result that makes the harness try again: a transient error that is
    not a cancellation. *)
Definition retried (r : option error) : Prop :=
  exists e, r = Some e /\ isTransient e = true /\
            is_Canceled e || is_DeadlineExceeded e = false.

(** The sum of a list of delays. *)
Definition total (ds : list Z) : Z := foldr Z.add 0 ds.

(** How often the warning about missing transactions was logged. *)
Definition warnings (t : list Effect) : nat :=
  length (omap (fun e => match e with
                         | ELog LogNoTxWarning => Some tt
                         | _ => None
                         end) t).

(** The warning was logged at most once, and not at all while the flag
    of the sink is still false. *)
Definition warned_once (w : World) : Prop :=
  (warnings (trace w) <= 1)%nat /\
  (noTxWarningLogged w = false -> warnings (trace w) = 0%nat).

(** The offset record that a commit of the position (gtid, file, pos)
    leaves for [source], up to its update time. *)
Definition offset_is (source gtid file : string) (pos : Z) (w : World) : Prop :=
  exists t, offsets w !! source =
            Some {| of_source := source; of_gtid := gtid; of_file := file;
                    of_pos := pos; of_updatedAt := t |}.

(** The forty characters of a hex SHA-1 digest. *)
Definition is_hex (a : ascii) : bool :=
  bool_decide (a ∈ list_ascii_of_string "0123456789abcdef").

(** A store without transactions: every session it opens refuses the
    bulk write, with a command error that carries no label. *)
Definition standalone_error : error :=
  CommandError 20 []
    "Transaction numbers are only allowed on a replica set member or mongos".

(** Nothing is taken away: every event document is still there,
    unchanged, and every staging document still exists. *)
Definition keeps_documents (w w' : World) : Prop :=
  (forall id d, events w !! id = Some d -> events w' !! id = Some d) /\
  (forall id, is_Some (staging w !! id) -> is_Some (staging w' !! id)).

(** A store without transactions: it accepts the staging insert and the
    session, and refuses the bulk write inside the transaction. *)
Definition standalone_world : World :=
  with_faults [None; None; Some standalone_error] empty_world.

(** The three collections are as they were. *)
Definition same_store (w w' : World) : Prop :=
  events w' = events w /\ offsets w' = offsets w /\ staging w' = staging w.

(** [w'] is [w] after the calls [es], none of which the store failed,
    with the store still failing no call. *)
Definition healthy_after (es : list Effect) (w w' : World) : Prop :=
  no_faults w' /\ trace w' = (trace w ++ es)%list /\
  noTxWarningLogged w' = noTxWarningLogged w.

(** The store calls of one commit that goes through in a transaction. *)
Definition commit_effects (batchID : string) (docs : list EventDoc)
    (source gtid file : string) (pos : Z) : list Effect :=
  [EInsertStaging batchID; EStartSession; EBulkWrite (map ID docs);
   EUpsertOffset source gtid file pos; ECommitTx; EMarkStaging batchID committed].

(** The staging document that writeBatchWithGTID builds (main.go 183-192). *)
Definition staged_batch (docs : list EventDoc) (source gtid file : string) (pos : Z)
    (nanos created : Z) : StagingDoc :=
  {| st_id := mkBatchID source nanos gtid; st_events := docs; st_source := source;
     st_gtid := gtid; st_file := file; st_pos := pos;
     st_createdAt := created; st_status := pending;
     st_committedAt := None; st_archivedAt := None |}.

(** A store that fails the commit of the first transaction with an error
    that is not transient. *)
Definition commit_fails_world : World :=
  with_faults [None; None; None; None; Some (OtherError "transaction aborted")]
    empty_world.

(** A handler with one event in its batch. *)
Definition loaded_handler : Handler :=
  with_batch_position "binlog.000001" 4 "uuid:1-5" (with_batch [sample_doc] sample_handler).

(** A store that holds a position for the source of [sample_handler] and
    refuses the first call with an error that is not transient. *)
Definition stored_offset : OffsetDoc :=
  {| of_source := "mysql://127.0.0.1:3306"; of_gtid := "uuid:1-5";
     of_file := "binlog.000001"; of_pos := 4; of_updatedAt := 1 |}.

Definition offset_world : World :=
  with_offsets {[ "mysql://127.0.0.1:3306" := stored_offset ]} empty_world.

Definition unreachable_offset_world : World :=
  with_faults [Some (NetError false [] "connection refused")] offset_world.

(** A row event on a table with a composite key. *)
Definition sample_lines_event : RowsEvent :=
  {| table := {| Schema := "shop"; Name := "lines"; Columns := ["o"; "n"; "q"];
                 PKColumns := [0%nat; 1%nat] |};
     Action := InsertAction; Rows := [[VInt 7; VInt 2; VInt 5]]; Timestamp := 1765621800 |}.

(** How a handler callback leaves the batch: full after a failed commit,
    below the threshold otherwise. *)
Definition within_threshold (r : result * Handler * World) : Prop :=
  match fst (fst r) with
  | Return (Some _) => length (batch (snd (fst r))) = 100%nat
  | _ => (length (batch (snd (fst r))) < 100)%nat
  end.

(** [h'] is [h] with nothing changed but the batch and its position, and
    the position of the batch is the one it had or the last position that
    [h] has seen. *)
Definition tracks_position (h h' : Handler) : Prop :=
  source h' = source h /\ lastFile h' = lastFile h /\ lastPos h' = lastPos h /\
  lastGTID h' = lastGTID h /\ loc h' = loc h /\ tableSchemas h' = tableSchemas h /\
  ((batch h' = batch h /\ batchFile h' = batchFile h /\ batchPos h' = batchPos h /\
    batchGTID h' = batchGTID h) \/
   (batchFile h' = lastFile h /\ batchPos h' = to_uint32 (lastPos h) /\
    batchGTID h' = lastGTID h)).

(** The document [d] describes a row of the event [e]. *)
Definition describes (e : RowsEvent) (d : EventDoc) : Prop :=
  OP d = shortOP (Action e) /\ TS d = Timestamp e /\ Seq d = 0 /\
  DB (meta d) = Schema (table e) /\ Tbl (meta d) = Name (table e) /\
  exists row, row ∈ Rows e /\ PK (meta d) = pkVal e row.

(** A handler whose batch holds ninety-nine events, "e0" to "e98". *)
Definition numbered_doc (i : nat) : EventDoc :=
  {| ID := "e" +:+ pretty (Z.of_nat i); TS := TS sample_doc; OP := OP sample_doc;
     meta := {| DB := "shop"; Tbl := "orders"; PK := VInt (Z.of_nat i) |};
     Seq := 0; Chg := Chg sample_doc; src := src sample_doc;
     TSIST := TSIST sample_doc |}.

Definition nearly_full_handler : Handler :=
  with_batch (map numbered_doc (seq 0 99)) sample_handler.

(** An insert of one row into the sample table. *)
Definition sample_insert : RowsEvent :=
  {| table := sample_table; Action := InsertAction;
     Rows := [[VInt 2; VStr "c"]]; Timestamp := 1765621800 |}.

(** The store calls of one commit on a store without transactions: the
    transaction is refused and aborted, the warning is logged unless it
    was before, and the batch and the offset are written one after the
    other. *)
Definition fallback_effects (warned : bool) (batchID : string) (docs : list EventDoc)
    (source gtid file : string) (pos : Z) : list Effect :=
  ([EInsertStaging batchID; EStartSession; EBulkWrite (map ID docs); EAbortTx]
   ++ (if warned then [] else [ELog LogNoTxWarning])
   ++ [EBulkWrite (map ID docs); EUpsertOffset source gtid file pos;
       EMarkStaging batchID committed])%list.

(** * Properties *)

Example sha1_abc :
  hex_EncodeToString (sha1_Sum (bytes_of_string "abc"))
  = "a9993e364706816aba3e25717850c26c9cd0d89d".
Proof. vm_compute. reflexivity. Qed.

Example sha1_empty :
  hex_EncodeToString (sha1_Sum (bytes_of_string ""))
  = "da39a3ee5e6b4b0d3255bfef95601890afd80709".
Proof. vm_compute. reflexivity. Qed.

Example sha1_two_blocks :
  hex_EncodeToString (sha1_Sum (bytes_of_string
    "abcdbcdecdefdefgefghfghighijhijkijkljklmklmnlmnomnopnopq"))
  = "84983e441c3bd26ebaae4aa1f95129e5e54670f1".
Proof. vm_compute. reflexivity. Qed.

Example format_kolkata :
  format_datetime Kolkata 1765621800 = "2025-12-13 16:00:00".
Proof. vm_compute. reflexivity. Qed.

Example makeID_input_sample :
  makeID_input "shop" "orders" (VInt 1) 1765621800 "u" "binlog.000001" 4 "uuid:1-5"
  = "shop|orders|1|1765621800000000000|u|binlog.000001|%!d(string=uuid:1-5)%!(EXTRA uint64=4)".
Proof. vm_compute. reflexivity. Qed.

Example toS_bytes : toS (VBytes [104; 105]) = "[104 105]".
Proof. vm_compute. reflexivity. Qed.

Example pkVal_composite :
  pkVal {| table := {| Schema := "shop"; Name := "lines"; Columns := ["o"; "n"; "q"];
                       PKColumns := [0%nat; 1%nat] |};
           Action := InsertAction; Rows := []; Timestamp := 0 |}
        [VInt 7; VInt 2; VInt 5]
  = VStr "7|2".
Proof. vm_compute. reflexivity. Qed.

(** On a store that fails no call, a commit stores the batch, moves the
    offset and marks the staged batch committed. *)
Example commit_on_healthy_store :
  let '(err, w') :=
    writeBatchWithGTID Background [sample_doc] "mysql://127.0.0.1:3306" "uuid:1-5"
      "binlog.000001" 4 empty_world in
  err = None /\ events w' !! "e1" = Some sample_doc /\
  of_pos <$> offsets w' !! "mysql://127.0.0.1:3306" = Some 4 /\
  st_status <$> staging w' !! mkBatchID "mysql://127.0.0.1:3306" 0 "uuid:1-5"
    = Some committed.
Proof. vm_compute. repeat split; reflexivity. Qed.

(** Three failures with a [*mongo.CommandError] "not primary", then
    success on the fourth attempt, after sleeps of 100, 200 and 400 ms. *)
Example retry_succeeds_on_fourth_attempt :
  let fn := fun (_ : Context) (k : nat) (w : World) =>
              (if (k <? 3)%nat then Some (CommandErrorPtr 10107 [] "not primary") else None,
               S k, w) in
  let '(err, k, w') := retryWithBackoff Background fn 5 (100 * Millisecond) 0%nat
                         empty_world in
  err = None /\ k = 4%nat /\
  sleeps (trace w') = [100 * Millisecond; 200 * Millisecond; 400 * Millisecond].
Proof. vm_compute. repeat split; reflexivity. Qed.

(** The same failure as the [mongo.CommandError] value that the driver
    returns is not retried: the harness returns it after one run. *)
Example command_error_value_is_not_retried :
  let fn := fun (_ : Context) (k : nat) (w : World) =>
              (if (k <? 3)%nat then Some (CommandError 10107 [] "not primary") else None,
               S k, w) in
  let '(err, k, w') := retryWithBackoff Background fn 5 (100 * Millisecond) 0%nat
                         empty_world in
  err = Some (CommandError 10107 [] "not primary") /\ k = 1%nat /\
  sleeps (trace w') = [].
Proof. vm_compute. repeat split; reflexivity. Qed.

(** With a stored position the reader resumes from it. *)
Example startup_resumes_from_stored_position :
  let w := with_offsets
             {[ "mysql://127.0.0.1:3306" :=
                  {| of_source := "mysql://127.0.0.1:3306"; of_gtid := "uuid:1-5";
                     of_file := "binlog.000001"; of_pos := 4; of_updatedAt := 1 |} ]}
             empty_world in
  trace (snd (startup sample_canal sample_handler w))
  = [EFindPending; ECursorAll; EFindOffset true "mysql://127.0.0.1:3306";
     EParseGTIDSet "uuid:1-5"; ELog (LogResuming "uuid:1-5"); EStartFromGTID "uuid:1-5"].
Proof. vm_compute. reflexivity. Qed.

(** Case analysis on what the store answers to its next call: the fault
    script is exhausted, it holds a fault, or it lets the call through. *)
Ltac case_fault w := destruct (faults w) as [|[?e|] ?fs].

(** Unfolds a store call down to the fault script. *)
Ltac unfold_store :=
  unfold staging_InsertOne, staging_SetStatus, offsets_Upsert, StartSession,
    Now, pop_fault, log, emit; simpl.

(** ** The retry harness *)

Lemma sleeps_app (t1 t2 : list Effect) : sleeps (t1 ++ t2) = (sleeps t1 ++ sleeps t2)%list.
Proof. unfold sleeps. apply omap_app. Qed.

Lemma sleeps_log m w : sleeps (trace (log m w)) = sleeps (trace w).
Proof. unfold log, emit. simpl. rewrite sleeps_app. simpl. apply app_nil_r. Qed.

Lemma sleeps_sleep ctx d w r w' :
  sleep ctx d w = (r, w') -> sleeps (trace w') = (sleeps (trace w) ++ [d])%list.
Proof.
  unfold sleep. intros H.
  assert (Hs : sleeps (trace (emit (ESleep d) w)) = (sleeps (trace w) ++ [d])%list).
  { unfold emit. simpl. rewrite sleeps_app. reflexivity. }
  destruct ctx.
  - inversion H; subst. exact Hs.
  - simpl in H. destruct (interrupts w) as [|[c|] rest]; inversion H; subst; exact Hs.
Qed.

Lemma backoff_next (D : Z) (i : nat) :
  0 < D -> D <= 10 * Second ->
  (let d := wrap64 (backoff D i * 2) in if d >? 10 * Second then 10 * Second else d)
  = backoff D (S i).
Proof.
  intros Hpos Hle. unfold backoff.
  assert (Hp : 0 < 2 ^ Z.of_nat i) by (apply Z.pow_pos_nonneg; lia).
  assert (Hs : 2 ^ Z.of_nat (S i) = 2 * 2 ^ Z.of_nat i).
  { rewrite Nat2Z.inj_succ. rewrite Z.pow_succ_r by lia. reflexivity. }
  rewrite Hs. set (p := 2 ^ Z.of_nat i) in *.
  assert (Hd : 0 < Z.min (D * p) (10 * Second) <= 10 * Second).
  { unfold Second in *. split; [apply Z.min_glb_lt; nia | apply Z.le_min_r]. }
  set (d := Z.min (D * p) (10 * Second)) in *.
  assert (Hw : wrap64 (d * 2) = d * 2).
  { unfold wrap64. unfold Second in *.
    rewrite Z.mod_small by lia. lia. }
  cbv zeta. rewrite Hw.
  destruct (Z.gtb_spec (d * 2) (10 * Second)); subst d; unfold Second in *; nia.
Qed.

Lemma counted_eq {C : Type} (fn : Context -> C -> World -> option error * C * World)
    ctx c k w :
  counted fn ctx (c, k) w =
  (fst (fst (fn ctx c w)), (snd (fst (fn ctx c w)), S k), snd (fn ctx c w)).
Proof. unfold counted. simpl. destruct (fn ctx c w) as [[r c'] w']. reflexivity. Qed.

Lemma retry_loop_counted {C : Type}
    (fn : Context -> C -> World -> option error * C * World) ctx (N D : Z) :
  sleep_free fn -> 0 < D -> D <= 10 * Second ->
  forall (n a : nat) lastErr c k w r c' k' w',
    Z.of_nat a + Z.of_nat n = N + 1 ->
    retry_loop n ctx (counted fn) N (Z.of_nat a) (backoff D a) lastErr (c, k) w
      = (r, (c', k'), w') ->
    exists j : nat,
      (k <= k')%nat /\ (k' <= k + n)%nat /\ (j <= n - 1)%nat /\
      (j <= k' - k)%nat /\ (k' - k <= j + 1)%nat /\
      sleeps (trace w') = (sleeps (trace w) ++ map (backoff D) (seq a j))%list.
Proof.
  intros Hfree Hpos Hle. induction n as [|n IH]; intros a lastErr c k w r c' k' w' Han H.
  - simpl in H. inversion H; subst. exists 0%nat. simpl. rewrite app_nil_r.
    repeat split; lia.
  - simpl in H. rewrite counted_eq in H.
    pose proof (Hfree ctx c w) as Hfn.
    destruct (fn ctx c w) as [[r1 c1] w1]. simpl in H, Hfn.
    destruct r1 as [e|].
    2:{ inversion H; subst. exists 0%nat. simpl. rewrite app_nil_r, Hfn.
        repeat split; lia. }
    destruct (is_Canceled e || is_DeadlineExceeded e).
    { inversion H; subst. exists 0%nat. simpl. rewrite app_nil_r, Hfn.
      repeat split; lia. }
    destruct ((Z.of_nat a >=? N) || negb (isTransient e)) eqn:Hstop.
    { inversion H; subst. exists 0%nat. simpl. rewrite app_nil_r.
      repeat split; try lia.
      destruct (isTransient e); [rewrite sleeps_log|]; exact Hfn. }
    apply orb_false_iff in Hstop as [Hlt _].
    destruct (sleep ctx (backoff D a) _) as [[ce|] w2] eqn:Hsl;
      apply sleeps_sleep in Hsl; rewrite sleeps_log, Hfn in Hsl.
    { inversion H; subst. exists 1%nat. simpl.
      assert (n <> 0)%nat by lia.
      repeat split; try lia. exact Hsl. }
    pose proof (backoff_next D a Hpos Hle) as Hnext. cbv zeta in Hnext.
    rewrite Hnext in H.
    replace (Z.of_nat a + 1) with (Z.of_nat (S a)) in H by lia.
    apply IH in H; [|lia].
    destruct H as (j & H0 & H1 & H2 & H3 & H4 & H5).
    exists (S j). assert (n <> 0)%nat by lia.
    repeat split; try lia.
    rewrite H5, Hsl. simpl. rewrite <- app_assoc. reflexivity.
Qed.

Lemma retry_loop_count {C : Type}
    (fn : Context -> C -> World -> option error * C * World) ctx (N : Z) :
  forall (n : nat) attempt delay lastErr c k w,
    (k <= snd (snd (fst (retry_loop n ctx (counted fn) N attempt delay lastErr (c, k) w)))
       <= k + n)%nat.
Proof.
  induction n as [|n IH]; intros attempt delay lastErr c k w.
  - simpl. lia.
  - simpl. rewrite counted_eq. destruct (fn ctx c w) as [[[e|] c1] w1]; simpl; [|lia].
    destruct (is_Canceled e || is_DeadlineExceeded e); simpl; [lia|].
    destruct ((attempt >=? N) || negb (isTransient e)); simpl; [lia|].
    destruct (sleep ctx delay _) as [[ce|] w2]; simpl; [lia|].
    specialize (IH (attempt + 1)
      (if wrap64 (delay * 2) >? 10 * Second then 10 * Second else wrap64 (delay * 2))
      (Some e) c1 (S k) w2).
    lia.
Qed.

Lemma retry_loop_returns_at_once {C : Type}
    (fn : Context -> C -> World -> option error * C * World) ctx (N : Z)
    (n : nat) attempt delay lastErr c w e c1 w1 :
  fn ctx c w = (Some e, c1, w1) ->
  is_Canceled e || is_DeadlineExceeded e = true \/ isTransient e = false ->
  retry_loop (S n) ctx fn N attempt delay lastErr c w = (Some e, c1, w1).
Proof.
  intros Hfn Hcls. simpl. rewrite Hfn.
  destruct (is_Canceled e || is_DeadlineExceeded e) eqn:Hc; [reflexivity|].
  destruct Hcls as [Hcls|Hcls]; [discriminate|].
  rewrite Hcls. simpl. rewrite orb_true_r. reflexivity.
Qed.

(** C6 (as amended).  Write N' for the attempt count and D' for the
    initial delay after the defaults are applied (a non-positive N becomes
    5, a non-positive D0 becomes 100 ms).  Whatever the operation does, it
    is executed at most N'+1 times.  If it issues no sleep of its own and
    D' is at most 10 s, the harness sleeps min(D' * 2^i, 10 s) before
    retry i+1, at most N' times, each sleep following an execution.  In
    every iteration, an attempt that fails with a cancelled or expired
    context, or with a non-transient error, ends the harness with that
    error in the state the attempt left, with no log, sleep or further
    attempt. *)
Theorem retryWithBackoff_bounded_backoff {C : Type}
    (fn : Context -> C -> World -> option error * C * World)
    (ctx : Context) (N D0 : Z) (c : C) (w : World) :
  let run := retryWithBackoff ctx (counted fn) N D0 (c, 0%nat) w in
  let k := snd (snd (fst run)) in
  Z.of_nat k <= effective_retries N + 1 /\
  (sleep_free fn -> effective_delay D0 <= 10 * Second ->
   exists j : nat,
     sleeps (trace (snd run))
       = (sleeps (trace w) ++ map (backoff (effective_delay D0)) (seq 0 j))%list /\
     Z.of_nat j <= effective_retries N /\ (j <= k)%nat /\ (k <= j + 1)%nat) /\
  (forall n attempt delay lastErr c0 w0 e c1 w1,
     fn ctx c0 w0 = (Some e, c1, w1) ->
     is_Canceled e || is_DeadlineExceeded e = true ->
     retry_loop (S n) ctx fn N attempt delay lastErr c0 w0 = (Some e, c1, w1)) /\
  (forall n attempt delay lastErr c0 w0 e c1 w1,
     fn ctx c0 w0 = (Some e, c1, w1) ->
     isTransient e = false ->
     retry_loop (S n) ctx fn N attempt delay lastErr c0 w0 = (Some e, c1, w1)).
Proof.
  intros run k.
  assert (HN : 0 < effective_retries N).
  { unfold effective_retries. destruct (Z.leb_spec N 0); lia. }
  assert (HD : 0 < effective_delay D0).
  { unfold effective_delay, Millisecond. destruct (Z.leb_spec D0 0); lia. }
  repeat split.
  - subst k run. unfold retryWithBackoff. fold (effective_retries N).
    fold (effective_delay D0).
    pose proof (retry_loop_count fn ctx (effective_retries N)
                  (Z.to_nat (effective_retries N + 1)) 0 (effective_delay D0) None c 0%nat w).
    lia.
  - intros Hfree Hle. subst k run. unfold retryWithBackoff.
    fold (effective_retries N). fold (effective_delay D0).
    destruct (retry_loop _ ctx (counted fn) _ 0 _ None (c, 0%nat) w)
      as [[r [c' k']] w'] eqn:Hrun.
    assert (Hb : effective_delay D0 = backoff (effective_delay D0) 0).
    { unfold backoff. simpl. lia. }
    rewrite Hb in Hrun at 1.
    change 0 with (Z.of_nat 0) in Hrun.
    apply (retry_loop_counted fn ctx (effective_retries N) (effective_delay D0)
             Hfree HD Hle) in Hrun; [|lia].
    destruct Hrun as (j & H0 & H1 & H2 & H3 & H4 & H5).
    exists j. simpl. repeat split; try lia. exact H5.
  - intros. apply retry_loop_returns_at_once; auto.
  - intros. apply retry_loop_returns_at_once; auto.
Qed.

Lemma sleep_free_always_transient : sleep_free always_transient.
Proof. intros ctx c w. reflexivity. Qed.

(** With N = 3 and the default delay, an operation that keeps failing with
    a transient error runs at most four times, behind sleeps that follow
    100 ms, 200 ms, 400 ms; an attempt that reports a cancelled context
    ends the harness at once. *)
Lemma retryWithBackoff_bounded_backoff_witness :
  let run := retryWithBackoff Background (counted always_transient) 3 0 (tt, 0%nat)
               empty_world in
  Z.of_nat (snd (snd (fst run))) <= 4 /\
  (exists j : nat,
     sleeps (trace (snd run)) = map (backoff (100 * Millisecond)) (seq 0 j) /\
     Z.of_nat j <= 3) /\
  retry_loop 1 Background (fun _ c w => (Some (Wrapf "op" ContextCanceled), c, w))
    3 0 (100 * Millisecond) None tt empty_world
  = (Some (Wrapf "op" ContextCanceled), tt, empty_world).
Proof.
  pose proof (retryWithBackoff_bounded_backoff always_transient Background 3 0 tt
                empty_world) as H.
  cbv zeta in H. destruct H as (Hk & Hs & _ & _).
  destruct (Hs sleep_free_always_transient ltac:(vm_compute; discriminate))
    as (j & Hj & Hle & _).
  pose proof (retryWithBackoff_bounded_backoff
                (fun (_ : Context) (c : unit) (w : World) =>
                   (Some (Wrapf "op" ContextCanceled), c, w))
                Background 3 0 tt empty_world) as H'.
  cbv zeta in H'. destruct H' as (_ & _ & Hc & _).
  split; [exact Hk|]. split.
  - exists j. split; [exact Hj|exact Hle].
  - apply Hc; reflexivity.
Defined.

(** C6 as stated fails on the code.  Asked for N = 0, the harness runs an
    operation that keeps failing six times, not once; asked for an initial
    delay of 20 s, its first sleep lasts 20 s, whereas
    min(20 s * 2^0, 10 s) is 10 s. *)
Lemma retryWithBackoff_as_stated_fails :
  snd (snd (fst (retryWithBackoff Background (counted always_transient) 0
                   (100 * Millisecond) (tt, 0%nat) empty_world))) = 6%nat /\
  sleeps (trace (snd (retryWithBackoff Background (counted always_transient) 1
                        (20 * Second) (tt, 0%nat) empty_world))) = [20 * Second] /\
  backoff (20 * Second) 0 = 10 * Second.
Proof. vm_compute. repeat split; reflexivity. Qed.

(** ** The commit and its retries *)

(** C1, evaluated on the code.  A one-event batch is committed to a store
    that accepts the staging insert and the session and then loses its
    connection: the bulk write of Phase 2 fails with a temporary network
    error that carries the label TransientTransactionError.  The driver
    aborts the transaction and runs the callback again, with the same
    result, and returns the error once the time of the transaction is
    over.  The error is transient for retryWithBackoff, which sleeps
    100 ms and runs the unit again.  The retry stages under the same batch
    id as the first attempt, its staging insert is refused as a duplicate
    key, and the commit fails with that error after two attempts: nothing
    reaches the events collection, the offset does not move and the staged
    batch stays pending. *)
Theorem writeBatchWithGTID_retry_restages_same_id :
  let '(err, w') :=
    writeBatchWithGTID Background [sample_doc] "mysql://127.0.0.1:3306" "uuid:1-5"
      "binlog.000001" 4 transient_phase2_world in
  let batchID := mkBatchID "mysql://127.0.0.1:3306" 0 "uuid:1-5" in
  err = Some (Wrapf "staging insert" (WriteException [11000] [] dup_key_msg)) /\
  staged_ids (trace w') = [batchID; batchID] /\
  sleeps (trace w') = [100 * Millisecond] /\
  events w' = ∅ /\ offsets w' = ∅ /\
  st_status <$> staging w' !! batchID = Some pending /\
  trace w' = [EInsertStaging batchID; EStartSession;
              EBulkWrite ["e1"]; EAbortTx; EBulkWrite ["e1"]; EAbortTx;
              ELog (LogTransient 1 5 (100 * Millisecond) connection_lost);
              ESleep (100 * Millisecond); EInsertStaging batchID].
Proof. vm_compute. repeat split; reflexivity. Qed.

Lemma staging_log m w : staging (log m w) = staging w.
Proof. reflexivity. Qed.

Lemma staging_sleep ctx d w : staging (snd (sleep ctx d w)) = staging w.
Proof.
  unfold sleep. destruct ctx; simpl; [reflexivity|].
  destruct (interrupts w) as [|[c|] rest]; reflexivity.
Qed.

Lemma staging_pop_fault w : staging (snd (pop_fault w)) = staging w.
Proof. unfold pop_fault. case_fault w; reflexivity. Qed.

(** Once a document with the batch id is in the staging collection, an
    attempt of the commit can only fail at its staging insert. *)
Lemma commitAttempt_fails_once_staged batchID stagingDoc docs source gtid file pos ctx w :
  is_Some (staging w !! st_id stagingDoc) ->
  exists e w',
    commitAttempt batchID stagingDoc docs source gtid file pos ctx tt w
      = (Some (Wrapf "staging insert" e), tt, w') /\
    staging w' = staging w.
Proof.
  intros [d Hd]. unfold commitAttempt, staging_InsertOne.
  pose proof (staging_pop_fault (emit (EInsertStaging (st_id stagingDoc)) w)) as Hp.
  destruct (pop_fault _) as [[f|] w1]; simpl in Hp.
  - eauto.
  - rewrite Hp. change (staging (emit (EInsertStaging (st_id stagingDoc)) w)) with (staging w).
    rewrite Hd. eauto.
Qed.

Lemma retry_loop_never_succeeds batchID stagingDoc docs source gtid file pos ctx N :
  forall n attempt delay lastErr w,
    is_Some (staging w !! st_id stagingDoc) ->
    lastErr <> None \/ n <> O ->
    fst (fst (retry_loop n ctx
                (commitAttempt batchID stagingDoc docs source gtid file pos)
                N attempt delay lastErr tt w)) <> None.
Proof.
  induction n as [|n IH]; intros attempt delay lastErr w Hst Hne.
  - simpl. destruct Hne; congruence.
  - simpl.
    destruct (commitAttempt_fails_once_staged batchID stagingDoc docs source gtid
                file pos ctx w Hst) as (e & w1 & -> & Hw1).
    set (e' := Wrapf "staging insert" e).
    destruct (is_Canceled e' || is_DeadlineExceeded e'); [simpl; congruence|].
    destruct ((attempt >=? N) || negb (isTransient e')); [simpl; congruence|].
    pose proof (staging_sleep ctx delay
                  (log (LogTransient (attempt + 1) N delay e') w1)) as Hsl.
    destruct (sleep ctx delay _) as [[ce|] w2]; [simpl; congruence|].
    simpl in Hsl. apply IH; [|left; congruence].
    rewrite Hsl. rewrite ?staging_log. rewrite Hw1. exact Hst.
Qed.

Lemma retry_loop_S {C : Type} (n : nat) ctx
    (fn : Context -> C -> World -> option error * C * World)
    (N attempt delay : Z) lastErr c w :
  retry_loop (S n) ctx fn N attempt delay lastErr c w =
  let '(err, c, w) := fn ctx c w in
  match err with
  | None => (None, c, w)
  | Some e =>
      if is_Canceled e || is_DeadlineExceeded e then (Some e, c, w)
      else
        if (attempt >=? N) || negb (isTransient e) then
          (Some e, c, if isTransient e then log (LogMaxRetries e) w else w)
        else
          match sleep ctx delay (log (LogTransient (attempt + 1) N delay e) w) with
          | (Some ce, w) => (Some ce, c, w)
          | (None, w) =>
              retry_loop n ctx fn N (attempt + 1)
                (if wrap64 (delay * 2) >? 10 * Second then 10 * Second
                 else wrap64 (delay * 2)) (Some e) c w
          end
  end.
Proof. reflexivity. Qed.

Lemma writeBatchWithGTID_nonempty ctx docs source gtid file pos w :
  docs <> [] ->
  writeBatchWithGTID ctx docs source gtid file pos w =
  let batchID := mkBatchID source (clock w) gtid in
  let stagingDoc :=
    {| st_id := batchID; st_events := docs; st_source := source; st_gtid := gtid;
       st_file := file; st_pos := pos; st_createdAt := fst (Now (snd (Now w)));
       st_status := pending; st_committedAt := None; st_archivedAt := None |} in
  let run := retryWithBackoff ctx
               (commitAttempt batchID stagingDoc docs source gtid file pos)
               5 (100 * Millisecond) tt (snd (Now (snd (Now w)))) in
  (fst (fst run), snd run).
Proof.
  intros Hdocs. unfold writeBatchWithGTID. destruct docs as [|d0 docs']; [congruence|].
  unfold Now. cbv beta iota zeta.
  destruct (retryWithBackoff ctx _ 5 (100 * Millisecond) tt _) as [[r0 u] w'].
  reflexivity.
Qed.

(** In general: when the first attempt of a commit fails after its staging
    insert went through, whatever the error and whatever the store does
    next, no retry can succeed and the commit returns an error. *)
Lemma writeBatchWithGTID_fails_after_staged_attempt ctx docs source gtid file pos w :
  docs <> [] ->
  let batchID := mkBatchID source (clock w) gtid in
  let w0 := snd (Now (snd (Now w))) in
  let stagingDoc :=
    {| st_id := batchID; st_events := docs; st_source := source; st_gtid := gtid;
       st_file := file; st_pos := pos; st_createdAt := fst (Now (snd (Now w)));
       st_status := pending; st_committedAt := None; st_archivedAt := None |} in
  forall e w1,
    commitAttempt batchID stagingDoc docs source gtid file pos ctx tt w0
      = (Some e, tt, w1) ->
    is_Some (staging w1 !! batchID) ->
    fst (writeBatchWithGTID ctx docs source gtid file pos w) <> None.
Proof.
  intros Hdocs batchID w0 stagingDoc e w1 Hfirst Hst.
  rewrite writeBatchWithGTID_nonempty by exact Hdocs.
  cbv zeta. fold batchID. fold stagingDoc. fold w0. simpl fst at 1.
  unfold retryWithBackoff.
  change (Z.to_nat _) with 6%nat. cbv beta iota zeta.
  change (if 5 <=? 0 then 5 else 5) with 5.
  change (if 100 * Millisecond <=? 0 then 100 * Millisecond else 100 * Millisecond)
    with (100 * Millisecond).
  rewrite retry_loop_S, Hfirst.
  destruct (is_Canceled e || is_DeadlineExceeded e); [simpl; congruence|].
  change (0 >=? 5) with false. rewrite orb_false_l.
  destruct (negb (isTransient e)); [simpl; congruence|].
  change (0 + 1) with 1.
  pose proof (staging_sleep ctx (100 * Millisecond)
                (log (LogTransient 1 5 (100 * Millisecond) e) w1)) as Hsl.
  destruct (sleep ctx (100 * Millisecond) _) as [[ce|] w2]; [simpl; congruence|].
  simpl in Hsl.
  apply (retry_loop_never_succeeds batchID stagingDoc docs source gtid file pos).
  - rewrite Hsl. rewrite ?staging_log. exact Hst.
  - left. congruence.
Qed.

(** ** The transaction loop of the driver *)

(** A relation between the world before and the world after that the
    callback and every step of the loop satisfy is satisfied by
    [WithTransaction]. *)
Section TxLoop.
Variable R : World -> World -> Prop.
Variable body : World -> option error * World.
Hypothesis R_trans : forall w1 w2 w3, R w1 w2 -> R w2 w3 -> R w1 w3.
Hypothesis R_body : forall w, R w (snd (body w)).
Hypothesis R_abort : forall w w1, R w w1 -> R w (emit EAbortTx (rollback w w1)).
Hypothesis R_rollback : forall w w1, R w w1 -> R w (rollback w w1).
Hypothesis R_commit : forall w, R w (snd (pop_fault (emit ECommitTx w))).
Hypothesis R_timer : forall rest w, R w (with_txTimer rest w).

Lemma tx_loop_preserves :
  forall timer resume w,
    match resume with Some w1 => R w w1 | None => True end ->
    R w (snd (tx_loop timer resume body w)).
Proof.
  induction timer as [|fired rest IH]; intros resume w Hres.
  - cbn [tx_loop].
    assert (Hrun : R w (snd (match resume with
                             | Some w1 => (None, w1)
                             | None => body w
                             end))) by (destruct resume; [exact Hres|apply R_body]).
    destruct (match resume with Some w1 => (None, w1) | None => body w end)
      as [[e|] w1]; simpl in Hrun.
    + apply R_abort, Hrun.
    + pose proof (R_commit w1) as Hc.
      destruct (pop_fault (emit ECommitTx w1)) as [[e|] w2]; simpl in *; eauto.
  - cbn [tx_loop].
    assert (Hrun : R w (snd (match resume with
                             | Some w1 => (None, w1)
                             | None => body w
                             end))) by (destruct resume; [exact Hres|apply R_body]).
    destruct (match resume with Some w1 => (None, w1) | None => body w end)
      as [[e|] w1]; simpl in Hrun.
    + assert (H2 : R w (with_txTimer rest (emit EAbortTx (rollback w w1)))) by eauto.
      destruct fired; [exact H2|].
      destruct (has_label TransientTransactionError e); [|exact H2].
      eapply R_trans; [exact H2|]. apply IH. exact I.
    + pose proof (R_commit w1) as Hc.
      destruct (pop_fault (emit ECommitTx w1)) as [[e|] w2]; simpl in *; [|eauto].
      assert (H3 : R w (with_txTimer rest w2)) by eauto.
      destruct fired; [apply R_rollback, H3|].
      destruct (after_failed_commit e).
      * apply IH. exact H3.
      * eapply R_trans; [apply R_rollback, H3|]. apply IH. exact I.
      * apply R_rollback, H3.
Qed.

Lemma WithTransaction_preserves w : R w (snd (WithTransaction body w)).
Proof. unfold WithTransaction. apply tx_loop_preserves. exact I. Qed.
End TxLoop.

(** A callback that fails with an error without the label
    TransientTransactionError is run once: the transaction is aborted and
    the error returned. *)
Lemma WithTransaction_fails body w e w1 :
  body w = (Some e, w1) -> has_label TransientTransactionError e = false ->
  exists w',
    WithTransaction body w = (Some e, w') /\
    events w' = events w /\ offsets w' = offsets w /\ staging w' = staging w1 /\
    faults w' = faults w1 /\ noTxWarningLogged w' = noTxWarningLogged w1 /\
    trace w' = (trace w1 ++ [EAbortTx])%list.
Proof.
  intros Hb Hl. unfold WithTransaction.
  destruct (txTimer w) as [|[|] rest]; cbn [tx_loop]; rewrite Hb, ?Hl;
    eexists; (split; [reflexivity|]); simpl; auto 10.
Qed.

(** A callback that succeeds and whose commit the store lets through is
    run once. *)
Lemma WithTransaction_commits body w w1 w2 :
  body w = (None, w1) -> pop_fault (emit ECommitTx w1) = (None, w2) ->
  WithTransaction body w = (None, w2).
Proof.
  intros Hb Hc. unfold WithTransaction.
  destruct (txTimer w) as [|fired rest]; cbn [tx_loop]; rewrite Hb, Hc; reflexivity.
Qed.

(** ** Duplicate event ids in the bulk insert *)

Lemma pop_fault_no_fault w :
  no_fault_in_next 1 w -> fst (pop_fault w) = None.
Proof.
  unfold no_fault_in_next, pop_fault. destruct (faults w) as [|[f|] fs]; simpl; auto.
  intros H. inversion H; subst. discriminate.
Qed.

Lemma bulk_insert_one_cases m errs (x : EventDoc) :
  bulk_insert_one (m, errs) x = (m, (errs ++ [11000])%list) /\ is_Some (m !! ID x) \/
  m !! ID x = None /\ bulk_insert_one (m, errs) x = (<[ID x := x]> m, errs).
Proof. unfold bulk_insert_one. destruct (m !! ID x); eauto. Qed.

(** The write errors of an unordered bulk insert are duplicate keys, one
    more for every document whose id is taken when its turn comes. *)
Lemma foldl_bulk_insert_errs (docs : list EventDoc) :
  forall m errs,
    exists more,
      snd (foldl bulk_insert_one (m, errs) docs) = (errs ++ more)%list /\
      Forall (fun c => c = 11000) more /\
      ((exists d, d ∈ docs /\ is_Some (m !! ID d)) -> more <> []).
Proof.
  induction docs as [|x docs IH]; intros m errs; cbn [foldl].
  - exists []. rewrite app_nil_r. split; [reflexivity|]. split; [constructor|].
    intros (d & Hd & _). apply elem_of_nil in Hd. contradiction.
  - destruct (bulk_insert_one_cases m errs x) as [[Hc Hx]|[Hx Hc]]; rewrite Hc.
    + destruct (IH m (errs ++ [11000])%list) as (more & Hs & Hall & _).
      exists (11000 :: more). rewrite Hs, <- app_assoc. split; [reflexivity|].
      split; [constructor; [reflexivity|exact Hall]|]. discriminate.
    + destruct (IH (<[ID x := x]> m) errs) as (more & Hs & Hall & Hne).
      exists more. split; [exact Hs|]. split; [exact Hall|].
      intros (d & Hd & Hin). apply Hne.
      apply elem_of_cons in Hd as [->|Hd].
      * destruct Hin as [y Hy]. congruence.
      * exists d. split; [exact Hd|].
        destruct (decide (ID x = ID d)) as [Heq|Hneq].
        -- rewrite Heq, lookup_insert_eq. eauto.
        -- rewrite lookup_insert_ne by exact Hneq. exact Hin.
Qed.

(** What the driver returns for a bulk insert that meets a taken id on a
    store that does not fail the call: a bulk-write exception by value,
    all of whose write errors are duplicate keys. *)
Lemma events_BulkWrite_duplicates docs w :
  no_fault_in_next 1 w ->
  (exists d, d ∈ docs /\ is_Some (events w !! ID d)) ->
  exists errs,
    errs <> [] /\ Forall (fun c => c = 11000) errs /\
    fst (events_BulkWrite docs w)
    = Some (BulkWriteException None errs [] "bulk write exception").
Proof.
  intros Hnf Hdup. unfold events_BulkWrite.
  pose proof (pop_fault_no_fault (emit (EBulkWrite (map ID docs)) w) Hnf) as Hp.
  destruct (pop_fault (emit (EBulkWrite (map ID docs)) w)) as [f w1] eqn:Hpop.
  simpl in Hp. subst f.
  assert (He : events w1 = events w).
  { unfold pop_fault in Hpop. simpl in Hpop.
    destruct (faults w); inversion Hpop; reflexivity. }
  rewrite He.
  destruct (foldl_bulk_insert_errs docs (events w) []) as (more & Hs & Hall & Hne).
  destruct (foldl bulk_insert_one (events w, []) docs) as [m errs]. simpl in Hs.
  subst errs. specialize (Hne Hdup). exists more.
  destruct more as [|c more]; [congruence|]. auto.
Qed.

(** What the three writers do with a bulk-write exception returned by
    value: they return it, whatever its write errors. *)
Lemma bulk_exception_is_returned docs source gtid file pos w w1 wce ws ls msg :
  events_BulkWrite docs w = (Some (BulkWriteException wce ws ls msg), w1) ->
  txBody docs source gtid file pos w = (Some (BulkWriteException wce ws ls msg), w1) /\
  writeBatchWithoutTransaction docs source gtid file pos w
  = (Some (Wrapf "bulk write events" (BulkWriteException wce ws ls msg)), w1) /\
  (docs <> [] -> writeBatch docs w = (Some (BulkWriteException wce ws ls msg), w1)).
Proof.
  intros Hb. unfold txBody, writeBatchWithoutTransaction, writeBatch. rewrite Hb.
  repeat split. intros Hd. destruct docs; [congruence|reflexivity].
Qed.

(** C2, evaluated on the code.  Let a batch be bulk-inserted into a store
    that does not fail the call and that holds a document under one of the
    ids of the batch.  The driver returns a bulk-write exception, by
    value, all of whose write errors have code 11000.  The exception is
    not absorbed: the transaction body returns it and the transaction is
    aborted with it, the non-transactional fallback returns it wrapped,
    writeBatch returns it, and in each case no offset upsert is issued, so
    that the commit fails and the offset record does not move. *)
Theorem bulk_insert_duplicates_fail_the_commit
    (docs : list EventDoc) (source gtid file : string) (pos : Z) (w : World) :
  no_fault_in_next 1 w ->
  (exists d, d ∈ docs /\ is_Some (events w !! ID d)) ->
  exists errs w1,
    errs <> [] /\ Forall (fun c => c = 11000) errs /\
    let e := BulkWriteException None errs [] "bulk write exception" in
    events_BulkWrite docs w = (Some e, w1) /\
    as_BulkWriteException e = None /\
    txBody docs source gtid file pos w = (Some e, w1) /\
    writeBatchWithoutTransaction docs source gtid file pos w
    = (Some (Wrapf "bulk write events" e), w1) /\
    writeBatch docs w = (Some e, w1) /\
    offsets w1 = offsets w /\
    forall w0, StartSession w0 = (None, w) ->
      exists w',
        writeBatchWithTransaction docs source gtid file pos w0 = (Some e, w') /\
        events w' = events w /\ offsets w' = offsets w /\
        trace w' = (trace w ++ [EBulkWrite (map ID docs); EAbortTx])%list.
Proof.
  intros Hnf Hdup.
  destruct (events_BulkWrite_duplicates docs w Hnf Hdup) as (errs & Hne & Hall & He).
  destruct (events_BulkWrite docs w) as [r w1] eqn:Hb. simpl in He. subst r.
  exists errs, w1. cbv zeta.
  destruct (bulk_exception_is_returned docs source gtid file pos w w1 _ _ _ _ Hb)
    as (Htx & Hfb & Hwb).
  assert (Ho : offsets w1 = offsets w /\
               trace w1 = (trace w ++ [EBulkWrite (map ID docs)])%list).
  { revert Hb. unfold events_BulkWrite, pop_fault. simpl.
    case_fault w; simpl;
      try (destruct (foldl bulk_insert_one (events w, []) docs) as [m [|c es]]);
      intros H; inversion H; subst; auto. }
  destruct Ho as [Ho Ht].
  split; [exact Hne|]. split; [exact Hall|]. split; [reflexivity|].
  split; [reflexivity|]. split; [exact Htx|]. split; [exact Hfb|]. split.
  { apply Hwb. destruct Hdup as (d & Hd & _). intros ->.
    apply elem_of_nil in Hd. contradiction. }
  split; [exact Ho|].
  intros w0 Hs. unfold writeBatchWithTransaction. rewrite Hs.
  destruct (WithTransaction_fails _ w _ w1 Htx eq_refl)
    as (w' & Hrun & Hev & Hof & _ & _ & _ & Htr).
  exists w'. rewrite Hrun, Hev, Hof, Htr, Ht, <- app_assoc. auto.
Qed.

(** Replaying [sample_doc] into a store that holds it: the transactional
    write returns the duplicate-key exception and the offsets collection
    stays empty. *)
Lemma bulk_insert_duplicates_fail_the_commit_witness :
  exists w',
    writeBatchWithTransaction [sample_doc] "mysql://127.0.0.1:3306" "uuid:1-5"
      "binlog.000001" 4 replay_world
    = (Some (BulkWriteException None [11000] [] "bulk write exception"), w') /\
    offsets w' = ∅.
Proof.
  destruct (bulk_insert_duplicates_fail_the_commit [sample_doc]
              "mysql://127.0.0.1:3306" "uuid:1-5" "binlog.000001" 4
              (snd (StartSession replay_world)))
    as (errs & w1 & _ & _ & Hb & _ & _ & _ & _ & _ & Htx).
  - constructor.
  - exists sample_doc. split; [apply list_elem_of_here|]. exists sample_doc. reflexivity.
  - cbv zeta in Hb. vm_compute in Hb. inversion Hb; subst errs w1.
    destruct (Htx replay_world eq_refl) as (w' & Hrun & _ & Hof & _).
    exists w'. split; [exact Hrun|exact Hof].
Defined.

(** ** Start-up *)

Lemma startReader_starts c h w :
  (forall s, exists g, ParseGTIDSet c s = inr g) ->
  (exists g, GetMasterGTIDSet c = inr g) ->
  reader_started (trace (snd (startReader c h w))).
Proof.
  intros Hparse [g0 Hmaster]. unfold startReader, reader_started.
  destruct (loadGTID Background (source h) w) as [[[gtidStr ok] err] w1].
  destruct (ok && negb (bool_decide (gtidStr = ""))).
  - destruct (Hparse gtidStr) as [g ->]. exists g. simpl.
    apply elem_of_app. right. apply list_elem_of_singleton. reflexivity.
  - rewrite Hmaster. exists g0. simpl.
    apply elem_of_app. right. apply list_elem_of_singleton. reflexivity.
Qed.

(** C3 (as amended).  When Recovery fails at start-up, its error is logged
    as a warning and start-up goes on from the state Recovery left: the
    stored position is loaded and, unless parsing it or asking the source
    for its current position fails, the reader is started. *)
Theorem startup_continues_after_failed_recovery
    (c : Canal) (h : Handler) (w w1 : World) (e : error) :
  RecoverPendingBatches w = (Some e, w1) ->
  startup c h w = startReader c h (log (LogRecoverWarning e) w1) /\
  ((forall s, exists g, ParseGTIDSet c s = inr g) ->
   (exists g, GetMasterGTIDSet c = inr g) ->
   reader_started (trace (snd (startup c h w)))).
Proof.
  intros Hrec.
  assert (Heq : startup c h w = startReader c h (log (LogRecoverWarning e) w1)).
  { unfold startup. rewrite Hrec. reflexivity. }
  split; [exact Heq|].
  intros Hparse Hmaster. rewrite Heq. apply startReader_starts; assumption.
Qed.

Lemma startup_continues_after_failed_recovery_witness :
  reader_started (trace (snd (startup sample_canal sample_handler find_fails_world))).
Proof.
  refine (proj2 (startup_continues_after_failed_recovery sample_canal sample_handler
                   find_fails_world
                   (snd (RecoverPendingBatches find_fails_world))
                   (Wrapf "find pending batches" (NetError false [] "connection refused"))
                   eq_refl) _ _).
  - intros s. exists s. reflexivity.
  - exists "uuid:1-9". reflexivity.
Defined.

(** C3 as stated fails on the code: with a store that fails the query for
    pending batches, Recovery returns an error, and the start-up sequence
    still asks the source for its position and starts the reader there. *)
Lemma startup_starts_reader_after_failed_recovery :
  fst (RecoverPendingBatches find_fails_world)
    = Some (Wrapf "find pending batches" (NetError false [] "connection refused")) /\
  EStartFromGTID "uuid:1-9"
    ∈ trace (snd (startup sample_canal sample_handler find_fails_world)).
Proof.
  split; [reflexivity|]. vm_compute.
  repeat (first [apply list_elem_of_here | apply list_elem_of_further]).
Qed.

(** ** Recovery *)

Lemma archive_one_frame w d :
  events (archive_one w d) = events w /\
  offsets (archive_one w d) = offsets w /\
  trace (archive_one w d)
    = (trace w ++ [ELog (LogRecovering (st_id d)); EMarkStaging (st_id d) archived])%list.
Proof.
  unfold archive_one. unfold_store. case_fault w; simpl; rewrite <- app_assoc; auto.
Qed.

Lemma archive_one_staging w d :
  staging (archive_one w d) = staging w \/
  staging (archive_one w d)
    = alter (set_status archived (clock w)) (st_id d) (staging w).
Proof.
  unfold archive_one. unfold_store. case_fault w; simpl; auto.
Qed.

Lemma archive_one_no_faults w d :
  no_faults w ->
  no_faults (archive_one w d) /\
  staging (archive_one w d)
    = alter (set_status archived (clock w)) (st_id d) (staging w).
Proof.
  unfold no_faults, archive_one, staging_SetStatus, Now, pop_fault, log, emit. simpl.
  intros H. destruct (faults w) as [|[f|] fs] eqn:Hf; simpl; rewrite ?Hf; auto;
    inversion H; subst; try discriminate; auto.
Qed.

Lemma foldl_archive_frame l : forall w,
  events (foldl archive_one w l) = events w /\
  offsets (foldl archive_one w l) = offsets w /\
  trace (foldl archive_one w l)
    = (trace w ++ flat_map (fun d => [ELog (LogRecovering (st_id d));
                                      EMarkStaging (st_id d) archived]) l)%list.
Proof.
  induction l as [|d l IH]; intros w; simpl.
  - rewrite app_nil_r. auto.
  - destruct (IH (archive_one w d)) as (He & Ho & Ht).
    destruct (archive_one_frame w d) as (He1 & Ho1 & Ht1).
    rewrite He, Ho, Ht, He1, Ho1, Ht1, <- app_assoc. auto.
Qed.

Lemma set_status_archived_of t d : is_archived_of d (set_status archived t d).
Proof. unfold is_archived_of, set_status. simpl. eauto. Qed.

Lemma set_status_keeps_archived t d d' :
  is_archived_of d d' -> is_archived_of d (set_status archived t d').
Proof.
  intros (H1 & H2 & H3 & H4). unfold is_archived_of, set_status. simpl. eauto.
Qed.

Lemma foldl_archive_keeps l : forall w k d d',
  staging w !! k = Some d' -> is_archived_of d d' ->
  exists d'', staging (foldl archive_one w l) !! k = Some d'' /\ is_archived_of d d''.
Proof.
  induction l as [|a l IH]; intros w k d d' Hk Har; simpl.
  - eauto.
  - destruct (archive_one_staging w a) as [Hs|Hs].
    + apply (IH _ k d d'); [rewrite Hs; exact Hk | exact Har].
    + destruct (decide (st_id a = k)) as [<-|Hne].
      * apply (IH _ (st_id a) d (set_status archived (clock w) d')).
        -- rewrite Hs, lookup_alter_eq, Hk. reflexivity.
        -- apply set_status_keeps_archived, Har.
      * apply (IH _ k d d'); [|exact Har].
        rewrite Hs, lookup_alter_ne by exact Hne. exact Hk.
Qed.

Lemma foldl_archive_archives l : forall w k d,
  no_faults w -> staging w !! k = Some d -> k ∈ map st_id l ->
  exists d', staging (foldl archive_one w l) !! k = Some d' /\ is_archived_of d d'.
Proof.
  induction l as [|a l IH]; intros w k d Hnf Hk Hin; simpl in *.
  - apply elem_of_nil in Hin. contradiction.
  - destruct (archive_one_no_faults w a Hnf) as [Hnf' Hs].
    destruct (decide (st_id a = k)) as [<-|Hne].
    + apply (foldl_archive_keeps l _ (st_id a) d (set_status archived (clock w) d)).
      * rewrite Hs, lookup_alter_eq, Hk. reflexivity.
      * apply set_status_archived_of.
    + apply elem_of_cons in Hin as [Heq|Hin]; [congruence|].
      apply IH; auto. rewrite Hs, lookup_alter_ne by exact Hne. exact Hk.
Qed.

Lemma pending_docs_elem w k d :
  staging w !! k = Some d -> st_status d = pending -> d ∈ pending_docs w.
Proof.
  intros Hk Hp. unfold pending_docs. apply list_elem_of_filter. split; [exact Hp|].
  apply list_elem_of_In, in_map_iff. exists (k, d). split; [reflexivity|].
  apply list_elem_of_In, elem_of_map_to_list, Hk.
Qed.

(** The three ways Recovery can end, by what the store answers to the
    query and to the decoding of its cursor. *)
Lemma RecoverPendingBatches_cases w :
  let found := pending_docs w in
  (exists e fs, faults w = Some e :: fs /\
     RecoverPendingBatches w
       = (Some (Wrapf "find pending batches" e), with_faults fs (emit EFindPending w))) \/
  (exists e fs, faults w = None :: Some e :: fs /\
     RecoverPendingBatches w
       = (Some (Wrapf "decode pending batches" e),
          with_faults fs (emit ECursorAll (emit EFindPending w)))) \/
  (exists w2,
     staging w2 = staging w /\ events w2 = events w /\ offsets w2 = offsets w /\
     trace w2 = (trace w ++ [EFindPending; ECursorAll])%list /\
     faults w2 = drop 2 (faults w) /\
     RecoverPendingBatches w =
       (None, match found with
              | [] => w2
              | _ => foldl archive_one (log (LogFoundPending (length found)) w2) found
              end)).
Proof.
  intros found. subst found.
  unfold RecoverPendingBatches, staging_FindPending, cursor_All, pop_fault, pending_docs.
  simpl.
  destruct (faults w) as [|[e|] fs] eqn:Hf; simpl.
  - right. right. exists (emit ECursorAll (emit EFindPending w)).
    simpl. rewrite ?Hf, <- app_assoc. simpl.
    repeat split; auto.
    destruct (filter _ _); reflexivity.
  - left. eauto.
  - destruct fs as [|[e|] fs]; simpl.
    + right. right. exists (emit ECursorAll (with_faults [] (emit EFindPending w))).
      simpl. rewrite ?Hf, <- app_assoc. simpl. repeat split; auto.
      destruct (filter _ _); reflexivity.
    + right. left. exists e, fs. split; reflexivity.
    + right. right.
      exists (with_faults fs (emit ECursorAll (with_faults (None :: fs) (emit EFindPending w)))).
      simpl. rewrite ?Hf, <- app_assoc. simpl. repeat split; auto.
      destruct (filter _ _); reflexivity.
Qed.

(** C4.  Recovery never writes to the events or offsets collections.  When
    it returns nil, what it asked of the store is exactly: the query, the
    decoding of the cursor and, for each pending document found, an update
    of that document to status archived with the time of the update.  On
    a store that fails no call and keeps its documents under their ids,
    it returns nil and every document that was pending ends archived with
    an archive time and its events untouched.  The start-up sequence
    starts the reader from the state in which Recovery returned. *)
Theorem recovery_archives_pending (c : Canal) (h : Handler) (w : World) :
  let r := RecoverPendingBatches w in
  events (snd r) = events w /\ offsets (snd r) = offsets w /\
  (fst r = None ->
     trace (snd r)
       = (trace w ++ EFindPending :: ECursorAll :: recovery_effects (pending_docs w))%list) /\
  (staging_wf w -> no_faults w ->
     fst r = None /\
     forall k d, staging w !! k = Some d -> st_status d = pending ->
       exists d', staging (snd r) !! k = Some d' /\ is_archived_of d d') /\
  startup c h w
    = startReader c h (match fst r with
                       | Some e => log (LogRecoverWarning e) (snd r)
                       | None => snd r
                       end).
Proof.
  intros r. subst r.
  assert (Hstart : startup c h w
    = startReader c h (match fst (RecoverPendingBatches w) with
                       | Some e => log (LogRecoverWarning e) (snd (RecoverPendingBatches w))
                       | None => snd (RecoverPendingBatches w)
                       end)).
  { unfold startup. destruct (RecoverPendingBatches w) as [[e|] w']; reflexivity. }
  destruct (RecoverPendingBatches_cases w)
    as [(e & fs & Hf & Hr) | [(e & fs & Hf & Hr) | (w2 & Hst & Hev & Hof & Htr & Hfl & Hr)]];
    cbv zeta in Hr.
  - rewrite Hr in *. simpl in *.
    split; [reflexivity|]. split; [reflexivity|]. split; [discriminate|].
    split; [|exact Hstart].
    intros Hwf Hnf. unfold no_faults in Hnf. rewrite Hf in Hnf.
    inversion Hnf; subst; discriminate.
  - rewrite Hr in *. simpl in *.
    split; [reflexivity|]. split; [reflexivity|]. split; [discriminate|].
    split; [|exact Hstart].
    intros Hwf Hnf. unfold no_faults in Hnf. rewrite Hf in Hnf.
    inversion Hnf as [|? ? ? Hrest]; subst; inversion Hrest; subst; discriminate.
  - rewrite Hr in *. simpl in *.
    assert (Hframe :
      let w' := match pending_docs w with
                | [] => w2
                | _ => foldl archive_one (log (LogFoundPending (length (pending_docs w))) w2)
                         (pending_docs w)
                end in
      events w' = events w /\ offsets w' = offsets w /\
      trace w' = (trace w ++ EFindPending :: ECursorAll
                    :: recovery_effects (pending_docs w))%list).
    { unfold recovery_effects. destruct (pending_docs w) as [|d0 l] eqn:Hp; cbv zeta.
      - rewrite Hev, Hof, Htr. auto.
      - destruct (foldl_archive_frame (d0 :: l)
                    (log (LogFoundPending (length (d0 :: l))) w2)) as (He & Ho & Ht).
        rewrite He, Ho, Ht. simpl. rewrite Hev, Hof, Htr, <- app_assoc. simpl.
        rewrite <- app_assoc. auto. }
    cbv zeta in Hframe. destruct Hframe as (He & Ho & Ht).
    split; [exact He|]. split; [exact Ho|]. split; [intros _; exact Ht|].
    split; [|exact Hstart].
    intros Hwf Hnf. split; [reflexivity|].
    intros k d Hk Hpend.
    pose proof (pending_docs_elem w k d Hk Hpend) as Hin.
    destruct (pending_docs w) as [|d0 l] eqn:Hp.
    { apply elem_of_nil in Hin. contradiction. }
    apply foldl_archive_archives.
    + unfold no_faults in *. simpl. rewrite Hfl. apply Forall_drop, Hnf.
    + simpl. rewrite Hst. exact Hk.
    + apply list_elem_of_In, in_map_iff. exists d. split; [apply Hwf, Hk|].
      apply list_elem_of_In, Hin.
Qed.

Lemma staging_wf_crashed_world : staging_wf crashed_world.
Proof.
  intros k d. unfold crashed_world. simpl.
  intros [<- <-]%lookup_singleton_Some. reflexivity.
Qed.

(** After a crash between staging and commit, Recovery archives the one
    pending batch. *)
Lemma recovery_archives_pending_witness :
  exists d',
    staging (snd (RecoverPendingBatches crashed_world))
      !! "mysql://127.0.0.1:3306_0_uuid:1-5" = Some d' /\
    st_status d' = archived /\ st_events d' = [sample_doc].
Proof.
  destruct (recovery_archives_pending sample_canal sample_handler crashed_world)
    as (_ & _ & _ & Harch & _).
  destruct (Harch staging_wf_crashed_world ltac:(constructor)) as [_ Hall].
  destruct (Hall "mysql://127.0.0.1:3306_0_uuid:1-5" _ eq_refl eq_refl)
    as (d' & Hd' & Hst & _ & _ & Hev).
  exists d'. split; [exact Hd'|]. split; [exact Hst|]. exact Hev.
Defined.

(** ** Documents added to the events collection *)

(** *** Which documents a commit can add *)

Lemma events_from_refl docs w : events_from docs w w.
Proof. intros id d H. left. exact H. Qed.

Lemma events_from_eq docs w w' : events w' = events w -> events_from docs w w'.
Proof. intros He id d H. left. rewrite <- He. exact H. Qed.

Lemma events_from_trans docs w1 w2 w3 :
  events_from docs w1 w2 -> events_from docs w2 w3 -> events_from docs w1 w3.
Proof.
  intros H12 H23 id d H. destruct (H23 id d H) as [H2|Hin]; [|right; exact Hin].
  apply H12, H2.
Qed.

Lemma foldl_bulk_insert_from (docs : list EventDoc) :
  forall m errs id d,
    fst (foldl bulk_insert_one (m, errs) docs) !! id = Some d ->
    m !! id = Some d \/ d ∈ docs.
Proof.
  induction docs as [|x docs IH]; intros m errs id d H; cbn [foldl] in H.
  - left. exact H.
  - destruct (bulk_insert_one_cases m errs x) as [[Hc _]|[Hx Hc]]; rewrite Hc in H.
    + apply IH in H as [H|H]; [left; exact H | right; apply list_elem_of_further, H].
    + apply IH in H as [H|H]; [|right; apply list_elem_of_further, H].
      destruct (decide (ID x = id)) as [<-|Hne].
      * rewrite lookup_insert_eq in H. inversion H; subst. right. apply list_elem_of_here.
      * rewrite lookup_insert_ne in H by exact Hne. left. exact H.
Qed.

Lemma events_BulkWrite_from docs w :
  events_from docs w (snd (events_BulkWrite docs w)).
Proof.
  unfold events_BulkWrite, pop_fault. simpl.
  destruct (faults w) as [|[e|] fs]; simpl.
  - destruct (foldl bulk_insert_one (events w, []) docs) as [m errs] eqn:Hf.
    assert (Hm : forall id d, m !! id = Some d -> events w !! id = Some d \/ d ∈ docs).
    { intros id d H. apply (foldl_bulk_insert_from docs (events w) [] id d).
      rewrite Hf. exact H. }
    destruct errs; exact Hm.
  - apply events_from_eq. reflexivity.
  - destruct (foldl bulk_insert_one (events w, []) docs) as [m errs] eqn:Hf.
    assert (Hm : forall id d, m !! id = Some d -> events w !! id = Some d \/ d ∈ docs).
    { intros id d H. apply (foldl_bulk_insert_from docs (events w) [] id d).
      rewrite Hf. exact H. }
    destruct errs; exact Hm.
Qed.

Lemma events_offsets_Upsert source gtid file pos w :
  events (snd (offsets_Upsert source gtid file pos w)) = events w.
Proof.
  unfold_store. case_fault w; reflexivity.
Qed.

Lemma events_staging_InsertOne doc w :
  events (snd (staging_InsertOne doc w)) = events w.
Proof.
  unfold_store. case_fault w; simpl; try reflexivity;
    destruct (staging w !! st_id doc); reflexivity.
Qed.

Lemma events_staging_SetStatus id st w :
  events (snd (staging_SetStatus id st w)) = events w.
Proof.
  unfold_store. case_fault w; reflexivity.
Qed.

Lemma events_sleep ctx d w : events (snd (sleep ctx d w)) = events w.
Proof.
  unfold sleep. destruct ctx; simpl; [reflexivity|].
  destruct (interrupts w) as [|[c|] rest]; reflexivity.
Qed.

Lemma txBody_from docs source gtid file pos w :
  events_from docs w (snd (txBody docs source gtid file pos w)).
Proof.
  unfold txBody. pose proof (events_BulkWrite_from docs w) as Hb.
  destruct (events_BulkWrite docs w) as [err w1]. simpl in Hb.
  match goal with
  | |- context [match ?a with Some _ => _ | None => _ end] =>
      destruct a as [e|]; [exact Hb|]
  end.
  pose proof (events_offsets_Upsert source gtid file pos w1) as Hu.
  destruct (offsets_Upsert source gtid file pos w1) as [[e|] w2]; simpl in *;
    (eapply events_from_trans; [exact Hb|apply events_from_eq, Hu]).
Qed.

Lemma writeBatchWithoutTransaction_from docs source gtid file pos w :
  events_from docs w (snd (writeBatchWithoutTransaction docs source gtid file pos w)).
Proof.
  unfold writeBatchWithoutTransaction. pose proof (events_BulkWrite_from docs w) as Hb.
  destruct (events_BulkWrite docs w) as [err w1]. simpl in Hb.
  match goal with
  | |- context [match ?a with Some _ => _ | None => _ end] =>
      destruct a as [e|]; [exact Hb|]
  end.
  pose proof (events_offsets_Upsert source gtid file pos w1) as Hu.
  destruct (offsets_Upsert source gtid file pos w1) as [[e|] w2]; simpl in *;
    (eapply events_from_trans; [exact Hb|apply events_from_eq, Hu]).
Qed.

Lemma events_pop_fault w : events (snd (pop_fault w)) = events w.
Proof. unfold pop_fault. case_fault w; reflexivity. Qed.

Lemma WithTransaction_from docs body w :
  (forall w0, events_from docs w0 (snd (body w0))) ->
  events_from docs w (snd (WithTransaction body w)).
Proof.
  intros Hb. apply (WithTransaction_preserves (events_from docs) body).
  - apply events_from_trans.
  - exact Hb.
  - intros w0 w1 _. apply events_from_eq. reflexivity.
  - intros w0 w1 _. apply events_from_eq. reflexivity.
  - intros w0. apply events_from_eq. rewrite events_pop_fault. reflexivity.
  - intros rest w0. apply events_from_eq. reflexivity.
Qed.

Lemma writeBatchWithTransaction_from docs source gtid file pos w :
  events_from docs w (snd (writeBatchWithTransaction docs source gtid file pos w)).
Proof.
  unfold writeBatchWithTransaction.
  pose proof (events_pop_fault (emit EStartSession w)) as Hs. unfold StartSession.
  destruct (pop_fault (emit EStartSession w)) as [[e|] w1]; simpl in Hs.
  - apply events_from_eq, Hs.
  - eapply events_from_trans; [apply events_from_eq, Hs|].
    apply WithTransaction_from. intros w0. apply txBody_from.
Qed.

Lemma commitAttempt_from batchID stagingDoc docs source gtid file pos ctx u w :
  events_from docs w
    (snd (commitAttempt batchID stagingDoc docs source gtid file pos ctx u w)).
Proof.
  unfold commitAttempt.
  pose proof (events_staging_InsertOne stagingDoc w) as H1.
  destruct (staging_InsertOne stagingDoc w) as [[e|] w1]; simpl in H1.
  { apply events_from_eq, H1. }
  pose proof (writeBatchWithTransaction_from docs source gtid file pos w1) as H2.
  destruct (writeBatchWithTransaction docs source gtid file pos w1) as [[e|] w2];
    simpl in H2.
  - destruct (Contains (Error e) no_replica_set_msg || Contains (Error e) time_series_msg).
    + set (w3 := if noTxWarningLogged w2 then w2
                 else with_noTxWarningLogged true (log LogNoTxWarning w2)).
      assert (H3 : events w3 = events w2).
      { subst w3. destruct (noTxWarningLogged w2); reflexivity. }
      pose proof (writeBatchWithoutTransaction_from docs source gtid file pos w3) as H4.
      destruct (writeBatchWithoutTransaction docs source gtid file pos w3) as [[e'|] w4];
        simpl in H4.
      * simpl. eapply events_from_trans; [apply events_from_eq, H1|].
        eapply events_from_trans; [exact H2|].
        eapply events_from_trans; [apply events_from_eq, H3|exact H4].
      * pose proof (events_staging_SetStatus batchID committed w4) as H5.
        destruct (staging_SetStatus batchID committed w4) as [r w5]. simpl in *.
        eapply events_from_trans; [apply events_from_eq, H1|].
        eapply events_from_trans; [exact H2|].
        eapply events_from_trans; [apply events_from_eq, H3|].
        eapply events_from_trans; [exact H4|apply events_from_eq, H5].
    + simpl. eapply events_from_trans; [apply events_from_eq, H1|exact H2].
  - pose proof (events_staging_SetStatus batchID committed w2) as H5.
    destruct (staging_SetStatus batchID committed w2) as [r w5]. simpl in *.
    eapply events_from_trans; [apply events_from_eq, H1|].
    eapply events_from_trans; [exact H2|apply events_from_eq, H5].
Qed.

Lemma retry_loop_from {C : Type} docs
    (fn : Context -> C -> World -> option error * C * World) ctx N :
  (forall c w, events_from docs w (snd (fn ctx c w))) ->
  forall n attempt delay lastErr c w,
    events_from docs w (snd (retry_loop n ctx fn N attempt delay lastErr c w)).
Proof.
  intros Hfn. induction n as [|n IH]; intros attempt delay lastErr c w.
  - apply events_from_refl.
  - rewrite retry_loop_S. pose proof (Hfn c w) as H1.
    destruct (fn ctx c w) as [[[e|] c1] w1]; simpl in H1; [|exact H1].
    destruct (is_Canceled e || is_DeadlineExceeded e); [exact H1|].
    destruct ((attempt >=? N) || negb (isTransient e)).
    { simpl. destruct (isTransient e); exact H1. }
    pose proof (events_sleep ctx delay (log (LogTransient (attempt + 1) N delay e) w1))
      as H2.
    destruct (sleep ctx delay _) as [[ce|] w2]; simpl in H2.
    + simpl. eapply events_from_trans; [exact H1|apply events_from_eq, H2].
    + eapply events_from_trans; [exact H1|].
      eapply events_from_trans; [apply events_from_eq, H2|apply IH].
Qed.

Lemma writeBatchWithGTID_from ctx docs source gtid file pos w :
  events_from docs w (snd (writeBatchWithGTID ctx docs source gtid file pos w)).
Proof.
  destruct docs as [|d0 docs'] eqn:Hd; [apply events_from_refl|]. rewrite <- Hd.
  rewrite writeBatchWithGTID_nonempty by (rewrite Hd; discriminate).
  cbv zeta. simpl snd. unfold retryWithBackoff.
  eapply events_from_trans;
    [|apply retry_loop_from; intros c w'; apply commitAttempt_from].
  apply events_from_eq. reflexivity.
Qed.

Lemma Flush_from ctx h w :
  events_from (batch h) w (snd (Flush ctx h w)).
Proof.
  unfold Flush. destruct (batch h) as [|d0 b] eqn:Hb; [apply events_from_refl|].
  rewrite <- Hb.
  pose proof (writeBatchWithGTID_from ctx (batch h) (source h) (batchGTID h) (batchFile h)
                (batchPos h) (log (LogFlushing (length (batch h))) w)) as H.
  destruct (writeBatchWithGTID _ _ _ _ _ _ _) as [[e|] w1]; exact H.
Qed.

(** *** Which documents a row event can add *)

Section AddsOnly.
Variable P : EventDoc -> Prop.

Lemma adds_only_here (r : result) h w : adds_only P h w (r, h, w).
Proof. unfold adds_only. simpl. auto. Qed.

Lemma adds_only_trans h w r1 h1 w1 r :
  adds_only P h w (r1, h1, w1) -> adds_only P h1 w1 r -> adds_only P h w r.
Proof.
  intros (Hl & Hb & Hw) (Hl' & Hb' & Hw'). simpl in *. split; [congruence|]. split.
  - intros d Hd. destruct (Hb' d Hd) as [H1|HP]; [apply Hb, H1|right; exact HP].
  - intros id d Hd. destruct (Hw' id d Hd) as [H1|[H1|HP]].
    + apply Hw, H1.
    + destruct (Hb d H1) as [H0|HP]; [right; left; exact H0|right; right; exact HP].
    + right. right. exact HP.
Qed.

Lemma addDoc_adds_only e pk chg op h w :
  (forall l, loc h = Some l -> P (mkDoc e pk chg op h l)) ->
  adds_only P h w (addDoc e pk chg op h w).
Proof.
  intros Hnew. unfold addDoc. destruct (loc h) as [l|] eqn:Hloc;
    [|apply adds_only_here].
  specialize (Hnew l eq_refl). set (doc := mkDoc e pk chg op h l) in *.
  assert (Hin : forall d, d ∈ (batch h ++ [doc])%list -> d ∈ batch h \/ P d).
  { intros d [Hd|Hd]%elem_of_app; [left; exact Hd|].
    apply list_elem_of_singleton in Hd. subst d. right. exact Hnew. }
  match goal with
  | |- context [decide (100 <= length (batch ?hh))%nat] =>
      set (h1 := hh); destruct (decide (100 <= length (batch h1))%nat) as [Hge|Hlt]
  end.
  - pose proof (writeBatchWithGTID_from Background (batch h1) (source h1) (batchGTID h1)
                  (batchFile h1) (batchPos h1) w) as Hfrom.
    destruct (writeBatchWithGTID _ _ _ _ _ _ _) as [[err|] w1]; unfold adds_only;
      simpl in *; (split; [reflexivity|]); split.
    + exact Hin.
    + intros id d Hd. destruct (Hfrom id d Hd) as [H0|H1]; auto.
    + intros d Hd. apply elem_of_nil in Hd. contradiction.
    + intros id d Hd. destruct (Hfrom id d Hd) as [H0|H1]; auto.
  - unfold adds_only. simpl. split; [reflexivity|]. split; [exact Hin|]. auto.
Qed.

Lemma and_then_adds_only wrap h w r k :
  adds_only P h w r ->
  (forall h1 w1, loc h1 = loc h -> adds_only P h1 w1 (k h1 w1)) ->
  adds_only P h w (and_then wrap r k).
Proof.
  intros Hr Hk. destruct r as [[[[err|]|p] h1] w1]; simpl.
  - destruct Hr as (Hl & Hb & Hw). repeat split; assumption.
  - eapply adds_only_trans; [exact Hr|]. apply Hk. apply Hr.
  - destruct Hr as (Hl & Hb & Hw). repeat split; assumption.
Qed.

Variable e : RowsEvent.

Lemma insert_rows_adds_only (lo : option Location) :
  forall rows h w,
    loc h = lo ->
    (forall row chg h1 l, row ∈ rows ->
       chg_insert (Columns (table e)) row = Some chg ->
       loc h1 = lo -> lo = Some l ->
       P (mkDoc e (pkVal e row) chg "i" h1 l)) ->
    adds_only P h w (insert_rows e rows h w).
Proof.
  induction rows as [|row rows IH]; intros h w Hlo Hnew; simpl.
  - apply adds_only_here.
  - destruct (chg_insert (Columns (table e)) row) as [chg|] eqn:Hchg;
      [|apply adds_only_here].
    apply and_then_adds_only.
    + apply addDoc_adds_only. intros l Hl.
      apply (Hnew row chg h l); [apply list_elem_of_here|exact Hchg|exact Hlo|congruence].
    + intros h1 w1 Hl1. apply IH; [congruence|].
      intros row' chg' h2 l Hin. apply Hnew, list_elem_of_further, Hin.
Qed.

Lemma delete_rows_adds_only (lo : option Location) :
  forall rows h w,
    loc h = lo ->
    (forall row chg h1 l, row ∈ rows ->
       chg_delete (Columns (table e)) row = Some chg ->
       loc h1 = lo -> lo = Some l ->
       P (mkDoc e (pkVal e row) chg "d" h1 l)) ->
    adds_only P h w (delete_rows e rows h w).
Proof.
  induction rows as [|row rows IH]; intros h w Hlo Hnew; simpl.
  - apply adds_only_here.
  - destruct (chg_delete (Columns (table e)) row) as [chg|] eqn:Hchg;
      [|apply adds_only_here].
    apply and_then_adds_only.
    + apply addDoc_adds_only. intros l Hl.
      apply (Hnew row chg h l); [apply list_elem_of_here|exact Hchg|exact Hlo|congruence].
    + intros h1 w1 Hl1. apply IH; [congruence|].
      intros row' chg' h2 l Hin. apply Hnew, list_elem_of_further, Hin.
Qed.

Lemma update_rows_adds_only (lo : option Location) :
  forall n k h w,
    loc h = lo ->
    (forall j before after chg h1 l, (k <= j)%nat ->
       Rows e !! (2 * j)%nat = Some before ->
       Rows e !! (2 * j + 1)%nat = Some after ->
       chg_update (Columns (table e)) before after = Some chg ->
       loc h1 = lo -> lo = Some l ->
       P (mkDoc e (pkVal e after) chg "u" h1 l)) ->
    adds_only P h w (update_rows e n (2 * k) h w).
Proof.
  induction n as [|n IH]; intros k h w Hlo Hnew; cbn [update_rows].
  - apply adds_only_here.
  - destruct (Rows e !! (2 * k)%nat) as [before|] eqn:Hb; [|apply adds_only_here].
    destruct (Rows e !! (2 * k + 1)%nat) as [after|] eqn:Ha; [|apply adds_only_here].
    destruct (chg_update (Columns (table e)) before after) as [chg|] eqn:Hchg;
      [|apply adds_only_here].
    apply and_then_adds_only.
    + apply addDoc_adds_only. intros l Hl.
      apply (Hnew k before after chg h l); auto; congruence.
    + intros h1 w1 Hl1.
      replace (2 * k + 2)%nat with (2 * S k)%nat by lia.
      apply IH; [congruence|].
      intros j before' after' chg' h2 l Hj. apply Hnew. lia.
Qed.
End AddsOnly.

(** ** Change maps *)

(** A counted loop whose body never panics and, at index [j], either
    stores the entry [step j] or leaves the map alone, each key being
    stored by at most one index. *)
Lemma for_range_inserts (body : nat -> gmap string Delta -> option (gmap string Delta))
    (step : nat -> option (string * Delta)) :
  forall (n i : nat) (a : gmap string Delta),
    (forall j chg, (i <= j < i + n)%nat ->
       body j chg = Some (match step j with
                          | Some (k, d) => <[k := d]> chg
                          | None => chg
                          end)) ->
    (forall j j' k d d', (i <= j < i + n)%nat -> (i <= j' < i + n)%nat ->
       step j = Some (k, d) -> step j' = Some (k, d') -> j = j') ->
    exists r,
      for_range n i body a = Some r /\
      forall col d,
        r !! col = Some d <->
        (exists j, (i <= j < i + n)%nat /\ step j = Some (col, d)) \/
        (a !! col = Some d /\
         forall j d', (i <= j < i + n)%nat -> step j <> Some (col, d')).
Proof.
  induction n as [|n IH]; intros i a Hbody Hinj.
  - exists a. split; [reflexivity|]. intros col d. split.
    + intros H. right. split; [exact H|]. intros j d' Hj. lia.
    + intros [(j & Hj & _)|[H _]]; [lia|exact H].
  - simpl. rewrite Hbody by lia.
    set (a' := match step i with Some (k, d) => <[k := d]> a | None => a end).
    destruct (IH (S i) a') as (r & Hr & Hspec).
    { intros j chg Hj. apply Hbody. lia. }
    { intros j j' k d d' Hj Hj'. apply Hinj; lia. }
    exists r. split; [exact Hr|]. intros col d. rewrite Hspec. clear Hspec Hr.
    split.
    + intros [(j & Hj & Hs)|[Ha' Hno]].
      * left. exists j. split; [lia|exact Hs].
      * subst a'. destruct (step i) as [[k d0]|] eqn:Hsi.
        -- destruct (decide (k = col)) as [->|Hne].
           ++ rewrite lookup_insert_eq in Ha'. inversion Ha'; subst d0.
              left. exists i. split; [lia|exact Hsi].
           ++ rewrite lookup_insert_ne in Ha' by exact Hne.
              right. split; [exact Ha'|]. intros j d' Hj Hs.
              destruct (decide (j = i)) as [->|Hji]; [congruence|].
              apply (Hno j d'); [lia|exact Hs].
        -- right. split; [exact Ha'|]. intros j d' Hj Hs.
           destruct (decide (j = i)) as [->|Hji]; [congruence|].
           apply (Hno j d'); [lia|exact Hs].
    + intros [(j & Hj & Hs)|[Ha Hno]].
      * destruct (decide (j = i)) as [->|Hji].
        -- right. subst a'. rewrite Hs. rewrite lookup_insert_eq. split; [reflexivity|].
           intros j d' Hj' Hs'. assert (j = i) by (eapply Hinj; eauto; lia). lia.
        -- left. exists j. split; [lia|exact Hs].
      * right. split.
        -- subst a'. destruct (step i) as [[k d0]|] eqn:Hsi; [|exact Ha].
           rewrite lookup_insert_ne; [exact Ha|].
           intros ->. apply (Hno i d0); [lia|exact Hsi].
        -- intros j d' Hj. apply Hno. lia.
Qed.

Lemma maxIdx_min (a b : nat) :
  (if decide (b < a)%nat then b else a) = Nat.min a b.
Proof. destruct (decide (b < a)%nat); lia. Qed.

Lemma lookup_both_lt {A B : Type} (l1 : list A) (l2 : list B) (j : nat) :
  (j < Nat.min (length l1) (length l2))%nat ->
  exists x y, l1 !! j = Some x /\ l2 !! j = Some y.
Proof.
  intros Hj.
  destruct (lookup_lt_is_Some_2 l1 j ltac:(lia)) as [x Hx].
  destruct (lookup_lt_is_Some_2 l2 j ltac:(lia)) as [y Hy].
  eauto.
Qed.

(** The column loop of an insert or of a delete: [mk] builds the entry
    from the value of the row. *)
Lemma chg_row_spec (mk : value -> Delta) (colNames : list string) (row : list value) :
  NoDup colNames ->
  exists chg : gmap string Delta,
    for_range (Nat.min (length colNames) (length row)) 0
      (fun i chg =>
         match colNames !! i, row !! i with
         | Some c, Some v => Some (<[c := mk v]> chg)
         | _, _ => None
         end) ∅ = Some chg /\
    forall col d,
      chg !! col = Some d <->
      exists i v, (i < Nat.min (length colNames) (length row))%nat /\
                  colNames !! i = Some col /\ row !! i = Some v /\ d = mk v.
Proof.
  intros Hnd. set (n := Nat.min (length colNames) (length row)).
  destruct (for_range_inserts
              (fun i chg =>
                 match colNames !! i, row !! i with
                 | Some c, Some v => Some (<[c := mk v]> chg)
                 | _, _ => None
                 end)
              (fun j => match colNames !! j, row !! j with
                        | Some c, Some v => Some (c, mk v)
                        | _, _ => None
                        end) n 0%nat ∅) as (r & Hr & Hspec).
  - intros j chg Hj. destruct (lookup_both_lt colNames row j ltac:(lia)) as (c & v & -> & ->).
    reflexivity.
  - intros j j' k d d' Hj Hj' Hs Hs'.
    destruct (lookup_both_lt colNames row j ltac:(lia)) as (c & v & Hc & Hv).
    destruct (lookup_both_lt colNames row j' ltac:(lia)) as (c' & v' & Hc' & Hv').
    rewrite Hc, Hv in Hs. rewrite Hc', Hv' in Hs'.
    inversion Hs; inversion Hs'; subst.
    eapply NoDup_lookup; eauto.
  - exists r. split; [exact Hr|]. intros col d. rewrite Hspec. split.
    + intros [(j & Hj & Hs)|[He _]]; [|rewrite lookup_empty in He; discriminate].
      destruct (lookup_both_lt colNames row j ltac:(lia)) as (c & v & Hc & Hv).
      rewrite Hc, Hv in Hs. inversion Hs; subst.
      exists j, v. repeat split; auto. lia.
    + intros (i & v & Hi & Hc & Hv & ->). left. exists i. split; [lia|].
      rewrite Hc, Hv. reflexivity.
Qed.

Lemma chg_insert_spec (colNames : list string) (row : list value) :
  NoDup colNames ->
  exists chg,
    chg_insert colNames row = Some chg /\ insert_entries colNames row chg.
Proof.
  intros Hnd. unfold chg_insert, insert_entries. rewrite maxIdx_min.
  apply (chg_row_spec (fun v => {| F := VNil; T := v |})), Hnd.
Qed.

Lemma chg_delete_spec (colNames : list string) (row : list value) :
  NoDup colNames ->
  exists chg,
    chg_delete colNames row = Some chg /\ delete_entries colNames row chg.
Proof.
  intros Hnd. unfold chg_delete, delete_entries. rewrite maxIdx_min.
  apply (chg_row_spec (fun v => {| F := v; T := VNil |})), Hnd.
Qed.

Lemma chg_update_spec (colNames : list string) (before after : list value) :
  NoDup colNames ->
  exists chg,
    chg_update colNames before after = Some chg /\
    update_entries colNames before after chg.
Proof.
  intros Hnd. unfold chg_update, update_entries. rewrite !maxIdx_min.
  set (n := Nat.min (Nat.min (length colNames) (length before)) (length after)).
  assert (Hlk : forall j, (j < n)%nat ->
            exists c b a, colNames !! j = Some c /\ before !! j = Some b /\
                          after !! j = Some a).
  { intros j Hj. subst n.
    destruct (lookup_lt_is_Some_2 colNames j ltac:(lia)) as [c Hc].
    destruct (lookup_lt_is_Some_2 before j ltac:(lia)) as [b Hb].
    destruct (lookup_lt_is_Some_2 after j ltac:(lia)) as [a Ha]. eauto 7. }
  destruct (for_range_inserts
              (fun c chg =>
                 match before !! c, after !! c with
                 | Some b, Some a =>
                     if negb (DeepEqual b a) then
                       match colNames !! c with
                       | Some name => Some (<[name := {| F := b; T := a |}]> chg)
                       | None => None
                       end
                     else Some chg
                 | _, _ => None
                 end)
              (fun j => match before !! j, after !! j, colNames !! j with
                        | Some b, Some a, Some name =>
                            if negb (DeepEqual b a) then Some (name, {| F := b; T := a |})
                            else None
                        | _, _, _ => None
                        end) n 0%nat ∅) as (r & Hr & Hspec).
  - intros j chg Hj. destruct (Hlk j ltac:(lia)) as (c & b & a & -> & -> & ->).
    destruct (negb (DeepEqual b a)); reflexivity.
  - intros j j' k d d' Hj Hj' Hs Hs'.
    destruct (Hlk j ltac:(lia)) as (c & b & a & Hc & Hb & Ha).
    destruct (Hlk j' ltac:(lia)) as (c' & b' & a' & Hc' & Hb' & Ha').
    rewrite Hc, Hb, Ha in Hs. rewrite Hc', Hb', Ha' in Hs'.
    destruct (negb (DeepEqual b a)); [|discriminate].
    destruct (negb (DeepEqual b' a')); [|discriminate].
    inversion Hs; inversion Hs'; subst.
    eapply NoDup_lookup; eauto.
  - exists r. split; [exact Hr|]. intros col d. rewrite Hspec. split.
    + intros [(j & Hj & Hs)|[He _]]; [|rewrite lookup_empty in He; discriminate].
      destruct (Hlk j ltac:(lia)) as (c & b & a & Hc & Hb & Ha).
      rewrite Hc, Hb, Ha in Hs.
      destruct (DeepEqual b a) eqn:Hde; simpl in Hs; [discriminate|].
      inversion Hs; subst.
      exists j, b, a. repeat split; auto. subst n. lia.
    + intros (i & b & a & Hi & Hc & Hb & Ha & Hde & ->). left. exists i.
      split; [subst n; lia|].
      rewrite Hc, Hb, Ha, Hde. reflexivity.
Qed.

(** Below the batch threshold [addDoc] appends one document carrying the
    change map and the operation it was given, and writes nothing. *)
Lemma addDoc_below_threshold e pk chg op h w l :
  loc h = Some l -> (length (batch h) < 99)%nat ->
  exists h' doc,
    addDoc e pk chg op h w = (Return None, h', w) /\
    batch h' = (batch h ++ [doc])%list /\ loc h' = loc h /\
    Chg doc = chg /\ OP doc = op /\ PK (meta doc) = pk /\
    TSIST doc = format_datetime l (Timestamp e).
Proof.
  intros Hloc Hlen. unfold addDoc. rewrite Hloc.
  match goal with
  | |- context [decide (100 <= length (batch ?hh))%nat] =>
      destruct (decide (100 <= length (batch hh))%nat) as [Hge|Hlt]
  end.
  - simpl in Hge. rewrite length_app in Hge. simpl in Hge. lia.
  - eexists _, _. split; [reflexivity|]. simpl. rewrite Hloc. repeat split; reflexivity.
Qed.

Lemma insert_rows_below_threshold e l w (Hnd : NoDup (Columns (table e))) :
  forall rows h,
    loc h = Some l -> (length (batch h) + length rows < 100)%nat ->
    exists h' docs,
      insert_rows e rows h w = (Return None, h', w) /\
      batch h' = (batch h ++ docs)%list /\
      Forall2 (fun row doc =>
                 OP doc = "i" /\ chg_insert (Columns (table e)) row = Some (Chg doc))
              rows docs.
Proof.
  induction rows as [|row rows IH]; intros h Hloc Hlen.
  - exists h, []. simpl. rewrite app_nil_r. auto.
  - simpl in *.
    destruct (chg_insert_spec (Columns (table e)) row Hnd) as (chg & Hchg & _).
    rewrite Hchg.
    destruct (addDoc_below_threshold e (pkVal e row) chg "i" h w l Hloc ltac:(lia))
      as (h1 & doc & -> & Hb & Hl & Hc & Hop & _).
    simpl.
    destruct (IH h1) as (h' & docs & Hrun & Hb' & Hall).
    { rewrite Hl. exact Hloc. }
    { rewrite Hb, length_app. simpl. lia. }
    exists h', (doc :: docs). split; [exact Hrun|]. split.
    + rewrite Hb', Hb, <- app_assoc. reflexivity.
    + constructor; [|exact Hall]. rewrite Hc. auto.
Qed.

Lemma delete_rows_below_threshold e l w (Hnd : NoDup (Columns (table e))) :
  forall rows h,
    loc h = Some l -> (length (batch h) + length rows < 100)%nat ->
    exists h' docs,
      delete_rows e rows h w = (Return None, h', w) /\
      batch h' = (batch h ++ docs)%list /\
      Forall2 (fun row doc =>
                 OP doc = "d" /\ chg_delete (Columns (table e)) row = Some (Chg doc))
              rows docs.
Proof.
  induction rows as [|row rows IH]; intros h Hloc Hlen.
  - exists h, []. simpl. rewrite app_nil_r. auto.
  - simpl in *.
    destruct (chg_delete_spec (Columns (table e)) row Hnd) as (chg & Hchg & _).
    rewrite Hchg.
    destruct (addDoc_below_threshold e (pkVal e row) chg "d" h w l Hloc ltac:(lia))
      as (h1 & doc & -> & Hb & Hl & Hc & Hop & _).
    simpl.
    destruct (IH h1) as (h' & docs & Hrun & Hb' & Hall).
    { rewrite Hl. exact Hloc. }
    { rewrite Hb, length_app. simpl. lia. }
    exists h', (doc :: docs). split; [exact Hrun|]. split.
    + rewrite Hb', Hb, <- app_assoc. reflexivity.
    + constructor; [|exact Hall]. rewrite Hc. auto.
Qed.

Lemma update_rows_below_threshold e l w (Hnd : NoDup (Columns (table e))) :
  forall n i h,
    (i + 2 * n = length (Rows e))%nat ->
    loc h = Some l -> (length (batch h) + n < 100)%nat ->
    exists h' docs,
      update_rows e n i h w = (Return None, h', w) /\
      batch h' = (batch h ++ docs)%list /\ length docs = n /\
      forall k doc, docs !! k = Some doc ->
        exists before after,
          Rows e !! (i + 2 * k)%nat = Some before /\
          Rows e !! (i + 2 * k + 1)%nat = Some after /\
          OP doc = "u" /\
          chg_update (Columns (table e)) before after = Some (Chg doc).
Proof.
  induction n as [|n IH]; intros i h Hi Hloc Hlen.
  - exists h, []. simpl. rewrite app_nil_r. repeat split; auto.
    intros k doc Hk. rewrite lookup_nil in Hk. discriminate.
  - cbn [update_rows].
    destruct (lookup_lt_is_Some_2 (Rows e) i ltac:(lia)) as [before Hb0].
    destruct (lookup_lt_is_Some_2 (Rows e) (i + 1) ltac:(lia)) as [after Ha0].
    rewrite Hb0, Ha0.
    destruct (chg_update_spec (Columns (table e)) before after Hnd) as (chg & Hchg & _).
    rewrite Hchg.
    destruct (addDoc_below_threshold e (pkVal e after) chg "u" h w l Hloc ltac:(lia))
      as (h1 & doc & -> & Hb & Hl & Hc & Hop & _).
    cbn [and_then].
    destruct (IH (i + 2)%nat h1) as (h' & docs & Hrun & Hb' & Hlen' & Hall).
    { lia. }
    { rewrite Hl. exact Hloc. }
    { rewrite Hb, length_app. simpl. lia. }
    exists h', (doc :: docs). split; [exact Hrun|]. split; [|split].
    + rewrite Hb', Hb, <- app_assoc. reflexivity.
    + simpl. lia.
    + intros [|k] doc' Hk; cbn [lookup list_lookup] in Hk.
      * inversion Hk; subst doc'. exists before, after.
        replace (i + 2 * 0)%nat with i by lia. rewrite Hc. auto.
      * destruct (Hall k doc' Hk) as (b & a & H1 & H2 & H3 & H4).
        exists b, a.
        replace (i + 2 * S k)%nat with (i + 2 + 2 * k)%nat by lia. auto.
Qed.

Lemma update_iterations_even (len : nat) :
  Nat.Even len -> (2 * update_iterations len = len)%nat.
Proof.
  intros [m ->]. unfold update_iterations.
  rewrite Nat.div2_succ_double. reflexivity.
Qed.

Lemma chg_insert_entries cols row chg :
  NoDup cols -> chg_insert cols row = Some chg -> insert_entries cols row chg.
Proof.
  intros Hnd H. destruct (chg_insert_spec cols row Hnd) as (chg' & Hc & Hspec).
  rewrite Hc in H. inversion H; subst chg'. exact Hspec.
Qed.

Lemma chg_delete_entries cols row chg :
  NoDup cols -> chg_delete cols row = Some chg -> delete_entries cols row chg.
Proof.
  intros Hnd H. destruct (chg_delete_spec cols row Hnd) as (chg' & Hc & Hspec).
  rewrite Hc in H. inversion H; subst chg'. exact Hspec.
Qed.

Lemma chg_update_entries cols before after chg :
  NoDup cols -> chg_update cols before after = Some chg ->
  update_entries cols before after chg.
Proof.
  intros Hnd H. destruct (chg_update_spec cols before after Hnd) as (chg' & Hc & Hspec).
  rewrite Hc in H. inversion H; subst chg'. exact Hspec.
Qed.

(** C5.  Take a row event of a table with a primary key and distinct
    column names.  In every state, each document that OnRow adds to the
    batch or to the events collection carries the change map of one of
    the rows of the event: for an insert, op "i" and, for every index i
    below min(len(columns), len(row)), the entry columns[i] -> {from nil,
    to row[i]} and nothing else; for a delete likewise with op "d" and
    {from row[i], to nil}; for an update, op "u" and the entry columns[i]
    -> {from before[i], to after[i]} exactly for the indexes i below the
    three lengths at which before[i] and after[i] are not deeply equal,
    where before and after are the rows 2k and 2k+1.  Indexes beyond the
    bound are not read.  When the handler has a time zone and the batch
    stays below the threshold, OnRow returns nil and appends exactly one
    such document per row (per pair of rows for an update), in order. *)
Theorem change_map_columnwise (e : RowsEvent) (h : Handler) (w : World) :
  PKColumns (table e) <> [] -> NoDup (Columns (table e)) ->
  let cols := Columns (table e) in
  let quiet := fun l : Location =>
    loc h = Some l /\ (length (batch h) + length (Rows e) < 100)%nat in
  (Action e = InsertAction ->
     adds_only (fun d => OP d = "i" /\
                  exists row, row ∈ Rows e /\ insert_entries cols row (Chg d))
       h w (OnRow e h w) /\
     forall l, quiet l ->
       exists h' docs,
         OnRow e h w = (Return None, h', w) /\ batch h' = (batch h ++ docs)%list /\
         Forall2 (fun row doc => OP doc = "i" /\ insert_entries cols row (Chg doc))
           (Rows e) docs) /\
  (Action e = DeleteAction ->
     adds_only (fun d => OP d = "d" /\
                  exists row, row ∈ Rows e /\ delete_entries cols row (Chg d))
       h w (OnRow e h w) /\
     forall l, quiet l ->
       exists h' docs,
         OnRow e h w = (Return None, h', w) /\ batch h' = (batch h ++ docs)%list /\
         Forall2 (fun row doc => OP doc = "d" /\ delete_entries cols row (Chg doc))
           (Rows e) docs) /\
  (Action e = UpdateAction ->
     adds_only (fun d => OP d = "u" /\
                  exists k before after,
                    Rows e !! (2 * k)%nat = Some before /\
                    Rows e !! (2 * k + 1)%nat = Some after /\
                    update_entries cols before after (Chg d))
       h w (OnRow e h w) /\
     forall l, quiet l -> Nat.Even (length (Rows e)) ->
       exists h' docs,
         OnRow e h w = (Return None, h', w) /\ batch h' = (batch h ++ docs)%list /\
         (2 * length docs = length (Rows e))%nat /\
         forall k doc, docs !! k = Some doc ->
           exists before after,
             Rows e !! (2 * k)%nat = Some before /\
             Rows e !! (2 * k + 1)%nat = Some after /\
             OP doc = "u" /\ update_entries cols before after (Chg doc)).
Proof.
  intros Hpk Hnd cols quiet. subst cols quiet.
  assert (Hon : forall X Y : result * Handler * World,
            match PKColumns (table e) with [] => X | _ :: _ => Y end = Y).
  { intros X Y. destruct (PKColumns (table e)); [congruence|reflexivity]. }
  split; [|split].
  - intros Hact. unfold OnRow. rewrite Hon, Hact.
    rewrite decide_True by reflexivity. split.
    + apply (insert_rows_adds_only _ e (loc h)); [reflexivity|].
      intros row chg h1 l Hin Hchg _ _. split; [reflexivity|].
      exists row. split; [exact Hin|]. apply chg_insert_entries; assumption.
    + intros l [Hloc Hlen].
      destruct (insert_rows_below_threshold e l w Hnd (Rows e) h Hloc Hlen)
        as (h' & docs & Hrun & Hb & Hall).
      exists h', docs. split; [exact Hrun|]. split; [exact Hb|].
      eapply Forall2_impl; [exact Hall|].
      intros row doc [Hop Hchg]. split; [exact Hop|].
      apply chg_insert_entries; assumption.
  - intros Hact. unfold OnRow. rewrite Hon, Hact.
    rewrite decide_False by discriminate. rewrite decide_True by reflexivity. split.
    + apply (delete_rows_adds_only _ e (loc h)); [reflexivity|].
      intros row chg h1 l Hin Hchg _ _. split; [reflexivity|].
      exists row. split; [exact Hin|]. apply chg_delete_entries; assumption.
    + intros l [Hloc Hlen].
      destruct (delete_rows_below_threshold e l w Hnd (Rows e) h Hloc Hlen)
        as (h' & docs & Hrun & Hb & Hall).
      exists h', docs. split; [exact Hrun|]. split; [exact Hb|].
      eapply Forall2_impl; [exact Hall|].
      intros row doc [Hop Hchg]. split; [exact Hop|].
      apply chg_delete_entries; assumption.
  - intros Hact. unfold OnRow. rewrite Hon, Hact.
    rewrite !decide_False by discriminate. rewrite decide_True by reflexivity. split.
    + apply (update_rows_adds_only _ e (loc h) _ 0%nat); [reflexivity|].
      intros j before after chg h1 l _ Hb Ha Hchg _ _. split; [reflexivity|].
      exists j, before, after. split; [exact Hb|]. split; [exact Ha|].
      apply chg_update_entries; assumption.
    + intros l [Hloc Hlen] Heven.
      pose proof (update_iterations_even _ Heven) as Hit.
      destruct (update_rows_below_threshold e l w Hnd
                  (update_iterations (length (Rows e))) 0 h ltac:(lia) Hloc ltac:(lia))
        as (h' & docs & Hrun & Hb & Hlen' & Hall).
      exists h', docs. split; [exact Hrun|]. split; [exact Hb|]. split; [lia|].
      intros k doc Hk. destruct (Hall k doc Hk) as (b & a & H1 & H2 & Hop & Hchg).
      exists b, a. simpl in H1, H2. split; [exact H1|]. split; [exact H2|].
      split; [exact Hop|]. apply chg_update_entries; assumption.
Qed.

Lemma NoDup_sample_columns : NoDup (Columns sample_table).
Proof. apply (bool_decide_unpack _). vm_compute. exact I. Qed.

(** The sample update yields one document whose change map holds the
    changed column [v] and not the unchanged key [id]. *)
Lemma change_map_columnwise_witness :
  exists h' doc,
    OnRow sample_update sample_handler empty_world = (Return None, h', empty_world) /\
    batch h' = [doc] /\
    Chg doc !! "v" = Some {| F := VStr "a"; T := VStr "b" |} /\
    Chg doc !! "id" = None.
Proof.
  destruct (change_map_columnwise sample_update sample_handler empty_world
              ltac:(discriminate) NoDup_sample_columns) as (_ & _ & Hupd).
  destruct (Hupd eq_refl) as [_ Hquiet].
  destruct (Hquiet Kolkata ltac:(split; [reflexivity|simpl; lia])
              ltac:(exists 1%nat; reflexivity))
    as (h' & docs & Hrun & Hb & Hlen & Hall).
  destruct docs as [|doc [|doc2 docs]]; simpl in Hlen; try lia.
  destruct (Hall 0%nat doc eq_refl) as (b & a & Hb0 & Ha0 & _ & Hspec).
  simpl in Hb0, Ha0. inversion Hb0; inversion Ha0; subst b a.
  exists h', doc. split; [exact Hrun|]. split; [exact Hb|]. split.
  - apply Hspec. exists 1%nat, (VStr "a"), (VStr "b").
    repeat split; simpl; lia.
  - destruct (Chg doc !! "id") as [d|] eqn:Hid; [|reflexivity].
    apply Hspec in Hid as (i & b & a & Hi & Hc & Hb1 & Ha1 & Hde & _).
    destruct i as [|[|[|i]]]; simpl in Hc, Hb1, Ha1; try discriminate.
    inversion Hb1; inversion Ha1; subst. discriminate.
Defined.

(** ** The event id *)

Lemma append_cons (x : ascii) (a b : string) : String x a +:+ b = String x (a +:+ b).
Proof. reflexivity. Qed.

Lemma append_nil (b : string) : "" +:+ b = b.
Proof. reflexivity. Qed.

Lemma append_length (a b : string) :
  String.length (a +:+ b) = (String.length a + String.length b)%nat.
Proof.
  induction a as [|x a IH]; [reflexivity|].
  rewrite append_cons. simpl. rewrite IH. reflexivity.
Qed.

Lemma append_inv_tail (a b t : string) : a +:+ t = b +:+ t -> a = b.
Proof.
  revert b. induction a as [|x a IH]; intros [|y b] H;
    rewrite ?append_cons, ?append_nil in H.
  - reflexivity.
  - apply (f_equal String.length) in H. simpl in H. rewrite append_length in H. lia.
  - apply (f_equal String.length) in H. simpl in H. rewrite append_length in H. lia.
  - inversion H; subst. f_equal. apply IH. assumption.
Qed.

Lemma append_inv_head (p a b : string) : p +:+ a = p +:+ b -> a = b.
Proof.
  induction p as [|x p IH]; rewrite ?append_cons, ?append_nil; intros H; [exact H|].
  inversion H. auto.
Qed.

Lemma wrap64_small (z : Z) : - 2 ^ 63 <= z < 2 ^ 63 -> wrap64 z = z.
Proof. intros H. unfold wrap64. rewrite Z.mod_small; lia. Qed.

(** C7 (as amended).  The id is the hex SHA-1 digest of a string computed
    from (db, table, PK, ts, op, file, offset, position token) alone, so
    equal tuples give equal ids.  With the other components fixed, a
    change of db, table, op, file, offset or position token changes the
    hashed string; so does a change of ts between instants whose
    nanosecond count fits in 64 bits; and so does a change of PK between
    values that [%v] renders differently. *)
Theorem makeID_depends_on_every_component
    (db tbl : string) (pk : value) (ts : Z) (op file : string) (pos : Z)
    (gtid : string) :
  makeID db tbl pk ts op file pos gtid
    = hex_EncodeToString (sha1_Sum (bytes_of_string
        (makeID_input db tbl pk ts op file pos gtid))) /\
  (forall db' tbl' pk' ts' op' file' pos' gtid',
     (db', tbl', pk', ts', op', file', pos', gtid')
       = (db, tbl, pk, ts, op, file, pos, gtid) ->
     makeID db' tbl' pk' ts' op' file' pos' gtid'
       = makeID db tbl pk ts op file pos gtid) /\
  (forall db', db' <> db ->
     makeID_input db' tbl pk ts op file pos gtid
       <> makeID_input db tbl pk ts op file pos gtid) /\
  (forall tbl', tbl' <> tbl ->
     makeID_input db tbl' pk ts op file pos gtid
       <> makeID_input db tbl pk ts op file pos gtid) /\
  (forall pk', toS pk' <> toS pk ->
     makeID_input db tbl pk' ts op file pos gtid
       <> makeID_input db tbl pk ts op file pos gtid) /\
  (forall ts', - 2 ^ 63 <= ts * Second < 2 ^ 63 -> - 2 ^ 63 <= ts' * Second < 2 ^ 63 ->
     ts' <> ts ->
     makeID_input db tbl pk ts' op file pos gtid
       <> makeID_input db tbl pk ts op file pos gtid) /\
  (forall op', op' <> op ->
     makeID_input db tbl pk ts op' file pos gtid
       <> makeID_input db tbl pk ts op file pos gtid) /\
  (forall file', file' <> file ->
     makeID_input db tbl pk ts op file' pos gtid
       <> makeID_input db tbl pk ts op file pos gtid) /\
  (forall pos', pos' <> pos ->
     makeID_input db tbl pk ts op file pos' gtid
       <> makeID_input db tbl pk ts op file pos gtid) /\
  (forall gtid', gtid' <> gtid ->
     makeID_input db tbl pk ts op file pos gtid'
       <> makeID_input db tbl pk ts op file pos gtid).
Proof.
  split; [reflexivity|]. split.
  { intros db' tbl' pk' ts' op' file' pos' gtid' H. inversion H. reflexivity. }
  unfold makeID_input.
  split; [|split; [|split; [|split; [|split; [|split; [|split]]]]]].
  - intros db' Hne H. apply append_inv_tail in H. contradiction.
  - intros tbl' Hne H. do 2 apply append_inv_head in H.
    apply append_inv_tail in H. contradiction.
  - intros pk' Hne H. do 4 apply append_inv_head in H.
    apply append_inv_tail in H. contradiction.
  - intros ts' Hts Hts' Hne H. do 6 apply append_inv_head in H.
    apply append_inv_tail in H. apply (inj pretty) in H.
    rewrite !wrap64_small in H by assumption. unfold Second in H. lia.
  - intros op' Hne H. do 8 apply append_inv_head in H.
    apply append_inv_tail in H. contradiction.
  - intros file' Hne H. do 10 apply append_inv_head in H.
    apply append_inv_tail in H. contradiction.
  - intros pos' Hne H. do 16 apply append_inv_head in H.
    apply append_inv_tail in H. apply (inj pretty) in H. contradiction.
  - intros gtid' Hne H. do 13 apply append_inv_head in H.
    apply append_inv_tail in H. contradiction.
Qed.

(** Two order rows that differ in the file offset get different hashed
    strings, and so do two instants one second apart. *)
Lemma makeID_depends_on_every_component_witness :
  makeID_input "shop" "orders" (VInt 1) 1765621800 "u" "binlog.000001" 5 "uuid:1-5"
    <> makeID_input "shop" "orders" (VInt 1) 1765621800 "u" "binlog.000001" 4 "uuid:1-5" /\
  makeID_input "shop" "orders" (VInt 1) 1765621801 "u" "binlog.000001" 4 "uuid:1-5"
    <> makeID_input "shop" "orders" (VInt 1) 1765621800 "u" "binlog.000001" 4 "uuid:1-5" /\
  makeID_input "shop" "orders" (VInt 2) 1765621800 "u" "binlog.000001" 4 "uuid:1-5"
    <> makeID_input "shop" "orders" (VInt 1) 1765621800 "u" "binlog.000001" 4 "uuid:1-5".
Proof.
  destruct (makeID_depends_on_every_component "shop" "orders" (VInt 1) 1765621800 "u"
              "binlog.000001" 4 "uuid:1-5")
    as (_ & _ & _ & _ & Hpk & Hts & _ & _ & Hpos & _).
  split; [|split].
  - apply (Hpos 5). discriminate.
  - apply (Hts 1765621801); unfold Second; lia.
  - apply (Hpk (VInt 2)). vm_compute. discriminate.
Defined.

(** C7 as stated fails on the code: the integer key 1 and the string key
    "1" are different PK values, yet makeID hashes the same string for
    them and returns the same id. *)
Lemma makeID_ignores_key_type :
  VInt 1 <> VStr "1" /\
  makeID_input "shop" "orders" (VInt 1) 1765621800 "u" "binlog.000001" 4 "uuid:1-5"
    = makeID_input "shop" "orders" (VStr "1") 1765621800 "u" "binlog.000001" 4 "uuid:1-5" /\
  makeID "shop" "orders" (VInt 1) 1765621800 "u" "binlog.000001" 4 "uuid:1-5"
    = makeID "shop" "orders" (VStr "1") 1765621800 "u" "binlog.000001" 4 "uuid:1-5".
Proof. split; [discriminate|]. split; vm_compute; reflexivity. Qed.

(** ** The display timestamp *)

Lemma forallb_from_spec (f : Z -> bool) (n : nat) :
  forall z, forallb_from f n z = true ->
            forall x, z <= x < z + Z.of_nat n -> f x = true.
Proof.
  induction n as [|n IH]; intros z H x Hx; [lia|].
  simpl in H. apply andb_prop in H as [Hz Hrest].
  destruct (Z.eq_dec x z) as [->|Hne]; [exact Hz|].
  apply (IH (z + 1) Hrest). lia.
Qed.

Lemma check_zero_pad_2 : check_zero_pad 2 100 = true.
Proof. vm_compute. reflexivity. Qed.

Lemma check_zero_pad_4 : check_zero_pad 4 10000 = true.
Proof. vm_compute. reflexivity. Qed.

Lemma check_civil_32bit : check_civil (-1) 49714 = true.
Proof. vm_compute. reflexivity. Qed.

Lemma zero_pad_digits (k : nat) (bound n : Z) :
  check_zero_pad k bound = true -> 0 <= n < bound ->
  all_digits k (zero_pad k n) = true.
Proof.
  intros Hc Hn. unfold check_zero_pad in Hc.
  apply (forallb_from_spec _ _ _ Hc n). rewrite Z2Nat.id; lia.
Qed.

Lemma check_civil_spec (first count z : Z) :
  check_civil first count = true -> first <= z < first + count ->
  let '(y, m, d) := civil_from_days z in
  0 <= y < 10000 /\ 1 <= m <= 12 /\ 1 <= d <= 31.
Proof.
  intros Hc Hz. unfold check_civil in Hc.
  assert (Hr : first <= z < first + Z.of_nat (Z.to_nat count)) by (rewrite Z2Nat.id; lia).
  pose proof (forallb_from_spec _ _ _ Hc z Hr) as Hin. cbv beta in Hin.
  destruct (civil_from_days z) as [[y m] d].
  repeat (apply andb_prop in Hin as [Hin ?]). lia.
Qed.

Lemma civil_from_days_range (z : Z) :
  -1 <= z <= 49712 ->
  let '(y, m, d) := civil_from_days z in
  0 <= y < 10000 /\ 1 <= m <= 12 /\ 1 <= d <= 31.
Proof.
  intros Hz. apply (check_civil_spec (-1) 49714 z check_civil_32bit). lia.
Qed.

Lemma format_datetime_layout (l : Location) (ts : Z) :
  (forall t, -86400 <= l t <= 86400) -> 0 <= ts < 2 ^ 32 ->
  datetime_layout (format_datetime l ts).
Proof.
  intros Hl Hts. unfold format_datetime.
  specialize (Hl ts). set (local := ts + l ts) in *.
  assert (Hday : -1 <= local / 86400 <= 49712).
  { split.
    - apply Z.div_le_lower_bound; lia.
    - apply Z.lt_succ_r, Z.div_lt_upper_bound; lia. }
  pose proof (civil_from_days_range _ Hday) as Hciv.
  destruct (civil_from_days (local / 86400)) as [[y m] d].
  destruct Hciv as (Hy & Hm & Hd).
  assert (Hsecs : 0 <= local mod 86400 < 86400) by (apply Z.mod_pos_bound; lia).
  set (secs := local mod 86400) in *.
  destruct (Z.ltb_spec y 0) as [?|_]; [lia|].
  exists (zero_pad 4 y), (zero_pad 2 m), (zero_pad 2 d), (zero_pad 2 (secs / 3600)),
    (zero_pad 2 (secs mod 3600 / 60)), (zero_pad 2 (secs mod 60)).
  repeat split.
  - apply (zero_pad_digits 4 10000 y check_zero_pad_4). lia.
  - apply (zero_pad_digits 2 100 m check_zero_pad_2). lia.
  - apply (zero_pad_digits 2 100 d check_zero_pad_2). lia.
  - apply (zero_pad_digits 2 100 _ check_zero_pad_2).
    split; [apply Z.div_pos; lia | apply Z.div_lt_upper_bound; lia].
  - apply (zero_pad_digits 2 100 _ check_zero_pad_2).
    assert (0 <= secs mod 3600 < 3600) by (apply Z.mod_pos_bound; lia).
    split; [apply Z.div_pos; lia | apply Z.div_lt_upper_bound; lia].
  - apply (zero_pad_digits 2 100 _ check_zero_pad_2).
    assert (0 <= secs mod 60 < 60) by (apply Z.mod_pos_bound; lia). lia.
Qed.

(** *** Stamped documents *)

Lemma mkDoc_stamped e pk chg op h l :
  0 <= Timestamp e < 2 ^ 32 -> stamped l (mkDoc e pk chg op h l).
Proof. intros Hts. split; [exact Hts|reflexivity]. Qed.

(** A row event leaves the zone alone, keeps a stamped batch stamped and
    writes stamped documents only. *)
Lemma OnRow_keeps_stamped e h w l :
  loc h = Some l -> 0 <= Timestamp e < 2 ^ 32 -> Forall (stamped l) (batch h) ->
  loc (snd (fst (OnRow e h w))) = Some l /\
  Forall (stamped l) (batch (snd (fst (OnRow e h w)))) /\
  (forall id d, events (snd (OnRow e h w)) !! id = Some d ->
                events w !! id = Some d \/ stamped l d).
Proof.
  intros Hloc Hts Hb.
  assert (Hnew : forall pk chg op h1 l1,
            loc h1 = loc h -> loc h = Some l1 -> stamped l (mkDoc e pk chg op h1 l1)).
  { intros pk chg op h1 l1 _ Hl1. rewrite Hloc in Hl1. inversion Hl1; subst l1.
    apply mkDoc_stamped, Hts. }
  assert (Hadds : adds_only (stamped l) h w (OnRow e h w)).
  { unfold OnRow. destruct (PKColumns (table e)); [apply adds_only_here|].
    destruct (decide (Action e = InsertAction)).
    { apply (insert_rows_adds_only _ e (loc h)); [reflexivity|].
      intros row chg h1 l1 _ _. apply Hnew. }
    destruct (decide (Action e = DeleteAction)).
    { apply (delete_rows_adds_only _ e (loc h)); [reflexivity|].
      intros row chg h1 l1 _ _. apply Hnew. }
    destruct (decide (Action e = UpdateAction)); [|apply adds_only_here].
    apply (update_rows_adds_only _ e (loc h) _ 0%nat); [reflexivity|].
    intros j before after chg h1 l1 _ _ _ _. apply Hnew. }
  rewrite Forall_forall in Hb.
  destruct Hadds as (Hl' & Hb' & Hw'). split; [congruence|]. split.
  - apply Forall_forall. intros d Hd. destruct (Hb' d Hd) as [H0|Hs]; auto.
  - intros id d Hd. destruct (Hw' id d Hd) as [H0|[H0|Hs]]; auto.
Qed.

Lemma all_digits_nonempty (k : nat) (s t : string) :
  all_digits (S k) s = true -> s +:+ t <> "".
Proof.
  unfold all_digits. intros H. apply andb_prop in H as [H _].
  destruct s; [discriminate|]. rewrite append_cons. discriminate.
Qed.

(** A stamped document is encoded with a field [ts_ist] that holds its
    time in the layout "YYYY-MM-DD HH:MM:SS". *)
Lemma stamped_bson (l : Location) (d : EventDoc) :
  (forall t, -86400 <= l t <= 86400) -> stamped l d ->
  bson_field "ts_ist" (bson_of_EventDoc d) = Some (BString (format_datetime l (TS d))) /\
  datetime_layout (format_datetime l (TS d)).
Proof.
  intros Hl [Hts Hfmt].
  pose proof (format_datetime_layout l (TS d) Hl Hts) as Hlay.
  split; [|exact Hlay].
  assert (Hne : TSIST d <> "").
  { rewrite Hfmt. destruct Hlay as (Y & M & D & hh & mm & ss & HY & _ & _ & _ & _ & _ & ->).
    apply (all_digits_nonempty 3), HY. }
  unfold bson_of_EventDoc. cbn [app bson_field].
  rewrite !decide_False by discriminate.
  destruct (decide (Chg d = ∅)); cbn [app bson_field];
    rewrite !decide_False by first [discriminate | exact Hne];
    cbn [app bson_field]; rewrite decide_True by reflexivity; rewrite Hfmt; reflexivity.
Qed.

(** C8 (as amended).  Let the handler have a time zone at most a day from
    UTC and a stamped batch (the batch is empty at start-up and stays
    stamped), and let a row event with a 32-bit header timestamp arrive.
    Then the batch stays stamped, and every document that OnRow, or a
    later Flush of the batch, adds to the events collection is encoded
    with a field named ts_ist that holds the event time formatted as
    "YYYY-MM-DD HH:MM:SS" in that zone. *)
Theorem event_documents_carry_ts_ist (e : RowsEvent) (h : Handler) (w : World)
    (l : Location) :
  loc h = Some l -> (forall t, -86400 <= l t <= 86400) ->
  0 <= Timestamp e < 2 ^ 32 -> Forall (stamped l) (batch h) ->
  let h' := snd (fst (OnRow e h w)) in
  let w' := snd (OnRow e h w) in
  Forall (stamped l) (batch h') /\
  (forall id d, events w' !! id = Some d ->
     events w !! id = Some d \/
     (bson_field "ts_ist" (bson_of_EventDoc d)
        = Some (BString (format_datetime l (TS d))) /\
      datetime_layout (format_datetime l (TS d)))) /\
  (forall ctx id d, events (snd (Flush ctx h' w')) !! id = Some d ->
     events w' !! id = Some d \/
     (bson_field "ts_ist" (bson_of_EventDoc d)
        = Some (BString (format_datetime l (TS d))) /\
      datetime_layout (format_datetime l (TS d)))).
Proof.
  intros Hloc Hl Hts Hb h' w'.
  destruct (OnRow_keeps_stamped e h w l Hloc Hts Hb) as (Hl' & Hb' & Hw').
  fold h' in Hl', Hb'. fold w' in Hw'.
  split; [exact Hb'|]. split.
  - intros id d H. destruct (Hw' id d H) as [H0|Hs]; [left; exact H0|].
    right. apply stamped_bson; assumption.
  - intros ctx id d H.
    destruct (Flush_from ctx h' w' id d H) as [H0|Hin]; [left; exact H0|].
    right. apply stamped_bson; [assumption|].
    rewrite Forall_forall in Hb'. apply Hb', Hin.
Qed.

Lemma event_documents_carry_ts_ist_witness :
  exists d,
    written_sample_docs = [d] /\
    bson_field "ts_ist" (bson_of_EventDoc d) = Some (BString "2025-12-13 16:00:00").
Proof.
  pose (d := hd sample_doc written_sample_docs).
  exists d. split; [vm_compute; reflexivity|].
  destruct (event_documents_carry_ts_ist sample_update sample_handler empty_world Kolkata
              eq_refl ltac:(intros t; unfold Kolkata; lia) ltac:(simpl; lia)
              ltac:(constructor)) as (_ & _ & Hflush).
  assert (Hd : events (snd (Flush Background
                              (snd (fst (OnRow sample_update sample_handler empty_world)))
                              (snd (OnRow sample_update sample_handler empty_world))))
                 !! ID d = Some d) by (vm_compute; reflexivity).
  destruct (Hflush Background (ID d) d Hd) as [H0|[Hf _]].
  - vm_compute in H0. discriminate.
  - rewrite Hf. vm_compute. reflexivity.
Defined.

(** C8 as stated fails on the code: the document that the sample update
    leaves in the events collection has no field named ts_display; the
    formatted time is in the field ts_ist. *)
Lemma event_document_has_no_ts_display :
  exists d,
    written_sample_docs = [d] /\
    bson_field "ts_display" (bson_of_EventDoc d) = None /\
    bson_field "ts_ist" (bson_of_EventDoc d) = Some (BString "2025-12-13 16:00:00").
Proof.
  exists (hd sample_doc written_sample_docs). vm_compute. repeat split; reflexivity.
Qed.

(** ** Bounds of the slice accesses in OnRow *)

Lemma for_range_total {A : Type} (body : nat -> A -> option A) :
  forall (n i : nat) (a : A),
    (forall j x, (i <= j < i + n)%nat -> is_Some (body j x)) ->
    is_Some (for_range n i body a).
Proof.
  induction n as [|n IH]; intros i a Hbody; simpl; [eauto|].
  destruct (Hbody i a ltac:(lia)) as [a' ->]. apply IH.
  intros j x Hj. apply Hbody. lia.
Qed.

(** The column loop of an update reads no index out of range, whatever
    the three lengths are. *)
Lemma chg_update_total (colNames : list string) (before after : list value) :
  is_Some (chg_update colNames before after).
Proof.
  unfold chg_update. rewrite !maxIdx_min. apply for_range_total.
  intros j x Hj.
  destruct (lookup_lt_is_Some_2 colNames j ltac:(lia)) as [c ->].
  destruct (lookup_lt_is_Some_2 before j ltac:(lia)) as [b ->].
  destruct (lookup_lt_is_Some_2 after j ltac:(lia)) as [a ->].
  destruct (negb (DeepEqual b a)); eauto.
Qed.

Lemma addDoc_no_index_panic e pk chg op h w :
  fst (fst (addDoc e pk chg op h w)) <> Panicked IndexOutOfRange.
Proof.
  unfold addDoc. destruct (loc h) as [l|]; [|simpl; discriminate].
  match goal with
  | |- context [decide (100 <= length (batch ?hh))%nat] =>
      destruct (decide (100 <= length (batch hh))%nat)
  end; [|simpl; discriminate].
  destruct (writeBatchWithGTID _ _ _ _ _ _ _) as [[err|] w1]; simpl; discriminate.
Qed.

Lemma and_then_fst wrap r k :
  fst (fst (and_then wrap r k)) =
  match fst (fst r) with
  | Return None => fst (fst (k (snd (fst r)) (snd r)))
  | Return (Some err) => Return (Some (Wrapf wrap err))
  | Panicked p => Panicked p
  end.
Proof. destruct r as [[[[err|]|p] h] w]; reflexivity. Qed.

(** With an even number of rows left, the pairing loop reads the rows in
    range. *)
Lemma update_rows_even_in_bounds e :
  forall n i h w,
    (i + 2 * n = length (Rows e))%nat ->
    fst (fst (update_rows e n i h w)) <> Panicked IndexOutOfRange.
Proof.
  induction n as [|n IH]; intros i h w Hi; cbn [update_rows]; [simpl; discriminate|].
  destruct (lookup_lt_is_Some_2 (Rows e) i ltac:(lia)) as [before ->].
  destruct (lookup_lt_is_Some_2 (Rows e) (i + 1) ltac:(lia)) as [after ->].
  destruct (chg_update_total (Columns (table e)) before after) as [chg ->].
  rewrite and_then_fst.
  pose proof (addDoc_no_index_panic e (pkVal e after) chg "u" h w) as Hadd.
  destruct (addDoc e (pkVal e after) chg "u" h w) as [[[[err|]|p] h1] w1];
    simpl in *; try discriminate.
  - apply IH. lia.
  - congruence.
Qed.

(** With an odd number of rows left, the pairing loop cannot run to its
    end. *)
Lemma update_rows_odd_never_completes e :
  forall n i h w,
    (i + 2 * S n = length (Rows e) + 1)%nat ->
    fst (fst (update_rows e (S n) i h w)) <> Return None.
Proof.
  induction n as [|n IH]; intros i h w Hi; cbn [update_rows].
  - destruct (lookup_lt_is_Some_2 (Rows e) i ltac:(lia)) as [before ->].
    rewrite (lookup_ge_None_2 (Rows e) (i + 1)) by lia. simpl. discriminate.
  - destruct (lookup_lt_is_Some_2 (Rows e) i ltac:(lia)) as [before ->].
    destruct (lookup_lt_is_Some_2 (Rows e) (i + 1) ltac:(lia)) as [after ->].
    destruct (chg_update_total (Columns (table e)) before after) as [chg ->].
    rewrite and_then_fst.
    destruct (addDoc e (pkVal e after) chg "u" h w) as [[[[err|]|p] h1] w1];
      simpl; try discriminate.
    apply IH. lia.
Qed.

(** With an odd number of rows left and nothing to stop the loop early, it
    ends by reading one row past the end. *)
Lemma update_rows_odd_panics e l w :
  forall n i h,
    (i + 2 * S n = length (Rows e) + 1)%nat ->
    loc h = Some l -> (length (batch h) + n < 99)%nat ->
    fst (fst (update_rows e (S n) i h w)) = Panicked IndexOutOfRange.
Proof.
  induction n as [|n IH]; intros i h Hi Hloc Hlen; cbn [update_rows].
  - destruct (lookup_lt_is_Some_2 (Rows e) i ltac:(lia)) as [before ->].
    rewrite (lookup_ge_None_2 (Rows e) (i + 1)) by lia. reflexivity.
  - destruct (lookup_lt_is_Some_2 (Rows e) i ltac:(lia)) as [before ->].
    destruct (lookup_lt_is_Some_2 (Rows e) (i + 1) ltac:(lia)) as [after ->].
    destruct (chg_update_total (Columns (table e)) before after) as [chg ->].
    destruct (addDoc_below_threshold e (pkVal e after) chg "u" h w l Hloc ltac:(lia))
      as (h1 & doc & -> & Hb & Hl & _).
    cbn [and_then]. apply IH.
    + lia.
    + rewrite Hl. exact Hloc.
    + rewrite Hb, length_app. simpl. lia.
Qed.

Lemma update_iterations_odd (len : nat) :
  Nat.Odd len -> exists n, update_iterations len = S n /\ (2 * S n = len + 1)%nat.
Proof.
  intros [m ->]. unfold update_iterations. exists m.
  replace (S (2 * m + 1)) with (2 * S m)%nat by lia.
  rewrite Nat.div2_double. split; [reflexivity|lia].
Qed.

(** C9.  For an update event of a table with a primary key, OnRow reads
    the rows at i and i+1 for i = 0, 2, 4, ... below len(rows).  If
    len(rows) is even, no access is out of range, in any state.  If it is
    odd, OnRow never returns nil: unless a failed flush or a missing time
    zone stops it earlier, it reads rows[len(rows)] and panics; in
    particular it does so whenever the zone is set and the batch stays
    below the threshold. *)
Theorem update_rows_in_bounds_iff_even (e : RowsEvent) (h : Handler) (w : World) :
  Action e = UpdateAction -> PKColumns (table e) <> [] ->
  OnRow e h w = update_rows e (update_iterations (length (Rows e))) 0 h w /\
  (Nat.Even (length (Rows e)) ->
     fst (fst (OnRow e h w)) <> Panicked IndexOutOfRange) /\
  (Nat.Odd (length (Rows e)) ->
     fst (fst (OnRow e h w)) <> Return None /\
     forall l, loc h = Some l -> (length (batch h) + length (Rows e) < 100)%nat ->
               fst (fst (OnRow e h w)) = Panicked IndexOutOfRange).
Proof.
  intros Hact Hpk.
  assert (Heq : OnRow e h w
                = update_rows e (update_iterations (length (Rows e))) 0 h w).
  { unfold OnRow. destruct (PKColumns (table e)); [congruence|].
    rewrite Hact. rewrite !decide_False by discriminate.
    rewrite decide_True by reflexivity. reflexivity. }
  split; [exact Heq|]. rewrite Heq. split.
  - intros Heven. apply update_rows_even_in_bounds.
    pose proof (update_iterations_even _ Heven). lia.
  - intros Hodd. destruct (update_iterations_odd _ Hodd) as (n & -> & Hn). split.
    + apply update_rows_odd_never_completes. lia.
    + intros l Hloc Hlen. apply (update_rows_odd_panics e l); [lia|exact Hloc|lia].
Qed.

(** The sample update (two rows) is read in range; with a third row the
    loop reads rows[3] and panics. *)
Lemma update_rows_in_bounds_iff_even_witness :
  fst (fst (OnRow sample_update sample_handler empty_world))
    <> Panicked IndexOutOfRange /\
  fst (fst (OnRow sample_odd_update sample_handler empty_world))
    = Panicked IndexOutOfRange.
Proof.
  split.
  - destruct (update_rows_in_bounds_iff_even sample_update sample_handler empty_world
                eq_refl ltac:(discriminate)) as (_ & Heven & _).
    apply Heven. exists 1%nat. reflexivity.
  - destruct (update_rows_in_bounds_iff_even sample_odd_update sample_handler empty_world
                eq_refl ltac:(discriminate)) as (_ & _ & Hodd).
    destruct (Hodd ltac:(exists 1%nat; reflexivity)) as [_ Hpanic].
    apply (Hpanic Kolkata eq_refl). simpl. lia.
Defined.

(** * Further properties of main.go *)

(** ** What every step of a commit preserves *)

(** A relation between the world before and after that every store call,
    log line and sleep satisfies is satisfied by a whole commit, by every
    handler callback and by Recovery. *)
Section Preserved.
Variable R : World -> World -> Prop.
Hypothesis R_refl : forall w, R w w.
Hypothesis R_trans : forall w1 w2 w3, R w1 w2 -> R w2 w3 -> R w1 w3.
Hypothesis R_insert : forall doc w, R w (snd (staging_InsertOne doc w)).
Hypothesis R_session : forall w, R w (snd (StartSession w)).
Hypothesis R_bulk : forall docs w, R w (snd (events_BulkWrite docs w)).
Hypothesis R_upsert : forall s g f p w, R w (snd (offsets_Upsert s g f p w)).
Hypothesis R_mark : forall id st w, R w (snd (staging_SetStatus id st w)).
Hypothesis R_abort : forall w w1, R w w1 -> R w (emit EAbortTx (rollback w w1)).
Hypothesis R_rollback : forall w w1, R w w1 -> R w (rollback w w1).
Hypothesis R_commit : forall w, R w (snd (pop_fault (emit ECommitTx w))).
Hypothesis R_timer : forall rest w, R w (with_txTimer rest w).
Hypothesis R_warn :
  forall w, R w (if noTxWarningLogged w then w
                 else with_noTxWarningLogged true (log LogNoTxWarning w)).
Hypothesis R_log : forall m w, m <> LogNoTxWarning -> R w (log m w).
Hypothesis R_sleep : forall ctx d w, R w (snd (sleep ctx d w)).
Hypothesis R_now : forall w, R w (snd (Now w)).
Hypothesis R_find : forall w, R w (snd (staging_FindPending w)).
Hypothesis R_all : forall cursor w, R w (snd (cursor_All cursor w)).

Lemma txBody_preserves docs source gtid file pos w :
  R w (snd (txBody docs source gtid file pos w)).
Proof.
  unfold txBody. pose proof (R_bulk docs w) as Hb.
  destruct (events_BulkWrite docs w) as [err w1]. simpl in Hb.
  match goal with
  | |- context [match ?a with Some _ => _ | None => _ end] =>
      destruct a as [e|]; [exact Hb|]
  end.
  pose proof (R_upsert source gtid file pos w1) as Hu.
  destruct (offsets_Upsert source gtid file pos w1) as [[e|] w2]; simpl in *;
    eapply R_trans; eassumption.
Qed.

Lemma writeBatchWithoutTransaction_preserves docs source gtid file pos w :
  R w (snd (writeBatchWithoutTransaction docs source gtid file pos w)).
Proof.
  unfold writeBatchWithoutTransaction. pose proof (R_bulk docs w) as Hb.
  destruct (events_BulkWrite docs w) as [err w1]. simpl in Hb.
  match goal with
  | |- context [match ?a with Some _ => _ | None => _ end] =>
      destruct a as [e|]; [exact Hb|]
  end.
  pose proof (R_upsert source gtid file pos w1) as Hu.
  destruct (offsets_Upsert source gtid file pos w1) as [[e|] w2]; simpl in *;
    eapply R_trans; eassumption.
Qed.

Lemma writeBatchWithTransaction_preserves docs source gtid file pos w :
  R w (snd (writeBatchWithTransaction docs source gtid file pos w)).
Proof.
  unfold writeBatchWithTransaction. pose proof (R_session w) as Hs.
  destruct (StartSession w) as [[e|] w1]; simpl in Hs; [exact Hs|].
  eapply R_trans; [exact Hs|].
  apply (WithTransaction_preserves R _ R_trans
           (txBody_preserves docs source gtid file pos)
           R_abort R_rollback R_commit R_timer).
Qed.

Lemma commitAttempt_preserves batchID stagingDoc docs source gtid file pos ctx u w :
  R w (snd (commitAttempt batchID stagingDoc docs source gtid file pos ctx u w)).
Proof.
  unfold commitAttempt.
  pose proof (R_insert stagingDoc w) as H1.
  destruct (staging_InsertOne stagingDoc w) as [[e|] w1]; simpl in H1; [exact H1|].
  pose proof (writeBatchWithTransaction_preserves docs source gtid file pos w1) as H2.
  destruct (writeBatchWithTransaction docs source gtid file pos w1) as [[e|] w2];
    simpl in H2.
  - destruct (Contains (Error e) no_replica_set_msg || Contains (Error e) time_series_msg).
    + pose proof (R_warn w2) as H3.
      set (w3 := if noTxWarningLogged w2 then w2
                 else with_noTxWarningLogged true (log LogNoTxWarning w2)) in *.
      pose proof (writeBatchWithoutTransaction_preserves docs source gtid file pos w3) as H4.
      destruct (writeBatchWithoutTransaction docs source gtid file pos w3) as [[e'|] w4];
        simpl in H4.
      * simpl. eauto.
      * pose proof (R_mark batchID committed w4) as H5.
        destruct (staging_SetStatus batchID committed w4) as [r w5]. simpl in *. eauto 6.
    + simpl. eauto.
  - pose proof (R_mark batchID committed w2) as H5.
    destruct (staging_SetStatus batchID committed w2) as [r w5]. simpl in *. eauto.
Qed.

Lemma retry_loop_preserves {C : Type}
    (fn : Context -> C -> World -> option error * C * World) ctx N :
  (forall c w, R w (snd (fn ctx c w))) ->
  forall n attempt delay lastErr c w,
    R w (snd (retry_loop n ctx fn N attempt delay lastErr c w)).
Proof.
  intros Hfn. induction n as [|n IH]; intros attempt delay lastErr c w.
  - apply R_refl.
  - rewrite retry_loop_S. pose proof (Hfn c w) as H1.
    destruct (fn ctx c w) as [[[e|] c1] w1]; simpl in H1; [|exact H1].
    destruct (is_Canceled e || is_DeadlineExceeded e); [exact H1|].
    destruct ((attempt >=? N) || negb (isTransient e)).
    { simpl. destruct (isTransient e); [|exact H1].
      eapply R_trans; [exact H1|]. apply R_log. discriminate. }
    assert (H2 : R w1 (log (LogTransient (attempt + 1) N delay e) w1))
      by (apply R_log; discriminate).
    pose proof (R_sleep ctx delay (log (LogTransient (attempt + 1) N delay e) w1)) as H3.
    destruct (sleep ctx delay _) as [[ce|] w2]; simpl in H3.
    + simpl. eauto.
    + eapply R_trans; [exact H1|]. eapply R_trans; [exact H2|].
      eapply R_trans; [exact H3|apply IH].
Qed.

Lemma writeBatchWithGTID_preserves ctx docs source gtid file pos w :
  R w (snd (writeBatchWithGTID ctx docs source gtid file pos w)).
Proof.
  destruct docs as [|d0 docs'] eqn:Hd; [apply R_refl|]. rewrite <- Hd.
  rewrite writeBatchWithGTID_nonempty by (rewrite Hd; discriminate).
  cbv zeta. simpl snd. unfold retryWithBackoff.
  eapply R_trans; [apply R_now|]. eapply R_trans; [apply R_now|].
  apply retry_loop_preserves. intros c w'. apply commitAttempt_preserves.
Qed.

Lemma Flush_preserves ctx h w : R w (snd (Flush ctx h w)).
Proof.
  unfold Flush. destruct (batch h) as [|d0 b] eqn:Hb; [apply R_refl|].
  rewrite <- Hb.
  assert (H1 : R w (log (LogFlushing (length (batch h))) w))
    by (apply R_log; discriminate).
  pose proof (writeBatchWithGTID_preserves ctx (batch h) (source h) (batchGTID h)
                (batchFile h) (batchPos h) (log (LogFlushing (length (batch h))) w)) as H.
  destruct (writeBatchWithGTID _ _ _ _ _ _ _) as [[e|] w1]; simpl in *; eauto.
Qed.

Lemma addDoc_preserves e pk chg op h w : R w (snd (addDoc e pk chg op h w)).
Proof.
  unfold addDoc. destruct (loc h) as [l|]; [|apply R_refl].
  match goal with
  | |- context [decide (100 <= length (batch ?hh))%nat] =>
      set (h1 := hh); destruct (decide (100 <= length (batch h1))%nat)
  end; [|apply R_refl].
  pose proof (writeBatchWithGTID_preserves Background (batch h1) (source h1)
                (batchGTID h1) (batchFile h1) (batchPos h1) w) as H.
  destruct (writeBatchWithGTID _ _ _ _ _ _ _) as [[err|] w1]; exact H.
Qed.

Lemma and_then_preserves wrap w r k :
  R w (snd r) -> (forall h1 w1, R w1 (snd (k h1 w1))) ->
  R w (snd (and_then wrap r k)).
Proof.
  intros Hr Hk. destruct r as [[[[err|]|p] h1] w1]; simpl in *; eauto.
Qed.

Lemma insert_rows_preserves e : forall rows h w, R w (snd (insert_rows e rows h w)).
Proof.
  induction rows as [|row rows IH]; intros h w; simpl; [apply R_refl|].
  destruct (chg_insert (Columns (table e)) row); [|apply R_refl].
  apply and_then_preserves; [apply addDoc_preserves|apply IH].
Qed.

Lemma delete_rows_preserves e : forall rows h w, R w (snd (delete_rows e rows h w)).
Proof.
  induction rows as [|row rows IH]; intros h w; simpl; [apply R_refl|].
  destruct (chg_delete (Columns (table e)) row); [|apply R_refl].
  apply and_then_preserves; [apply addDoc_preserves|apply IH].
Qed.

Lemma update_rows_preserves e : forall n i h w, R w (snd (update_rows e n i h w)).
Proof.
  induction n as [|n IH]; intros i h w; cbn [update_rows]; [apply R_refl|].
  destruct (Rows e !! i) as [before|]; [|apply R_refl].
  destruct (Rows e !! (i + 1)%nat) as [after|]; [|apply R_refl].
  destruct (chg_update (Columns (table e)) before after); [|apply R_refl].
  apply and_then_preserves; [apply addDoc_preserves|apply IH].
Qed.

Lemma OnRow_preserves e h w : R w (snd (OnRow e h w)).
Proof.
  unfold OnRow. destruct (PKColumns (table e)); [apply R_refl|].
  destruct (decide (Action e = InsertAction)); [apply insert_rows_preserves|].
  destruct (decide (Action e = DeleteAction)); [apply delete_rows_preserves|].
  destruct (decide (Action e = UpdateAction)); [apply update_rows_preserves|].
  apply R_refl.
Qed.

Lemma OnTableChanged_preserves schema tbl h w :
  R w (snd (OnTableChanged schema tbl h w)).
Proof.
  unfold OnTableChanged.
  set (h1 := with_tableSchemas _ h).
  set (w1 := log _ w).
  assert (H1 : R w w1) by (apply R_log; discriminate).
  pose proof (Flush_preserves Background h1 w1) as H2.
  destruct (Flush Background h1 w1) as [[[e|] h2] w2]; simpl in *; [|eauto].
  eapply R_trans; [exact H1|]. eapply R_trans; [exact H2|]. apply R_log. discriminate.
Qed.

Lemma foldl_archive_preserves l : forall w, R w (foldl archive_one w l).
Proof.
  induction l as [|d l IH]; intros w; simpl; [apply R_refl|].
  eapply R_trans; [|apply IH]. unfold archive_one.
  eapply R_trans; [apply (R_log (LogRecovering (st_id d))); discriminate|apply R_mark].
Qed.

Lemma RecoverPendingBatches_preserves w : R w (snd (RecoverPendingBatches w)).
Proof.
  unfold RecoverPendingBatches. pose proof (R_find w) as H1.
  destruct (staging_FindPending w) as [[e|cursor] w1]; simpl in H1; [exact H1|].
  pose proof (R_all cursor w1) as H2.
  destruct (cursor_All cursor w1) as [[e|docs] w2]; simpl in H2; [simpl; eauto|].
  destruct docs as [|d0 docs]; [simpl; eauto|].
  cbn [snd]. eapply R_trans; [exact H1|]. eapply R_trans; [exact H2|].
  eapply R_trans; [|apply foldl_archive_preserves]. apply R_log. discriminate.
Qed.
End Preserved.

(** ** Documents are never removed *)

Lemma keeps_documents_refl w : keeps_documents w w.
Proof. split; auto. Qed.

Lemma keeps_documents_trans w1 w2 w3 :
  keeps_documents w1 w2 -> keeps_documents w2 w3 -> keeps_documents w1 w3.
Proof. intros [H1 H2] [H3 H4]. split; auto. Qed.

Lemma keeps_documents_eq w w' :
  events w' = events w -> staging w' = staging w -> keeps_documents w w'.
Proof. intros He Hs. unfold keeps_documents. rewrite He, Hs. auto. Qed.

Lemma foldl_bulk_insert_keeps (docs : list EventDoc) :
  forall m errs id d,
    m !! id = Some d -> fst (foldl bulk_insert_one (m, errs) docs) !! id = Some d.
Proof.
  induction docs as [|x docs IH]; intros m errs id d H; cbn [foldl]; [exact H|].
  destruct (bulk_insert_one_cases m errs x) as [[Hc _]|[Hx Hc]]; rewrite Hc.
  - apply IH, H.
  - apply IH. rewrite lookup_insert_ne; [exact H|]. intros Heq. congruence.
Qed.

Lemma events_BulkWrite_keeps docs w :
  keeps_documents w (snd (events_BulkWrite docs w)).
Proof.
  unfold events_BulkWrite, pop_fault. simpl.
  assert (Hk : forall fs,
            keeps_documents w
              (with_events (fst (foldl bulk_insert_one (events w, []) docs))
                 (with_faults fs (emit (EBulkWrite (map ID docs)) w)))).
  { intros fs. split; simpl; [|auto]. intros id d. apply foldl_bulk_insert_keeps. }
  case_fault w; simpl.
  - destruct (foldl bulk_insert_one (events w, []) docs) as [m errs] eqn:Hf.
    specialize (Hk []). simpl in Hk.
    destruct errs; simpl; split; simpl; apply Hk.
  - apply keeps_documents_eq; reflexivity.
  - destruct (foldl bulk_insert_one (events w, []) docs) as [m errs] eqn:Hf.
    specialize (Hk fs). simpl in Hk.
    destruct errs; simpl; split; simpl; apply Hk.
Qed.

Lemma keeps_documents_insert doc w w' :
  events w' = events w -> staging w' = <[st_id doc := doc]> (staging w) ->
  keeps_documents w w'.
Proof.
  intros He Hs. split; [rewrite He; auto|]. intros id Hid. rewrite Hs.
  destruct (decide (st_id doc = id)) as [<-|Hne].
  - rewrite lookup_insert_eq. eauto.
  - rewrite lookup_insert_ne by exact Hne. exact Hid.
Qed.

Lemma keeps_documents_alter f id w w' :
  events w' = events w -> staging w' = alter f id (staging w) ->
  keeps_documents w w'.
Proof.
  intros He Hs. split; [rewrite He; auto|]. intros k [d Hk]. rewrite Hs.
  destruct (decide (id = k)) as [<-|Hne].
  - rewrite lookup_alter_eq, Hk. simpl. eauto.
  - rewrite lookup_alter_ne by exact Hne. eauto.
Qed.

Lemma staging_InsertOne_keeps doc w :
  keeps_documents w (snd (staging_InsertOne doc w)).
Proof.
  unfold_store. case_fault w; simpl.
  - destruct (staging w !! st_id doc); simpl;
      [apply keeps_documents_eq | apply (keeps_documents_insert doc)]; reflexivity.
  - apply keeps_documents_eq; reflexivity.
  - destruct (staging w !! st_id doc); simpl;
      [apply keeps_documents_eq | apply (keeps_documents_insert doc)]; reflexivity.
Qed.

Lemma staging_SetStatus_keeps id st w :
  keeps_documents w (snd (staging_SetStatus id st w)).
Proof.
  unfold_store. case_fault w; simpl.
  - apply (keeps_documents_alter (set_status st (clock w)) id); reflexivity.
  - apply keeps_documents_eq; reflexivity.
  - apply (keeps_documents_alter (set_status st (clock w)) id); reflexivity.
Qed.

Lemma keeps_documents_abort w w1 :
  keeps_documents w w1 -> keeps_documents w (emit EAbortTx (rollback w w1)).
Proof. intros [He Hs]. split; simpl; auto. Qed.

Lemma keeps_documents_rollback w w1 :
  keeps_documents w w1 -> keeps_documents w (rollback w w1).
Proof. intros [He Hs]. split; simpl; auto. Qed.

Lemma keeps_documents_commit w :
  keeps_documents w (snd (pop_fault (emit ECommitTx w))).
Proof.
  unfold pop_fault. simpl. case_fault w; apply keeps_documents_eq; reflexivity.
Qed.

Lemma keeps_documents_timer rest w : keeps_documents w (with_txTimer rest w).
Proof. apply keeps_documents_eq; reflexivity. Qed.

(** No commit, handler callback or Recovery removes or changes an event
    document that is in the events collection, and none removes a staging
    document: whatever the store answers, what was there is still there. *)
Theorem documents_are_never_removed
    (ctx : Context) (docs : list EventDoc) (source gtid file : string) (pos : Z)
    (e : RowsEvent) (schema tbl : string) (h : Handler) (w : World) :
  keeps_documents w (snd (writeBatchWithGTID ctx docs source gtid file pos w)) /\
  keeps_documents w (snd (Flush ctx h w)) /\
  keeps_documents w (snd (OnRow e h w)) /\
  keeps_documents w (snd (OnTableChanged schema tbl h w)) /\
  keeps_documents w (snd (RecoverPendingBatches w)).
Proof.
  assert (Hfr : forall w0 w1 : World,
            events w1 = events w0 -> staging w1 = staging w0 -> keeps_documents w0 w1)
    by (intros; apply keeps_documents_eq; assumption).
  assert (Hup : forall s g f p w0, keeps_documents w0 (snd (offsets_Upsert s g f p w0))).
  { intros. unfold_store. case_fault w0; apply Hfr; reflexivity. }
  assert (Hse : forall w0, keeps_documents w0 (snd (StartSession w0))).
  { intros. unfold_store. case_fault w0; apply Hfr; reflexivity. }
  assert (Hwa : forall w0,
            keeps_documents w0 (if noTxWarningLogged w0 then w0
                                else with_noTxWarningLogged true (log LogNoTxWarning w0))).
  { intros. destruct (noTxWarningLogged w0); apply Hfr; reflexivity. }
  assert (Hlo : forall m w0, m <> LogNoTxWarning -> keeps_documents w0 (log m w0)).
  { intros. apply Hfr; reflexivity. }
  assert (Hsl : forall c d w0, keeps_documents w0 (snd (sleep c d w0))).
  { intros. apply Hfr; [apply events_sleep|apply staging_sleep]. }
  assert (Hno : forall w0, keeps_documents w0 (snd (Now w0))).
  { intros. apply Hfr; reflexivity. }
  assert (Hfi : forall w0, keeps_documents w0 (snd (staging_FindPending w0))).
  { intros. unfold staging_FindPending, pop_fault. simpl.
    case_fault w0; apply Hfr; reflexivity. }
  assert (Hal : forall cur w0, keeps_documents w0 (snd (cursor_All cur w0))).
  { intros. unfold cursor_All, pop_fault. simpl.
    case_fault w0; apply Hfr; reflexivity. }
  split; [|split; [|split; [|split]]].
  - apply (writeBatchWithGTID_preserves keeps_documents keeps_documents_refl
             keeps_documents_trans staging_InsertOne_keeps Hse events_BulkWrite_keeps
             Hup staging_SetStatus_keeps keeps_documents_abort keeps_documents_rollback
             keeps_documents_commit keeps_documents_timer Hwa Hlo Hsl Hno).
  - apply (Flush_preserves keeps_documents keeps_documents_refl
             keeps_documents_trans staging_InsertOne_keeps Hse events_BulkWrite_keeps
             Hup staging_SetStatus_keeps keeps_documents_abort keeps_documents_rollback
             keeps_documents_commit keeps_documents_timer Hwa Hlo Hsl Hno).
  - apply (OnRow_preserves keeps_documents keeps_documents_refl
             keeps_documents_trans staging_InsertOne_keeps Hse events_BulkWrite_keeps
             Hup staging_SetStatus_keeps keeps_documents_abort keeps_documents_rollback
             keeps_documents_commit keeps_documents_timer Hwa Hlo Hsl Hno).
  - apply (OnTableChanged_preserves keeps_documents keeps_documents_refl
             keeps_documents_trans staging_InsertOne_keeps Hse events_BulkWrite_keeps
             Hup staging_SetStatus_keeps keeps_documents_abort keeps_documents_rollback
             keeps_documents_commit keeps_documents_timer Hwa Hlo Hsl Hno).
  - apply (RecoverPendingBatches_preserves keeps_documents keeps_documents_refl
             keeps_documents_trans staging_SetStatus_keeps Hlo Hfi Hal).
Qed.

(** ** The warning about missing transactions *)

Lemma warnings_snoc (t : list Effect) (e : Effect) :
  e <> ELog LogNoTxWarning -> warnings (t ++ [e]) = warnings t.
Proof.
  intros He. unfold warnings. rewrite omap_app, length_app.
  destruct e as [| | | | | | | | | | |m| | |]; simpl; try lia.
  destruct m; simpl; try lia. congruence.
Qed.

Lemma warned_once_quiet w w' :
  warnings (trace w') = warnings (trace w) ->
  noTxWarningLogged w' = noTxWarningLogged w ->
  warned_once w -> warned_once w'.
Proof. unfold warned_once. intros -> ->. auto. Qed.

(** Closes a goal [warned_once w -> warned_once w'] where [w'] is [w]
    with other fields changed and effects other than the warning added. *)
Ltac quiet_step :=
  let H := fresh in
  intros H; refine (warned_once_quiet _ _ _ _ H); simpl;
  rewrite ?warnings_snoc by discriminate; reflexivity.

(** A sink that logged the warning at most once, and not before it set its
    flag, is still so after any commit, handler callback or Recovery: the
    warning about missing transactions is logged once per sink and not
    once per batch. *)
Theorem no_transaction_warning_logged_once
    (ctx : Context) (docs : list EventDoc) (source gtid file : string) (pos : Z)
    (e : RowsEvent) (schema tbl : string) (h : Handler) (w : World) :
  warned_once w ->
  warned_once (snd (writeBatchWithGTID ctx docs source gtid file pos w)) /\
  warned_once (snd (Flush ctx h w)) /\
  warned_once (snd (OnRow e h w)) /\
  warned_once (snd (OnTableChanged schema tbl h w)) /\
  warned_once (snd (RecoverPendingBatches w)).
Proof.
  set (R := fun w0 w1 : World => warned_once w0 -> warned_once w1).
  assert (Hre : forall w0, R w0 w0) by (intros w0 H; exact H).
  assert (Htr : forall w1 w2 w3, R w1 w2 -> R w2 w3 -> R w1 w3)
    by (intros w1 w2 w3 H1 H2 H; auto).
  assert (Hin : forall doc w0, R w0 (snd (staging_InsertOne doc w0))).
  { intros doc w0. unfold_store.
    case_fault w0; simpl; try destruct (staging w0 !! st_id doc); quiet_step. }
  assert (Hse : forall w0, R w0 (snd (StartSession w0))).
  { intros w0. unfold_store. case_fault w0; quiet_step. }
  assert (Hbu : forall ds w0, R w0 (snd (events_BulkWrite ds w0))).
  { intros ds w0. unfold events_BulkWrite, pop_fault. simpl.
    case_fault w0; simpl;
      try (destruct (foldl bulk_insert_one (events w0, []) ds) as [m [|c errs]]);
      quiet_step. }
  assert (Hup : forall s g f p w0, R w0 (snd (offsets_Upsert s g f p w0))).
  { intros s g f p w0. unfold_store. case_fault w0; quiet_step. }
  assert (Hma : forall id st w0, R w0 (snd (staging_SetStatus id st w0))).
  { intros id st w0. unfold_store. case_fault w0; quiet_step. }
  assert (Hab : forall w0 w1, R w0 w1 -> R w0 (emit EAbortTx (rollback w0 w1))).
  { intros w0 w1 Hb Hw. specialize (Hb Hw). revert Hb. quiet_step. }
  assert (Hrb : forall w0 w1, R w0 w1 -> R w0 (rollback w0 w1)).
  { intros w0 w1 Hb Hw. specialize (Hb Hw). revert Hb. quiet_step. }
  assert (Hco : forall w0, R w0 (snd (pop_fault (emit ECommitTx w0)))).
  { intros w0. unfold pop_fault. simpl. case_fault w0; quiet_step. }
  assert (Hti : forall rest w0, R w0 (with_txTimer rest w0)).
  { intros rest w0. quiet_step. }
  assert (Hwa : forall w0,
            R w0 (if noTxWarningLogged w0 then w0
                  else with_noTxWarningLogged true (log LogNoTxWarning w0))).
  { intros w0 Hq. destruct (noTxWarningLogged w0) eqn:Hflag; [exact Hq|].
    destruct Hq as [H1 H2]. specialize (H2 Hflag).
    unfold warned_once, log, emit, warnings in *. simpl.
    rewrite omap_app, length_app, H2. simpl. split; [lia|discriminate]. }
  assert (Hlo : forall m w0, m <> LogNoTxWarning -> R w0 (log m w0)).
  { intros m w0 Hm Hq. unfold log, emit.
    refine (warned_once_quiet _ _ _ _ Hq); simpl; [|reflexivity].
    apply warnings_snoc. congruence. }
  assert (Hsl : forall c d w0, R w0 (snd (sleep c d w0))).
  { intros c d w0. unfold sleep, emit. simpl.
    destruct c; [|destruct (interrupts w0) as [|[ce|] rest]]; quiet_step. }
  assert (Hno : forall w0, R w0 (snd (Now w0))) by (intros w0; quiet_step).
  assert (Hfi : forall w0, R w0 (snd (staging_FindPending w0))).
  { intros w0. unfold staging_FindPending, pop_fault, emit. simpl.
    case_fault w0; quiet_step. }
  assert (Hal : forall cur w0, R w0 (snd (cursor_All cur w0))).
  { intros cur w0. unfold cursor_All, pop_fault, emit. simpl.
    case_fault w0; quiet_step. }
  intros Hw. split; [|split; [|split; [|split]]].
  - exact (writeBatchWithGTID_preserves R Hre Htr Hin Hse Hbu Hup Hma Hab Hrb Hco Hti Hwa Hlo Hsl Hno
             ctx docs source gtid file pos w Hw).
  - exact (Flush_preserves R Hre Htr Hin Hse Hbu Hup Hma Hab Hrb Hco Hti Hwa Hlo Hsl Hno ctx h w Hw).
  - exact (OnRow_preserves R Hre Htr Hin Hse Hbu Hup Hma Hab Hrb Hco Hti Hwa Hlo Hsl Hno e h w Hw).
  - exact (OnTableChanged_preserves R Hre Htr Hin Hse Hbu Hup Hma Hab Hrb Hco Hti Hwa Hlo Hsl Hno
             schema tbl h w Hw).
  - exact (RecoverPendingBatches_preserves R Hre Htr Hma Hlo Hfi Hal w Hw).
Qed.

(** A store without transactions logs the warning when the first commit
    falls back, and the statement covers that run. *)
Lemma no_transaction_warning_logged_once_witness :
  warned_once standalone_world /\
  warnings (trace (snd (writeBatchWithGTID Background [sample_doc]
                          "mysql://127.0.0.1:3306" "uuid:1-5" "binlog.000001" 4
                          standalone_world))) = 1%nat /\
  warned_once (snd (writeBatchWithGTID Background [sample_doc]
                      "mysql://127.0.0.1:3306" "uuid:1-5" "binlog.000001" 4
                      standalone_world)).
Proof.
  assert (H : warned_once standalone_world) by (split; [vm_compute; lia|reflexivity]).
  split; [exact H|]. split; [vm_compute; reflexivity|].
  apply (no_transaction_warning_logged_once Background [sample_doc]
           "mysql://127.0.0.1:3306" "uuid:1-5" "binlog.000001" 4
           sample_update "shop" "orders" sample_handler standalone_world H).
Defined.

(** ** A commit on a store that fails no call *)

Lemma with_faults_same w : with_faults (faults w) w = w.
Proof. destruct w; reflexivity. Qed.

Lemma Forall_tl {A : Type} (P : A -> Prop) (l : list A) : Forall P l -> Forall P (tl l).
Proof. intros H. destruct H; simpl; auto. Qed.

Lemma pop_fault_healthy w :
  no_faults w -> pop_fault w = (None, with_faults (tl (faults w)) w).
Proof.
  unfold no_faults, pop_fault. intros H. destruct (faults w) as [|f fs] eqn:Hf.
  - simpl. rewrite <- Hf, with_faults_same. reflexivity.
  - inversion H; subst. reflexivity.
Qed.

Lemma healthy_after_trans es1 es2 w1 w2 w3 :
  healthy_after es1 w1 w2 -> healthy_after es2 w2 w3 ->
  healthy_after (es1 ++ es2) w1 w3.
Proof.
  intros (_ & Ht1 & Hf1) (Hn & Ht2 & Hf2). split; [exact Hn|]. split.
  - rewrite Ht2, Ht1, <- app_assoc. reflexivity.
  - rewrite Hf2. exact Hf1.
Qed.

(** Solves [no_faults] of a world built from a healthy one. *)
Ltac healthy :=
  unfold no_faults in *; simpl; repeat apply Forall_tl; assumption.

Lemma staging_InsertOne_healthy doc w :
  no_faults w -> staging w !! st_id doc = None ->
  exists w', staging_InsertOne doc w = (None, w') /\
    healthy_after [EInsertStaging (st_id doc)] w w' /\
    events w' = events w /\ offsets w' = offsets w /\
    staging w' = <[st_id doc := doc]> (staging w).
Proof.
  intros Hnf Hfresh. unfold staging_InsertOne.
  rewrite pop_fault_healthy by healthy. simpl. rewrite Hfresh.
  eexists. split; [reflexivity|]. unfold healthy_after. simpl.
  repeat split; auto. healthy.
Qed.

Lemma StartSession_healthy w :
  no_faults w ->
  exists w', StartSession w = (None, w') /\ healthy_after [EStartSession] w w' /\
    same_store w w'.
Proof.
  intros Hnf. unfold StartSession. rewrite pop_fault_healthy by healthy.
  eexists. split; [reflexivity|]. unfold healthy_after, same_store. simpl.
  repeat split; auto. healthy.
Qed.

Lemma foldl_bulk_insert_fresh (docs : list EventDoc) :
  forall m errs,
    fresh_ids docs m ->
    snd (foldl bulk_insert_one (m, errs) docs) = errs /\
    forall d, d ∈ docs -> fst (foldl bulk_insert_one (m, errs) docs) !! ID d = Some d.
Proof.
  induction docs as [|x docs IH]; intros m errs [Hnd Hfree]; cbn [foldl].
  - split; [reflexivity|]. intros d Hd. apply elem_of_nil in Hd. contradiction.
  - simpl in Hnd. apply NoDup_cons in Hnd as [Hx Hnd].
    unfold bulk_insert_one at 2 4. rewrite (Hfree x (list_elem_of_here _ _)).
    destruct (IH (<[ID x := x]> m) errs) as [He Hin].
    { split; [exact Hnd|]. intros d Hd.
      rewrite lookup_insert_ne; [apply Hfree, list_elem_of_further, Hd|].
      intros Heq. apply Hx. rewrite Heq. apply list_elem_of_In, in_map, list_elem_of_In, Hd. }
    split; [exact He|]. intros d Hd. apply elem_of_cons in Hd as [->|Hd].
    + apply foldl_bulk_insert_keeps, lookup_insert_eq.
    + apply Hin, Hd.
Qed.

(** The bulk insert on a healthy store: the documents whose id is free
    are inserted; the call returns nil when the ids of the batch are fresh,
    and the driver's duplicate-key exception when one is taken. *)
Lemma events_BulkWrite_healthy docs w :
  no_faults w ->
  exists r w', events_BulkWrite docs w = (r, w') /\
    healthy_after [EBulkWrite (map ID docs)] w w' /\
    events w' = bulk_events docs (events w) /\ offsets w' = offsets w /\
    staging w' = staging w /\
    (fresh_ids docs (events w) -> r = None) /\
    ((exists d, d ∈ docs /\ is_Some (events w !! ID d)) ->
     exists errs, errs <> [] /\ Forall (fun c => c = 11000) errs /\
                  r = Some (BulkWriteException None errs [] "bulk write exception")).
Proof.
  intros Hnf. unfold events_BulkWrite, bulk_events.
  rewrite pop_fault_healthy by healthy.
  cbn [events with_faults emit with_trace].
  destruct (foldl_bulk_insert_errs docs (events w) []) as (more & Hs & Hall & Hne).
  pose proof (foldl_bulk_insert_fresh docs (events w) []) as Hfr.
  destruct (foldl bulk_insert_one (events w, []) docs) as [m errs]. simpl in Hs, Hfr.
  subst errs.
  destruct more as [|c more]; do 2 eexists; (split; [reflexivity|]);
    unfold healthy_after; simpl; repeat split; auto; try healthy.
  - intros Hdup. exfalso. exact (Hne Hdup eq_refl).
  - intros Hfresh. destruct (Hfr Hfresh) as [Hnil _]. discriminate.
  - intros _. exists (c :: more). auto.
Qed.

Lemma offsets_Upsert_healthy source gtid file pos w :
  no_faults w ->
  exists w' t, offsets_Upsert source gtid file pos w = (None, w') /\
    healthy_after [EUpsertOffset source gtid file pos] w w' /\
    events w' = events w /\ staging w' = staging w /\
    offsets w' = <[source := {| of_source := source; of_gtid := gtid; of_file := file;
                                of_pos := pos; of_updatedAt := t |}]> (offsets w).
Proof.
  intros Hnf. unfold offsets_Upsert, Now. cbv zeta.
  rewrite pop_fault_healthy by healthy.
  do 2 eexists. split; [reflexivity|]. unfold healthy_after. simpl.
  repeat split; auto. healthy.
Qed.

Lemma staging_SetStatus_healthy id st w :
  no_faults w ->
  exists w' t, staging_SetStatus id st w = (None, w') /\
    healthy_after [EMarkStaging id st] w w' /\
    events w' = events w /\ offsets w' = offsets w /\
    staging w' = alter (set_status st t) id (staging w).
Proof.
  intros Hnf. unfold staging_SetStatus, Now. cbv zeta.
  rewrite pop_fault_healthy by healthy.
  do 2 eexists. split; [reflexivity|]. unfold healthy_after. simpl.
  repeat split; auto. healthy.
Qed.

Lemma txBody_healthy docs source gtid file pos w :
  no_faults w -> fresh_ids docs (events w) ->
  exists w' t, txBody docs source gtid file pos w = (None, w') /\
    healthy_after [EBulkWrite (map ID docs); EUpsertOffset source gtid file pos] w w' /\
    events w' = bulk_events docs (events w) /\ staging w' = staging w /\
    offsets w' = <[source := {| of_source := source; of_gtid := gtid; of_file := file;
                                of_pos := pos; of_updatedAt := t |}]> (offsets w).
Proof.
  intros Hnf Hfresh. unfold txBody.
  destruct (events_BulkWrite_healthy docs w Hnf)
    as (r & w1 & -> & Hh1 & He1 & Ho1 & Hs1 & Hr & _).
  rewrite (Hr Hfresh).
  destruct (offsets_Upsert_healthy source gtid file pos w1 (proj1 Hh1))
    as (w2 & t & -> & Hh2 & He2 & Hs2 & Ho2).
  exists w2, t. split; [reflexivity|].
  split; [exact (healthy_after_trans _ _ _ _ _ Hh1 Hh2)|].
  rewrite He2, He1, Hs2, Hs1, Ho2, Ho1. auto.
Qed.

Lemma writeBatchWithTransaction_healthy docs source gtid file pos w :
  no_faults w -> fresh_ids docs (events w) ->
  exists w' t, writeBatchWithTransaction docs source gtid file pos w = (None, w') /\
    healthy_after [EStartSession; EBulkWrite (map ID docs);
                   EUpsertOffset source gtid file pos; ECommitTx] w w' /\
    events w' = bulk_events docs (events w) /\ staging w' = staging w /\
    offsets w' = <[source := {| of_source := source; of_gtid := gtid; of_file := file;
                                of_pos := pos; of_updatedAt := t |}]> (offsets w).
Proof.
  intros Hnf Hfresh. unfold writeBatchWithTransaction.
  destruct (StartSession_healthy w Hnf) as (w1 & -> & Hh1 & He1 & Ho1 & Hs1).
  rewrite <- He1 in Hfresh.
  destruct (txBody_healthy docs source gtid file pos w1 (proj1 Hh1) Hfresh)
    as (w2 & t & Hbody & Hh2 & He2 & Hs2 & Ho2).
  assert (Hnf2 : no_faults w2) by exact (proj1 Hh2).
  rewrite (WithTransaction_commits _ w1 w2 _ Hbody
             (pop_fault_healthy (emit ECommitTx w2) ltac:(healthy))).
  eexists. exists t. split; [reflexivity|].
  pose proof (healthy_after_trans _ _ _ _ _ Hh1 Hh2) as (_ & Ht & Hf).
  unfold healthy_after. simpl. rewrite Ht, Hf, He2, He1, Hs2, Hs1, Ho2, Ho1.
  repeat split; auto; [healthy|]. rewrite <- !app_assoc. reflexivity.
Qed.

Lemma commitAttempt_healthy stagingDoc docs source gtid file pos ctx u w :
  no_faults w -> staging w !! st_id stagingDoc = None -> fresh_ids docs (events w) ->
  exists w' t t',
    commitAttempt (st_id stagingDoc) stagingDoc docs source gtid file pos ctx u w
      = (None, u, w') /\
    healthy_after (commit_effects (st_id stagingDoc) docs source gtid file pos) w w' /\
    events w' = bulk_events docs (events w) /\
    offsets w' = <[source := {| of_source := source; of_gtid := gtid; of_file := file;
                                of_pos := pos; of_updatedAt := t |}]> (offsets w) /\
    staging w' = <[st_id stagingDoc := set_status committed t' stagingDoc]> (staging w).
Proof.
  intros Hnf Hfree Hfresh. unfold commitAttempt.
  destruct (staging_InsertOne_healthy stagingDoc w Hnf Hfree)
    as (w1 & -> & Hh1 & He1 & Ho1 & Hs1).
  rewrite <- He1 in Hfresh.
  destruct (writeBatchWithTransaction_healthy docs source gtid file pos w1 (proj1 Hh1)
              Hfresh)
    as (w2 & t & -> & Hh2 & He2 & Hs2 & Ho2).
  destruct (staging_SetStatus_healthy (st_id stagingDoc) committed w2 (proj1 Hh2))
    as (w3 & t' & -> & Hh3 & He3 & Ho3 & Hs3).
  exists w3, t, t'. split; [reflexivity|]. split.
  - exact (healthy_after_trans _ _ _ _ _ (healthy_after_trans _ _ _ _ _ Hh1 Hh2) Hh3).
  - rewrite He3, He2, He1, Ho3, Ho2, Ho1, Hs3, Hs2, Hs1.
    repeat split; auto. rewrite alter_insert_eq. reflexivity.
Qed.

Lemma retryWithBackoff_commit {C : Type} ctx
    (fn : Context -> C -> World -> option error * C * World) c w :
  retryWithBackoff ctx fn 5 (100 * Millisecond) c w
  = retry_loop 6 ctx fn 5 0 (100 * Millisecond) None c w.
Proof. reflexivity. Qed.

(** The equation of a commit in terms of the staging document and of the
    loop of the harness. *)
Lemma writeBatchWithGTID_staged ctx docs source gtid file pos w :
  docs <> [] ->
  writeBatchWithGTID ctx docs source gtid file pos w =
  let sd := staged_batch docs source gtid file pos (clock w) (clock w + 1) in
  let run := retry_loop 6 ctx
               (commitAttempt (st_id sd) sd docs source gtid file pos)
               5 0 (100 * Millisecond) None tt (snd (Now (snd (Now w)))) in
  (fst (fst run), snd run).
Proof.
  intros Hd. rewrite writeBatchWithGTID_nonempty by exact Hd. reflexivity.
Qed.

(** On a store that fails no call, a commit of a non-empty batch whose
    event ids differ from one another and are not in the events collection,
    under a batch id that is not in staging, returns nil after one attempt
    and without sleeping: it issues the staging insert, the session, the
    bulk insert, the offset upsert, the transaction commit and the staging
    update, in this order and nothing else.  Afterwards every document of
    the batch is in the events collection under its id, the offset record
    of the source holds the committed position, and the staging collection
    has gained the batch, marked committed. *)
Theorem commit_on_a_healthy_store
    (ctx : Context) (docs : list EventDoc) (source gtid file : string) (pos : Z)
    (w : World) :
  docs <> [] -> no_faults w ->
  staging w !! mkBatchID source (clock w) gtid = None ->
  fresh_ids docs (events w) ->
  exists w' t t',
    writeBatchWithGTID ctx docs source gtid file pos w = (None, w') /\
    trace w' = (trace w ++ commit_effects (mkBatchID source (clock w) gtid) docs
                             source gtid file pos)%list /\
    events w' = bulk_events docs (events w) /\
    (forall d, d ∈ docs -> events w' !! ID d = Some d) /\
    offsets w' = <[source := {| of_source := source; of_gtid := gtid; of_file := file;
                                of_pos := pos; of_updatedAt := t |}]> (offsets w) /\
    staging w' = <[mkBatchID source (clock w) gtid :=
                     set_status committed t'
                       (staged_batch docs source gtid file pos (clock w) (clock w + 1))]>
                   (staging w) /\
    no_faults w'.
Proof.
  intros Hd Hnf Hfree Hfresh. rewrite writeBatchWithGTID_staged by exact Hd. cbv zeta.
  set (sd := staged_batch docs source gtid file pos (clock w) (clock w + 1)).
  assert (Hnf0 : no_faults (snd (Now (snd (Now w))))) by healthy.
  destruct (commitAttempt_healthy sd docs source gtid file pos ctx tt
              (snd (Now (snd (Now w)))) Hnf0 Hfree Hfresh)
    as (w' & t & t' & Hrun & (Hn & Ht & _) & He & Ho & Hs).
  rewrite retry_loop_S, Hrun.
  exists w', t, t'. repeat split; auto.
  intros d Hin. rewrite He. unfold bulk_events.
  apply (foldl_bulk_insert_fresh docs (events w) [] Hfresh), Hin.
Qed.

Lemma commit_on_a_healthy_store_witness :
  exists w' t t',
    writeBatchWithGTID Background [sample_doc] "mysql://127.0.0.1:3306" "uuid:1-5"
      "binlog.000001" 4 empty_world = (None, w') /\
    trace w' = (trace empty_world
                ++ commit_effects (mkBatchID "mysql://127.0.0.1:3306" (clock empty_world)
                                     "uuid:1-5")
                     [sample_doc] "mysql://127.0.0.1:3306" "uuid:1-5" "binlog.000001" 4)%list /\
    events w' = bulk_events [sample_doc] (events empty_world) /\
    (forall d, d ∈ [sample_doc] -> events w' !! ID d = Some d) /\
    offsets w' = <["mysql://127.0.0.1:3306" :=
                     {| of_source := "mysql://127.0.0.1:3306"; of_gtid := "uuid:1-5";
                        of_file := "binlog.000001"; of_pos := 4; of_updatedAt := t |}]>
                   (offsets empty_world) /\
    staging w' = <[mkBatchID "mysql://127.0.0.1:3306" (clock empty_world) "uuid:1-5" :=
                     set_status committed t'
                       (staged_batch [sample_doc] "mysql://127.0.0.1:3306" "uuid:1-5"
                          "binlog.000001" 4 (clock empty_world) (clock empty_world + 1))]>
                   (staging empty_world) /\
    no_faults w'.
Proof.
  apply (commit_on_a_healthy_store Background [sample_doc] "mysql://127.0.0.1:3306"
           "uuid:1-5" "binlog.000001" 4 empty_world);
    [discriminate | constructor | reflexivity |].
  split; [repeat constructor; apply not_elem_of_nil|]. intros d _. reflexivity.
Defined.

(** ** Replaying a batch *)

(** A batch that holds an event whose id is already in the events
    collection (a batch that is replayed after a crash, or after a restart
    from an older position) is refused: on a store that fails no call the
    commit stages the batch, the bulk insert inside the transaction meets
    the taken id, and the commit returns the driver's duplicate-key
    exception after one attempt, without a sleep.  The transaction is
    aborted, so that the events and the offsets are what they were, and the
    staged batch stays pending. *)
Theorem replayed_batch_is_refused
    (ctx : Context) (docs : list EventDoc) (source gtid file : string) (pos : Z)
    (w : World) :
  no_faults w ->
  staging w !! mkBatchID source (clock w) gtid = None ->
  (exists d, d ∈ docs /\ is_Some (events w !! ID d)) ->
  exists errs w',
    errs <> [] /\ Forall (fun c => c = 11000) errs /\
    writeBatchWithGTID ctx docs source gtid file pos w
    = (Some (BulkWriteException None errs [] "bulk write exception"), w') /\
    trace w' = (trace w ++ [EInsertStaging (mkBatchID source (clock w) gtid);
                            EStartSession; EBulkWrite (map ID docs); EAbortTx])%list /\
    events w' = events w /\ offsets w' = offsets w /\
    staging w' = <[mkBatchID source (clock w) gtid :=
                     staged_batch docs source gtid file pos (clock w) (clock w + 1)]>
                   (staging w).
Proof.
  intros Hnf Hfree Hdup.
  assert (Hd : docs <> []).
  { destruct Hdup as (d & Hin & _). intros ->. apply elem_of_nil in Hin. contradiction. }
  rewrite writeBatchWithGTID_staged by exact Hd. cbv zeta.
  set (sd := staged_batch docs source gtid file pos (clock w) (clock w + 1)).
  assert (Hnf0 : no_faults (snd (Now (snd (Now w))))) by healthy.
  rewrite retry_loop_S. unfold commitAttempt.
  destruct (staging_InsertOne_healthy sd (snd (Now (snd (Now w)))) Hnf0 Hfree)
    as (w1 & -> & (Hnf1 & Ht1 & _) & He1 & Ho1 & Hs1).
  unfold writeBatchWithTransaction.
  destruct (StartSession_healthy w1 Hnf1) as (w2 & -> & (Hnf2 & Ht2 & _) & He2 & Ho2 & Hs2).
  destruct (events_BulkWrite_healthy docs w2 Hnf2)
    as (r & w3 & Hb & (_ & Ht3 & _) & _ & _ & Hs3 & _ & Hr).
  destruct Hr as (errs & Hne & Hall & ->).
  { rewrite He2, He1. exact Hdup. }
  destruct (bulk_exception_is_returned docs source gtid file pos w2 w3 _ _ _ _ Hb)
    as (Htx & _).
  destruct (WithTransaction_fails _ w2 _ w3 Htx eq_refl)
    as (w4 & -> & He4 & Ho4 & Hs4 & _ & _ & Ht4).
  exists errs, w4. split; [exact Hne|]. split; [exact Hall|].
  split; [reflexivity|].
  rewrite Ht4, Ht3, Ht2, Ht1, He4, He2, He1, Ho4, Ho2, Ho1, Hs4, Hs3, Hs2, Hs1.
  rewrite <- !app_assoc. repeat split; reflexivity.
Qed.

Lemma replayed_batch_is_refused_witness :
  exists errs w',
    errs <> [] /\ Forall (fun c => c = 11000) errs /\
    writeBatchWithGTID Background [sample_doc] "mysql://127.0.0.1:3306" "uuid:1-9"
      "binlog.000002" 120 replay_world
    = (Some (BulkWriteException None errs [] "bulk write exception"), w') /\
    trace w' = (trace replay_world
                ++ [EInsertStaging (mkBatchID "mysql://127.0.0.1:3306" (clock replay_world)
                                      "uuid:1-9");
                    EStartSession; EBulkWrite (map ID [sample_doc]); EAbortTx])%list /\
    events w' = events replay_world /\ offsets w' = offsets replay_world /\
    staging w' = <[mkBatchID "mysql://127.0.0.1:3306" (clock replay_world) "uuid:1-9" :=
                     staged_batch [sample_doc] "mysql://127.0.0.1:3306" "uuid:1-9"
                       "binlog.000002" 120 (clock replay_world) (clock replay_world + 1)]>
                   (staging replay_world).
Proof.
  apply (replayed_batch_is_refused Background [sample_doc]
           "mysql://127.0.0.1:3306" "uuid:1-9" "binlog.000002" 120 replay_world);
    [constructor | reflexivity |].
  exists sample_doc. split; [apply list_elem_of_here|]. exists sample_doc. reflexivity.
Defined.

(** ** When the offset moves *)

Lemma offset_is_eq source gtid file pos w w' :
  offsets w' = offsets w -> offset_is source gtid file pos w ->
  offset_is source gtid file pos w'.
Proof. unfold offset_is. intros ->. auto. Qed.

Lemma offsets_staging_InsertOne doc w :
  offsets (snd (staging_InsertOne doc w)) = offsets w.
Proof.
  unfold_store. case_fault w; simpl; try destruct (staging w !! st_id doc); reflexivity.
Qed.

Lemma offsets_StartSession w : offsets (snd (StartSession w)) = offsets w.
Proof. unfold_store. case_fault w; reflexivity. Qed.

Lemma offsets_events_BulkWrite docs w :
  offsets (snd (events_BulkWrite docs w)) = offsets w.
Proof.
  unfold events_BulkWrite, pop_fault. simpl.
  case_fault w; simpl;
    try (destruct (foldl bulk_insert_one (events w, []) docs) as [m [|c errs]]);
    reflexivity.
Qed.

Lemma offsets_staging_SetStatus id st w :
  offsets (snd (staging_SetStatus id st w)) = offsets w.
Proof. unfold_store. case_fault w; reflexivity. Qed.

Lemma offsets_sleep ctx d w : offsets (snd (sleep ctx d w)) = offsets w.
Proof.
  unfold sleep, emit. simpl.
  destruct ctx; [|destruct (interrupts w) as [|[ce|] rest]]; reflexivity.
Qed.

(** The upsert either fails and leaves the offsets alone, or stores the
    position. *)
Lemma offsets_Upsert_outcome source gtid file pos w :
  match offsets_Upsert source gtid file pos w with
  | (None, w') => offset_is source gtid file pos w'
  | (Some _, w') => offsets w' = offsets w
  end.
Proof.
  unfold_store. unfold offset_is.
  case_fault w; simpl; try reflexivity; eexists; apply lookup_insert_eq.
Qed.

Lemma writeBatchWithoutTransaction_offset docs source gtid file pos w :
  match writeBatchWithoutTransaction docs source gtid file pos w with
  | (None, w') => offset_is source gtid file pos w'
  | (Some _, w') => offsets w' = offsets w
  end.
Proof.
  unfold writeBatchWithoutTransaction.
  pose proof (offsets_events_BulkWrite docs w) as Hb.
  destruct (events_BulkWrite docs w) as [err w1]. simpl in Hb.
  match goal with
  | |- context [match ?a with Some _ => _ | None => _ end] =>
      destruct a as [e|]; [exact Hb|]
  end.
  pose proof (offsets_Upsert_outcome source gtid file pos w1) as Hu.
  destruct (offsets_Upsert source gtid file pos w1) as [[e|] w2];
    [congruence|exact Hu].
Qed.

Lemma txBody_offset docs source gtid file pos w :
  match txBody docs source gtid file pos w with
  | (None, w') => offset_is source gtid file pos w'
  | (Some _, w') => True
  end.
Proof.
  unfold txBody. destruct (events_BulkWrite docs w) as [err w1].
  match goal with
  | |- context [match ?a with Some _ => _ | None => _ end] =>
      destruct a as [e|]; [exact I|]
  end.
  pose proof (offsets_Upsert_outcome source gtid file pos w1) as Hu.
  destruct (offsets_Upsert source gtid file pos w1) as [[e|] w2]; [exact I|exact Hu].
Qed.

Lemma offsets_pop_fault w : offsets (snd (pop_fault w)) = offsets w.
Proof. unfold pop_fault. case_fault w; reflexivity. Qed.

(** However often the driver runs the callback or the commit again, the
    transaction ends committed with the position stored, or failed with
    the offsets as they were. *)
Lemma tx_loop_offset docs source gtid file pos :
  forall timer resume w,
    match resume with
    | Some w1 => offset_is source gtid file pos w1
    | None => True
    end ->
    match tx_loop timer resume (txBody docs source gtid file pos) w with
    | (None, w') => offset_is source gtid file pos w'
    | (Some _, w') => offsets w' = offsets w
    end.
Proof.
  induction timer as [|fired rest IH]; intros resume w Hres; cbn [tx_loop].
  - assert (Hrun : match (match resume with
                          | Some w1 => (None, w1)
                          | None => txBody docs source gtid file pos w
                          end) with
                   | (None, w1) => offset_is source gtid file pos w1
                   | (Some _, _) => True
                   end) by (destruct resume; [exact Hres|apply txBody_offset]).
    destruct (match resume with
              | Some w1 => (None, w1)
              | None => txBody docs source gtid file pos w
              end) as [[e|] w1]; [reflexivity|].
    pose proof (offsets_pop_fault (emit ECommitTx w1)) as Hc.
    destruct (pop_fault (emit ECommitTx w1)) as [[e|] w2]; simpl in Hc; [reflexivity|].
    exact (offset_is_eq _ _ _ _ _ _ Hc Hrun).
  - assert (Hrun : match (match resume with
                          | Some w1 => (None, w1)
                          | None => txBody docs source gtid file pos w
                          end) with
                   | (None, w1) => offset_is source gtid file pos w1
                   | (Some _, _) => True
                   end) by (destruct resume; [exact Hres|apply txBody_offset]).
    destruct (match resume with
              | Some w1 => (None, w1)
              | None => txBody docs source gtid file pos w
              end) as [[e|] w1].
    + destruct fired; [reflexivity|].
      destruct (has_label TransientTransactionError e); [|reflexivity].
      specialize (IH None (with_txTimer rest (emit EAbortTx (rollback w w1))) I).
      destruct (tx_loop rest None _ _) as [[e'|] w']; exact IH.
    + pose proof (offsets_pop_fault (emit ECommitTx w1)) as Hc.
      destruct (pop_fault (emit ECommitTx w1)) as [[e|] w2]; simpl in Hc;
        [|exact (offset_is_eq _ _ _ _ _ _ Hc Hrun)].
      destruct fired; [reflexivity|].
      destruct (after_failed_commit e); [| |reflexivity].
      * apply IH. apply (offset_is_eq _ _ _ _ w1); [exact Hc|exact Hrun].
      * specialize (IH None (rollback w (with_txTimer rest w2)) I).
        destruct (tx_loop rest None _ _) as [[e'|] w']; exact IH.
Qed.

Lemma writeBatchWithTransaction_offset docs source gtid file pos w :
  match writeBatchWithTransaction docs source gtid file pos w with
  | (None, w') => offset_is source gtid file pos w'
  | (Some _, w') => offsets w' = offsets w
  end.
Proof.
  unfold writeBatchWithTransaction. pose proof (offsets_StartSession w) as Hs.
  destruct (StartSession w) as [[e|] w1]; simpl in Hs; [exact Hs|].
  pose proof (tx_loop_offset docs source gtid file pos (txTimer w1) None w1 I) as H.
  unfold WithTransaction.
  destruct (tx_loop (txTimer w1) None _ w1) as [[e|] w']; [congruence|exact H].
Qed.

Lemma commitAttempt_offset batchID stagingDoc docs source gtid file pos ctx u w :
  match commitAttempt batchID stagingDoc docs source gtid file pos ctx u w with
  | (None, _, w') => offset_is source gtid file pos w'
  | (Some _, _, w') => offsets w' = offsets w
  end.
Proof.
  unfold commitAttempt.
  pose proof (offsets_staging_InsertOne stagingDoc w) as H1.
  destruct (staging_InsertOne stagingDoc w) as [[e|] w1]; simpl in H1; [exact H1|].
  pose proof (writeBatchWithTransaction_offset docs source gtid file pos w1) as H2.
  destruct (writeBatchWithTransaction docs source gtid file pos w1) as [[e|] w2].
  - destruct (Contains (Error e) no_replica_set_msg || Contains (Error e) time_series_msg).
    + set (w3 := if noTxWarningLogged w2 then w2
                 else with_noTxWarningLogged true (log LogNoTxWarning w2)).
      assert (H3 : offsets w3 = offsets w2)
        by (subst w3; destruct (noTxWarningLogged w2); reflexivity).
      pose proof (writeBatchWithoutTransaction_offset docs source gtid file pos w3) as H4.
      destruct (writeBatchWithoutTransaction docs source gtid file pos w3) as [[e'|] w4].
      * congruence.
      * pose proof (offsets_staging_SetStatus batchID committed w4) as H5.
        destruct (staging_SetStatus batchID committed w4) as [r w5]. simpl in H5.
        exact (offset_is_eq _ _ _ _ _ _ H5 H4).
    + congruence.
  - pose proof (offsets_staging_SetStatus batchID committed w2) as H5.
    destruct (staging_SetStatus batchID committed w2) as [r w5]. simpl in H5.
    exact (offset_is_eq _ _ _ _ _ _ H5 H2).
Qed.

(** What the harness returns in terms of its attempts: with [F] a relation
    that failed attempts, log lines and sleeps satisfy, and [Q] a property
    that a successful attempt establishes, the harness returns an error
    with [F] between its first and its last world, or nil with [Q]. *)
Lemma retry_loop_outcome {C : Type} (F : World -> World -> Prop) (Q : World -> Prop)
    (fn : Context -> C -> World -> option error * C * World) ctx N :
  (forall w, F w w) ->
  (forall w1 w2 w3, F w1 w2 -> F w2 w3 -> F w1 w3) ->
  (forall m w, F w (log m w)) ->
  (forall d w, F w (snd (sleep ctx d w))) ->
  (forall c w, match fn ctx c w with
               | (None, _, w') => Q w'
               | (Some _, _, w') => F w w'
               end) ->
  forall n attempt delay lastErr c w,
    lastErr <> None \/ n <> O ->
    match retry_loop n ctx fn N attempt delay lastErr c w with
    | (None, _, w') => Q w'
    | (Some _, _, w') => F w w'
    end.
Proof.
  intros Hre Htr Hlo Hsl Hfn. induction n as [|n IH]; intros attempt delay lastErr c w Hne.
  - simpl. destruct lastErr; [apply Hre|]. destruct Hne; congruence.
  - rewrite retry_loop_S. pose proof (Hfn c w) as H1.
    destruct (fn ctx c w) as [[[e|] c1] w1]; [|exact H1].
    destruct (is_Canceled e || is_DeadlineExceeded e); [exact H1|].
    destruct ((attempt >=? N) || negb (isTransient e)).
    { destruct (isTransient e); [|exact H1]. eapply Htr; [exact H1|apply Hlo]. }
    pose proof (Hsl delay (log (LogTransient (attempt + 1) N delay e) w1)) as H3.
    destruct (sleep ctx delay _) as [[ce|] w2]; simpl in H3.
    + eapply Htr; [exact H1|]. eapply Htr; [apply Hlo|exact H3].
    + assert (H4 : F w w2).
      { eapply Htr; [exact H1|]. eapply Htr; [apply Hlo|exact H3]. }
      assert (Hsome : Some e <> None \/ n <> O) by (left; discriminate).
      specialize (IH (attempt + 1)
                     (if wrap64 (delay * 2) >? 10 * Second then 10 * Second
                      else wrap64 (delay * 2)) (Some e) c1 w2 Hsome).
      destruct (retry_loop n ctx fn N _ _ (Some e) c1 w2) as [[[e'|] c'] w'];
        [eapply Htr; eassumption|exact IH].
Qed.

Lemma commit_loop_offset stagingDoc docs source gtid file pos ctx w :
  match retry_loop 6 ctx
          (commitAttempt (st_id stagingDoc) stagingDoc docs source gtid file pos)
          5 0 (100 * Millisecond) None tt w with
  | (None, _, w') => offset_is source gtid file pos w'
  | (Some _, _, w') => offsets w' = offsets w
  end.
Proof.
  apply (retry_loop_outcome
           (fun w0 w1 => offsets w1 = offsets w0) (offset_is source gtid file pos)
           (commitAttempt (st_id stagingDoc) stagingDoc docs source gtid file pos) ctx 5
           (fun _ => eq_refl)
           (fun w1 w2 w3 H1 H2 => eq_trans H2 H1)
           (fun _ _ => eq_refl)
           (fun d w0 => offsets_sleep ctx d w0)
           (fun c w0 => commitAttempt_offset (st_id stagingDoc) stagingDoc docs source
                          gtid file pos ctx c w0)
           6%nat 0 (100 * Millisecond) None tt w (or_intror (Nat.neq_succ_0 5))).
Qed.

(** The offset record moves exactly when the commit succeeds: a commit
    that returns nil has stored the position of the batch for its source,
    and a commit that returns an error, whatever it wrote to the events and
    staging collections on the way, leaves the offsets collection as it
    was. *)
Theorem offset_moves_iff_commit_succeeds
    (ctx : Context) (docs : list EventDoc) (source gtid file : string) (pos : Z)
    (w : World) :
  docs <> [] ->
  match writeBatchWithGTID ctx docs source gtid file pos w with
  | (None, w') => offset_is source gtid file pos w'
  | (Some _, w') => offsets w' = offsets w
  end.
Proof.
  intros Hd. rewrite writeBatchWithGTID_staged by exact Hd. cbv zeta.
  set (sd := staged_batch docs source gtid file pos (clock w) (clock w + 1)).
  pose proof (commit_loop_offset sd docs source gtid file pos ctx
                (snd (Now (snd (Now w))))) as H.
  destruct (retry_loop 6 ctx _ 5 0 (100 * Millisecond) None tt _) as [[[e|] u] w'];
    exact H.
Qed.

(** When the store fails the commit of the transaction, the commit
    returns the error and the offsets are what they were. *)
Lemma offset_moves_iff_commit_succeeds_witness :
  fst (writeBatchWithGTID Background [sample_doc] "mysql://127.0.0.1:3306" "uuid:1-5"
         "binlog.000001" 4 commit_fails_world)
  = Some (OtherError "transaction aborted") /\
  match writeBatchWithGTID Background [sample_doc] "mysql://127.0.0.1:3306" "uuid:1-5"
          "binlog.000001" 4 commit_fails_world with
  | (None, w') => offset_is "mysql://127.0.0.1:3306" "uuid:1-5" "binlog.000001" 4 w'
  | (Some _, w') => offsets w' = offsets commit_fails_world
  end.
Proof.
  split; [vm_compute; reflexivity|].
  apply (offset_moves_iff_commit_succeeds Background [sample_doc]
           "mysql://127.0.0.1:3306" "uuid:1-5" "binlog.000001" 4 commit_fails_world).
  discriminate.
Defined.

(** ** Flush *)

(** Flush empties the batch exactly when the commit went through.  When
    it returns nil the batch is empty and, if there was something to
    commit, the offset record holds the position of the batch.  When it
    returns an error, the error is the one of the commit wrapped with
    "flush batch", the handler is unchanged, so that the batch is kept for
    the next flush, and the offsets are what they were. *)
Theorem Flush_clears_batch_iff_committed (ctx : Context) (h : Handler) (w : World) :
  match Flush ctx h w with
  | (None, h', w') =>
      batch h' = [] /\
      (batch h <> [] ->
       h' = with_batch [] h /\
       offset_is (source h) (batchGTID h) (batchFile h) (batchPos h) w')
  | (Some e, h', w') =>
      h' = h /\ batch h <> [] /\ offsets w' = offsets w /\
      exists e0, e = Wrapf "flush batch" e0
  end.
Proof.
  unfold Flush. destruct (batch h) as [|d0 b] eqn:Hb.
  - split; [exact Hb|]. congruence.
  - rewrite <- Hb. assert (Hne : batch h <> []) by (rewrite Hb; discriminate).
    set (w0 := log (LogFlushing (length (batch h))) w).
    assert (H : match writeBatchWithGTID ctx (batch h) (source h) (batchGTID h)
                        (batchFile h) (batchPos h) w0 with
                | (None, w') =>
                    offset_is (source h) (batchGTID h) (batchFile h) (batchPos h) w'
                | (Some _, w') => offsets w' = offsets w
                end).
    { rewrite writeBatchWithGTID_staged by exact Hne. cbv zeta.
      set (sd := staged_batch _ _ _ _ _ _ _).
      pose proof (commit_loop_offset sd (batch h) (source h) (batchGTID h) (batchFile h)
                    (batchPos h) ctx (snd (Now (snd (Now w0))))) as Hout.
      destruct (retry_loop 6 ctx _ 5 0 (100 * Millisecond) None tt _) as [[[e|] u] w'];
        exact Hout. }
    destruct (writeBatchWithGTID _ _ _ _ _ _ _) as [[e|] w'].
    + repeat split; eauto.
    + split; [reflexivity|]. intros _. split; [reflexivity|exact H].
Qed.

(** ** Schema changes *)

(** C10.  OnTableChanged returns nil in every state.  It removes the
    entry "schema.table" from the schema cache, logs the change and
    flushes the batch; when the flush fails, its error is logged and the
    batch is kept, and when it succeeds the batch is empty.  The flush is
    one commit of the batch at the position of the batch: with an empty
    batch nothing is written; a commit that returns nil has moved the
    offset record of the source to that position, and a commit that fails
    leaves the offsets as they were and its error, wrapped with "flush
    batch", in the log.  On a store that fails no call, with the batch id
    free and the event ids fresh, the commit goes through: every event of
    the batch is in the events collection and the store calls are those of
    one transactional commit. *)
Theorem OnTableChanged_returns_nil (schema tbl : string) (h : Handler) (w : World) :
  let key := schema +:+ "." +:+ tbl in
  let h0 := with_tableSchemas (delete key (tableSchemas h)) h in
  let flushed := Flush Background h0 (log (LogSchemaChange key) w) in
  let w0 := log (LogFlushing (length (batch h))) (log (LogSchemaChange key) w) in
  let '(err, h', w') := OnTableChanged schema tbl h w in
  err = None /\
  tableSchemas h' = delete key (tableSchemas h) /\
  h' = snd (fst flushed) /\
  match fst (fst flushed) with
  | Some e => w' = log (LogFlushError e) (snd flushed) /\ batch h' = batch h
  | None => w' = snd flushed /\ batch h' = []
  end /\
  (batch h = [] -> h' = h0 /\ w' = log (LogSchemaChange key) w) /\
  (batch h <> [] ->
   match writeBatchWithGTID Background (batch h) (source h) (batchGTID h) (batchFile h)
           (batchPos h) w0 with
   | (None, w1) =>
       h' = with_batch [] h0 /\ w' = w1 /\
       offset_is (source h) (batchGTID h) (batchFile h) (batchPos h) w'
   | (Some e, w1) =>
       h' = h0 /\ w' = log (LogFlushError (Wrapf "flush batch" e)) w1 /\
       offsets w' = offsets w
   end) /\
  (batch h <> [] -> no_faults w ->
   staging w !! mkBatchID (source h) (clock w) (batchGTID h) = None ->
   fresh_ids (batch h) (events w) ->
   h' = with_batch [] h0 /\
   (forall d, d ∈ batch h -> events w' !! ID d = Some d) /\
   offset_is (source h) (batchGTID h) (batchFile h) (batchPos h) w' /\
   trace w' = (trace w
               ++ [ELog (LogSchemaChange key); ELog (LogFlushing (length (batch h)))]
               ++ commit_effects (mkBatchID (source h) (clock w) (batchGTID h)) (batch h)
                    (source h) (batchGTID h) (batchFile h) (batchPos h))%list).
Proof.
  intros key h0 flushed w0. subst flushed. unfold OnTableChanged. fold key. fold h0.
  unfold Flush.
  change (batch h0) with (batch h). change (source h0) with (source h).
  change (batchGTID h0) with (batchGTID h). change (batchFile h0) with (batchFile h).
  change (batchPos h0) with (batchPos h).
  destruct (batch h) as [|d0 b] eqn:Hb.
  - cbn [fst snd]. repeat split; auto; congruence.
  - subst w0. rewrite <- Hb. assert (Hne : batch h <> []) by (rewrite Hb; discriminate).
    set (w0 := log (LogFlushing (length (batch h))) (log (LogSchemaChange key) w)).
    assert (Hoff : match writeBatchWithGTID Background (batch h) (source h) (batchGTID h)
                           (batchFile h) (batchPos h) w0 with
                   | (None, w1) =>
                       offset_is (source h) (batchGTID h) (batchFile h) (batchPos h) w1
                   | (Some _, w1) => offsets w1 = offsets w
                   end).
    { rewrite writeBatchWithGTID_staged by exact Hne. cbv zeta.
      set (sd := staged_batch _ _ _ _ _ _ _).
      pose proof (commit_loop_offset sd (batch h) (source h) (batchGTID h) (batchFile h)
                    (batchPos h) Background (snd (Now (snd (Now w0))))) as Hout.
      destruct (retry_loop 6 Background _ 5 0 (100 * Millisecond) None tt _)
        as [[[e|] u] w1]; exact Hout. }
    assert (Hgo : no_faults w ->
                  staging w !! mkBatchID (source h) (clock w) (batchGTID h) = None ->
                  fresh_ids (batch h) (events w) ->
                  exists w1,
                    writeBatchWithGTID Background (batch h) (source h) (batchGTID h)
                      (batchFile h) (batchPos h) w0 = (None, w1) /\
                    (forall d, d ∈ batch h -> events w1 !! ID d = Some d) /\
                    trace w1 = (trace w0
                                ++ commit_effects
                                     (mkBatchID (source h) (clock w) (batchGTID h)) (batch h)
                                     (source h) (batchGTID h) (batchFile h) (batchPos h))%list).
    { intros Hnf Hfree Hfresh.
      rewrite writeBatchWithGTID_staged by exact Hne. cbv zeta.
      change (clock w0) with (clock w).
      set (sd := staged_batch (batch h) (source h) (batchGTID h) (batchFile h) (batchPos h)
                   (clock w) (clock w + 1)).
      assert (Hnf0 : no_faults (snd (Now (snd (Now w0))))) by healthy.
      destruct (commitAttempt_healthy sd (batch h) (source h) (batchGTID h) (batchFile h)
                  (batchPos h) Background tt (snd (Now (snd (Now w0)))) Hnf0 Hfree Hfresh)
        as (w1 & t & t' & Hrun & (_ & Ht & _) & He & _ & _).
      rewrite retry_loop_S, Hrun. exists w1. split; [reflexivity|]. split; [|exact Ht].
      intros d Hin. rewrite He. unfold bulk_events.
      apply (foldl_bulk_insert_fresh (batch h) (events w) [] Hfresh), Hin. }
    destruct (writeBatchWithGTID Background (batch h) (source h) (batchGTID h)
                (batchFile h) (batchPos h) w0) as [[e|] w1]; cbn [fst snd].
    + split; [reflexivity|]. split; [reflexivity|]. split; [reflexivity|].
      split; [split; reflexivity|]. split; [intros Hnil; contradiction|].
      split; [intros _; repeat split; auto|].
      intros _ Hnf Hfree Hfresh. destruct (Hgo Hnf Hfree Hfresh) as (w2 & Heq & _).
      discriminate.
    + split; [reflexivity|]. split; [reflexivity|]. split; [reflexivity|].
      split; [split; reflexivity|]. split; [intros Hnil; contradiction|].
      split; [intros _; repeat split; auto|].
      intros _ Hnf Hfree Hfresh.
      destruct (Hgo Hnf Hfree Hfresh) as (w2 & Heq & Hev & Ht).
      inversion Heq; subst w2. split; [reflexivity|]. split; [exact Hev|].
      split; [exact Hoff|]. rewrite Ht. unfold w0. simpl. rewrite <- !app_assoc.
      reflexivity.
Qed.

(** With one event in the batch and a healthy store, the schema change
    commits the event and its position and empties the batch.  On a store
    that already holds the event, the commit is refused with the
    duplicate-key exception; OnTableChanged still returns nil, keeps the
    batch and leaves the offsets empty. *)
Lemma OnTableChanged_returns_nil_witness :
  (fst (fst (OnTableChanged "shop" "orders" loaded_handler empty_world)) = None /\
   batch (snd (fst (OnTableChanged "shop" "orders" loaded_handler empty_world))) = [] /\
   events (snd (OnTableChanged "shop" "orders" loaded_handler empty_world)) !! "e1"
   = Some sample_doc /\
   offset_is "mysql://127.0.0.1:3306" "uuid:1-5" "binlog.000001" 4
     (snd (OnTableChanged "shop" "orders" loaded_handler empty_world))) /\
  (fst (fst (OnTableChanged "shop" "orders" loaded_handler replay_world)) = None /\
   batch (snd (fst (OnTableChanged "shop" "orders" loaded_handler replay_world)))
   = [sample_doc] /\
   offsets (snd (OnTableChanged "shop" "orders" loaded_handler replay_world)) = ∅).
Proof.
  split.
  - pose proof (OnTableChanged_returns_nil "shop" "orders" loaded_handler empty_world) as H.
    cbv zeta in H.
    destruct (OnTableChanged "shop" "orders" loaded_handler empty_world) as [[err h'] w'].
    destruct H as (Herr & _ & _ & _ & _ & _ & Hgo).
    destruct Hgo as (Hh & Hev & Hoff & _).
    + discriminate.
    + constructor.
    + reflexivity.
    + split; [repeat constructor; apply not_elem_of_nil|]. intros d _. reflexivity.
    + cbn [fst snd]. split; [exact Herr|]. split; [rewrite Hh; reflexivity|].
      split; [|exact Hoff]. apply (Hev sample_doc). apply list_elem_of_here.
  - pose proof (OnTableChanged_returns_nil "shop" "orders" loaded_handler replay_world) as H.
    cbv zeta in H.
    destruct (OnTableChanged "shop" "orders" loaded_handler replay_world) as [[err h'] w'].
    destruct H as (Herr & _ & _ & _ & _ & Hc & _).
    specialize (Hc ltac:(discriminate)).
    destruct (writeBatchWithGTID Background (batch loaded_handler) (source loaded_handler)
                (batchGTID loaded_handler) (batchFile loaded_handler)
                (batchPos loaded_handler) _) as [[e|] w1] eqn:Hw.
    + destruct Hc as (Hh & _ & Ho). cbn [fst snd]. split; [exact Herr|].
      split; [rewrite Hh; reflexivity|]. rewrite Ho. reflexivity.
    + vm_compute in Hw. discriminate.
Defined.

(** ** The backoff of a commit and of the offset load *)

(** Counting the executions of the operation does not change the run. *)
Lemma retry_loop_counted_erase {C : Type}
    (fn : Context -> C -> World -> option error * C * World) ctx (N : Z) :
  forall (n : nat) attempt delay lastErr c k w,
    fst (fst (retry_loop n ctx (counted fn) N attempt delay lastErr (c, k) w))
    = fst (fst (retry_loop n ctx fn N attempt delay lastErr c w)) /\
    fst (snd (fst (retry_loop n ctx (counted fn) N attempt delay lastErr (c, k) w)))
    = snd (fst (retry_loop n ctx fn N attempt delay lastErr c w)) /\
    snd (retry_loop n ctx (counted fn) N attempt delay lastErr (c, k) w)
    = snd (retry_loop n ctx fn N attempt delay lastErr c w).
Proof.
  induction n as [|n IH]; intros attempt delay lastErr c k w.
  - simpl. auto.
  - rewrite !retry_loop_S, counted_eq.
    destruct (fn ctx c w) as [[[e|] c1] w1]; simpl; [|auto].
    destruct (is_Canceled e || is_DeadlineExceeded e); simpl; [auto|].
    destruct ((attempt >=? N) || negb (isTransient e)); simpl; [auto|].
    destruct (sleep ctx delay _) as [[ce|] w2]; simpl; [auto|]. apply IH.
Qed.

Lemma retry_loop_sleeps {C : Type}
    (fn : Context -> C -> World -> option error * C * World) ctx c w :
  sleep_free fn ->
  exists j : nat,
    (j <= 5)%nat /\
    sleeps (trace (snd (retry_loop 6 ctx fn 5 0 (100 * Millisecond) None c w)))
    = (sleeps (trace w) ++ map (backoff (100 * Millisecond)) (seq 0 j))%list.
Proof.
  intros Hfree.
  destruct (retry_loop_counted_erase fn ctx 5 6 0 (100 * Millisecond) None c 0%nat w)
    as (_ & _ & <-).
  destruct (retry_loop 6 ctx (counted fn) 5 0 (100 * Millisecond) None (c, 0%nat) w)
    as [[r [c' k']] w'] eqn:Hrun.
  destruct (retry_loop_counted fn ctx 5 (100 * Millisecond) Hfree eq_refl
              ltac:(unfold Second, Millisecond; lia)
              6%nat 0%nat None c 0%nat w r c' k' w' eq_refl Hrun)
    as (j & _ & _ & Hj & _ & _ & Hs).
  exists j. split; [lia|exact Hs].
Qed.

Lemma total_backoff_commit (j : nat) :
  (j <= 5)%nat ->
  total (map (backoff (100 * Millisecond)) (seq 0 j)) <= 3100 * Millisecond.
Proof.
  intros Hj. do 6 (destruct j as [|j]; [vm_compute; discriminate|]). lia.
Qed.

(** Appending an effect that is not a sleep leaves the sleeps alone. *)
Ltac sleeps_step :=
  simpl; rewrite ?sleeps_app; simpl; rewrite ?app_nil_r; reflexivity.

Lemma sleep_free_commitAttempt batchID stagingDoc docs source gtid file pos :
  sleep_free (commitAttempt batchID stagingDoc docs source gtid file pos).
Proof.
  intros ctx u w.
  apply (commitAttempt_preserves
           (fun w0 w1 => sleeps (trace w1) = sleeps (trace w0))).
  - intros w1 w2 w3 H1 H2. congruence.
  - intros doc w0. unfold_store.
    case_fault w0; simpl; try destruct (staging w0 !! st_id doc); sleeps_step.
  - intros w0. unfold_store. case_fault w0; sleeps_step.
  - intros ds w0. unfold events_BulkWrite, pop_fault. simpl.
    case_fault w0; simpl;
      try (destruct (foldl bulk_insert_one (events w0, []) ds) as [m [|c errs]]);
      sleeps_step.
  - intros s g f p w0. unfold_store. case_fault w0; sleeps_step.
  - intros id st w0. unfold_store. case_fault w0; sleeps_step.
  - intros w0 w1 <-. unfold emit. sleeps_step.
  - intros w0 w1 <-. reflexivity.
  - intros w0. unfold pop_fault, emit. simpl. case_fault w0; sleeps_step.
  - intros rest w0. reflexivity.
  - intros w0. destruct (noTxWarningLogged w0); [reflexivity|].
    unfold log, emit. sleeps_step.
Qed.

Lemma sleeps_offsets_FindOneById source w :
  sleeps (trace (snd (offsets_FindOneById source w))) = sleeps (trace w).
Proof.
  unfold offsets_FindOneById, pop_fault, emit. simpl.
  case_fault w; simpl; try destruct (offsets w !! source); sleeps_step.
Qed.

Lemma sleeps_offsets_FindOneBySource source w :
  sleeps (trace (snd (offsets_FindOneBySource source w))) = sleeps (trace w).
Proof.
  unfold offsets_FindOneBySource, pop_fault, emit. simpl.
  case_fault w; simpl;
    try match goal with
        | |- context [match ?x with [] => _ | _ :: _ => _ end] => destruct x
        end; sleeps_step.
Qed.

Lemma sleep_free_loadAttempt source : sleep_free (loadAttempt source).
Proof.
  intros ctx g w. unfold loadAttempt.
  pose proof (sleeps_offsets_FindOneById source w) as H1.
  destruct (offsets_FindOneById source w) as [[err|d] w1]; simpl in *; [|exact H1].
  pose proof (sleeps_offsets_FindOneBySource source w1) as H2.
  destruct (offsets_FindOneBySource source w1) as [r2 w2]; simpl in *.
  destruct (negb (is_ErrNoDocuments err)); simpl; congruence.
Qed.

(** A commit and a load of the stored position sleep for a prefix of the
    sequence 100, 200, 400, 800, 1600 ms and for nothing else, whatever
    the store answers: the backoff of one call adds up to at most 3.1 s. *)
Theorem commit_and_load_backoff_bounded
    (ctx : Context) (docs : list EventDoc) (source gtid file : string) (pos : Z)
    (w : World) :
  (exists j : nat,
     (j <= 5)%nat /\
     sleeps (trace (snd (writeBatchWithGTID ctx docs source gtid file pos w)))
     = (sleeps (trace w) ++ map (backoff (100 * Millisecond)) (seq 0 j))%list /\
     total (map (backoff (100 * Millisecond)) (seq 0 j)) <= 3100 * Millisecond) /\
  (exists j : nat,
     (j <= 5)%nat /\
     sleeps (trace (snd (loadGTID ctx source w)))
     = (sleeps (trace w) ++ map (backoff (100 * Millisecond)) (seq 0 j))%list /\
     total (map (backoff (100 * Millisecond)) (seq 0 j)) <= 3100 * Millisecond).
Proof.
  split.
  - destruct docs as [|d0 docs'] eqn:Hd.
    + exists 0%nat. simpl. rewrite app_nil_r. repeat split; [lia|vm_compute; discriminate].
    + rewrite <- Hd. rewrite writeBatchWithGTID_staged by (rewrite Hd; discriminate).
      cbv zeta. set (sd := staged_batch _ _ _ _ _ _ _).
      destruct (retry_loop_sleeps
                  (commitAttempt (st_id sd) sd docs source gtid file pos) ctx tt
                  (snd (Now (snd (Now w))))
                  (sleep_free_commitAttempt _ _ _ _ _ _ _)) as (j & Hj & Hs).
      exists j. split; [exact Hj|]. split; [exact Hs|]. apply total_backoff_commit, Hj.
  - destruct (retry_loop_sleeps (loadAttempt source) ctx "" w
                (sleep_free_loadAttempt source)) as (j & Hj & Hs).
    exists j. split; [exact Hj|]. split; [|apply total_backoff_commit, Hj].
    rewrite <- Hs. unfold loadGTID. rewrite retryWithBackoff_commit.
    destruct (retry_loop 6 ctx (loadAttempt source) 5 0 (100 * Millisecond) None "" w)
      as [[[e|] g] w']; simpl;
      repeat match goal with
             | |- context [if ?b then _ else _] => destruct b
             end; reflexivity.
Qed.

(** ** What the harness returns *)

Lemma recorded_eq {C : Type} (fn : Context -> C -> World -> option error * C * World)
    ctx c l w :
  recorded fn ctx (c, l) w =
  (fst (fst (fn ctx c w)),
   (snd (fst (fn ctx c w)), (l ++ [fst (fst (fn ctx c w))])%list), snd (fn ctx c w)).
Proof. unfold recorded. simpl. destruct (fn ctx c w) as [[r c'] w']. reflexivity. Qed.

Lemma sleep_interrupted ctx d w e w' :
  sleep ctx d w = (Some e, w') -> ctx = WithTimeout /\ exists ce, e = ctx_Err ce.
Proof.
  unfold sleep. destruct ctx; [discriminate|].
  simpl. destruct (interrupts w) as [|[ce|] rest]; intros H; inversion H; eauto.
Qed.

Lemma retry_loop_recorded {C : Type}
    (fn : Context -> C -> World -> option error * C * World) ctx (N : Z) :
  forall (n : nat) attempt delay lastErr c l w,
    Forall retried l ->
    (n = O -> exists l0, l = (l0 ++ [lastErr])%list) ->
    exists init last,
      snd (snd (fst (retry_loop n ctx (recorded fn) N attempt delay lastErr (c, l) w)))
      = (init ++ [last])%list /\
      Forall retried init /\
      (fst (fst (retry_loop n ctx (recorded fn) N attempt delay lastErr (c, l) w)) = last \/
       retried last /\ ctx = WithTimeout /\
       exists ce,
         fst (fst (retry_loop n ctx (recorded fn) N attempt delay lastErr (c, l) w))
         = Some (ctx_Err ce)).
Proof.
  induction n as [|n IH]; intros attempt delay lastErr c l w Hl Hn.
  - destruct (Hn eq_refl) as [l0 ->]. exists l0, lastErr. simpl.
    apply Forall_app in Hl as [Hl _]. auto.
  - rewrite retry_loop_S, recorded_eq.
    destruct (fn ctx c w) as [[[e|] c1] w1]; cbn [fst snd].
    2:{ exists l, None. auto. }
    destruct (is_Canceled e || is_DeadlineExceeded e) eqn:Hc.
    { exists l, (Some e). auto. }
    destruct ((attempt >=? N) || negb (isTransient e)) eqn:Hstop.
    { exists l, (Some e). auto. }
    apply orb_false_iff in Hstop as [_ Htr]. apply negb_false_iff in Htr.
    assert (Hre : retried (Some e)) by (exists e; auto).
    destruct (sleep ctx delay _) as [[ce|] w2] eqn:Hsl.
    + apply sleep_interrupted in Hsl as [Hctx [ce' ->]].
      exists l, (Some e). cbn [fst snd]. split; [reflexivity|]. split; [exact Hl|].
      right. eauto.
    + apply IH.
      * apply Forall_app. split; [exact Hl|]. constructor; [exact Hre|constructor].
      * intros _. exists l. reflexivity.
Qed.

(** The harness returns what the last execution of the operation
    returned, unless the context ended the sleep that followed it; every
    execution before the last failed with a transient error that was not a
    cancellation; and the operation is executed at least once.  So the
    harness returns nil exactly when the last execution did. *)
Theorem retryWithBackoff_returns_last_result {C : Type}
    (fn : Context -> C -> World -> option error * C * World)
    (ctx : Context) (N D0 : Z) (c : C) (w : World) :
  let run := retryWithBackoff ctx (recorded fn) N D0 (c, []) w in
  exists init last,
    snd (snd (fst run)) = (init ++ [last])%list /\
    Forall retried init /\
    (fst (fst run) = last \/
     retried last /\ ctx = WithTimeout /\ exists ce, fst (fst run) = Some (ctx_Err ce)) /\
    (fst (fst run) = None <-> last = None).
Proof.
  intros run. subst run. unfold retryWithBackoff.
  set (N' := if N <=? 0 then 5 else N).
  assert (HN : 0 < N') by (subst N'; destruct (Z.leb_spec N 0); lia).
  destruct (retry_loop_recorded fn ctx N' (Z.to_nat (N' + 1)) 0
              (if D0 <=? 0 then 100 * Millisecond else D0) None c [] w
              (List.Forall_nil retried)) as (init & last & Hrs & Hin & Hr).
  { intros Hz. lia. }
  exists init, last. split; [exact Hrs|]. split; [exact Hin|]. split; [exact Hr|].
  destruct Hr as [->|(Hre & _ & ce & ->)]; [reflexivity|].
  destruct Hre as (e & -> & _). split; discriminate.
Qed.

(** ** Loading the stored position *)

Lemma same_store_refl w : same_store w w.
Proof. repeat split. Qed.

Lemma same_store_trans w1 w2 w3 : same_store w1 w2 -> same_store w2 w3 -> same_store w1 w3.
Proof. intros (H1 & H2 & H3) (H4 & H5 & H6). repeat split; congruence. Qed.

Lemma same_store_offsets_FindOneById source w :
  same_store w (snd (offsets_FindOneById source w)).
Proof.
  unfold offsets_FindOneById, pop_fault, emit. simpl.
  case_fault w; simpl; try destruct (offsets w !! source); repeat split.
Qed.

Lemma same_store_offsets_FindOneBySource source w :
  same_store w (snd (offsets_FindOneBySource source w)).
Proof.
  unfold offsets_FindOneBySource, pop_fault, emit. simpl.
  case_fault w; simpl;
    try match goal with
        | |- context [match ?x with [] => _ | _ :: _ => _ end] => destruct x
        end; repeat split.
Qed.

Lemma same_store_loadAttempt source ctx g w :
  same_store w (snd (loadAttempt source ctx g w)).
Proof.
  unfold loadAttempt.
  pose proof (same_store_offsets_FindOneById source w) as H1.
  destruct (offsets_FindOneById source w) as [[err|d] w1]; simpl in *; [|exact H1].
  pose proof (same_store_offsets_FindOneBySource source w1) as H2.
  destruct (offsets_FindOneBySource source w1) as [r2 w2]; simpl in *.
  destruct (negb (is_ErrNoDocuments err)); simpl; eapply same_store_trans; eassumption.
Qed.

Lemma same_store_sleep ctx d w : same_store w (snd (sleep ctx d w)).
Proof.
  unfold sleep, emit. simpl.
  destruct ctx; [|destruct (interrupts w) as [|[ce|] rest]]; repeat split.
Qed.

Lemma loadGTID_world ctx source w :
  snd (loadGTID ctx source w)
  = snd (retry_loop 6 ctx (loadAttempt source) 5 0 (100 * Millisecond) None "" w).
Proof.
  unfold loadGTID. rewrite retryWithBackoff_commit.
  destruct (retry_loop 6 ctx (loadAttempt source) 5 0 (100 * Millisecond) None "" w)
    as [[[e|] g] w']; simpl;
    repeat match goal with
           | |- context [if ?b then _ else _] => destruct b
           end; reflexivity.
Qed.

(** With the record of the source in the offsets collection and a store
    that answers the first query, the load ends after that query. *)
Lemma loadGTID_stored ctx source w d :
  no_fault_in_next 1 w -> offsets w !! source = Some d ->
  fst (loadGTID ctx source w)
  = if decide (of_gtid d = "") then ("", false, None) else (of_gtid d, true, None).
Proof.
  intros Hnf Hd. unfold loadGTID. rewrite retryWithBackoff_commit, retry_loop_S.
  assert (Hat : exists w1, loadAttempt source ctx "" w = (None, of_gtid d, w1)).
  { unfold loadAttempt, offsets_FindOneById, pop_fault, emit, no_fault_in_next in *.
    simpl. destruct (faults w) as [|[e|] fs]; simpl in *.
    - rewrite Hd. eauto.
    - inversion Hnf; subst. discriminate.
    - rewrite Hd. eauto. }
  destruct Hat as [w1 ->]. destruct (decide (of_gtid d = "")); reflexivity.
Qed.

Lemma filter_source_nil source (m : gmap string OffsetDoc) :
  (forall k d, m !! k = Some d -> of_source d <> source) ->
  filter (fun d => of_source d = source) (map snd (map_to_list m)) = [].
Proof.
  intros H. destruct (filter _ _) as [|d l] eqn:Hf; [reflexivity|].
  assert (Hin : d ∈ filter (fun d => of_source d = source) (map snd (map_to_list m)))
    by (rewrite Hf; apply list_elem_of_here).
  apply list_elem_of_filter in Hin as [Hs Hin].
  apply list_elem_of_In, in_map_iff in Hin as [[k d'] [Heq Hin]]. simpl in Heq. subst d'.
  apply list_elem_of_In, elem_of_map_to_list in Hin. exfalso. exact (H k d Hin Hs).
Qed.

Lemma offsets_FindOneBySource_missing source w :
  (forall k d, offsets w !! k = Some d -> of_source d <> source) ->
  exists e, fst (offsets_FindOneBySource source w) = inl e.
Proof.
  intros Hsrc. unfold offsets_FindOneBySource.
  destruct (pop_fault (emit (EFindOffset false source) w)) as [[e|] w1] eqn:Hp;
    [simpl; eauto|].
  assert (Ho : offsets w1 = offsets w).
  { unfold pop_fault in Hp. simpl in Hp.
    destruct (faults w); inversion Hp; reflexivity. }
  rewrite filter_source_nil; [simpl; eauto|]. rewrite Ho. exact Hsrc.
Qed.

Lemma offsets_FindOneById_missing source w :
  no_fault_in_next 1 w -> offsets w !! source = None ->
  exists w1, offsets_FindOneById source w = (inl ErrNoDocuments, w1) /\
             offsets w1 = offsets w.
Proof.
  intros Hnf Hd. unfold offsets_FindOneById, pop_fault, emit, no_fault_in_next in *.
  simpl. destruct (faults w) as [|[e|] fs]; simpl in *.
  - rewrite Hd. eauto.
  - inversion Hnf; subst. discriminate.
  - rewrite Hd. eauto.
Qed.

Lemma loadGTID_nothing_stored ctx source w :
  no_fault_in_next 1 w -> offsets w !! source = None ->
  (forall k d, offsets w !! k = Some d -> of_source d <> source) ->
  fst (loadGTID ctx source w) = ("", false, None).
Proof.
  intros Hnf Hd Hsrc. unfold loadGTID. rewrite retryWithBackoff_commit, retry_loop_S.
  assert (Hat : exists w1, loadAttempt source ctx "" w = (None, "", w1)).
  { unfold loadAttempt.
    destruct (offsets_FindOneById_missing source w Hnf Hd) as (w1 & -> & Ho).
    destruct (offsets_FindOneBySource_missing source w1) as [e He].
    { rewrite Ho. exact Hsrc. }
    destruct (offsets_FindOneBySource source w1) as [r2 w2]. simpl in He. subst r2.
    simpl. eauto. }
  destruct Hat as [w1 ->]. reflexivity.
Qed.

(** loadGTID only reads: whatever the store answers, the three collections
    are afterwards what they were.  When the store answers the first query
    and holds the record of the source, the result is the GTID of that
    record, and a record with an empty GTID counts as no position.  When
    the store answers the query by id and holds no record for the source,
    under its id or under its source field, the result is no position and
    no error. *)
Theorem loadGTID_reads_the_offset_record (ctx : Context) (source : string) (w : World) :
  same_store w (snd (loadGTID ctx source w)) /\
  (no_fault_in_next 1 w ->
   forall d, offsets w !! source = Some d ->
     fst (loadGTID ctx source w)
     = if decide (of_gtid d = "") then ("", false, None) else (of_gtid d, true, None)) /\
  (no_fault_in_next 1 w -> offsets w !! source = None ->
   (forall k d, offsets w !! k = Some d -> of_source d <> source) ->
   fst (loadGTID ctx source w) = ("", false, None)).
Proof.
  split; [|split].
  - rewrite loadGTID_world.
    apply (retry_loop_preserves same_store same_store_refl same_store_trans).
    + intros m w0 _. repeat split.
    + intros c d w0. apply same_store_sleep.
    + intros g w0. apply same_store_loadAttempt.
  - intros Hnf d Hd. apply loadGTID_stored; assumption.
  - apply loadGTID_nothing_stored.
Qed.

Lemma loadGTID_reads_the_offset_record_witness :
  fst (loadGTID Background "mysql://127.0.0.1:3306" offset_world)
  = ("uuid:1-5", true, None) /\
  fst (loadGTID Background "mysql://127.0.0.1:3306" empty_world) = ("", false, None).
Proof.
  split.
  - refine (proj1 (proj2 (loadGTID_reads_the_offset_record Background
                            "mysql://127.0.0.1:3306" offset_world)) _ stored_offset _).
    + constructor.
    + reflexivity.
  - refine (proj2 (proj2 (loadGTID_reads_the_offset_record Background
                            "mysql://127.0.0.1:3306" empty_world)) _ _ _).
    + constructor.
    + reflexivity.
    + intros k d H. simpl in H. rewrite lookup_empty in H. discriminate.
Defined.

(** ** From a commit to the next start *)

(** The position that a successful commit, or saveGTID, stored is the one
    that the next load returns, provided the GTID is not empty and the
    store answers the query: a commit that returned nil is where the
    reader resumes. *)
Theorem committed_position_is_loaded
    (ctx ctx' : Context) (docs : list EventDoc) (source gtid file : string) (pos : Z)
    (w : World) :
  gtid <> "" ->
  (docs <> [] ->
   fst (writeBatchWithGTID ctx docs source gtid file pos w) = None ->
   no_fault_in_next 1 (snd (writeBatchWithGTID ctx docs source gtid file pos w)) ->
   fst (loadGTID ctx' source (snd (writeBatchWithGTID ctx docs source gtid file pos w)))
   = (gtid, true, None)) /\
  (fst (saveGTID source gtid file pos w) = None ->
   no_fault_in_next 1 (snd (saveGTID source gtid file pos w)) ->
   fst (loadGTID ctx' source (snd (saveGTID source gtid file pos w)))
   = (gtid, true, None)).
Proof.
  intros Hg.
  assert (Hload : forall w', offset_is source gtid file pos w' -> no_fault_in_next 1 w' ->
                    fst (loadGTID ctx' source w') = (gtid, true, None)).
  { intros w' [t Ht] Hnf. rewrite (loadGTID_stored ctx' source w' _ Hnf Ht). simpl.
    destruct (decide (gtid = "")); [contradiction|reflexivity]. }
  split.
  - intros Hd. rewrite writeBatchWithGTID_staged by exact Hd. cbv zeta.
    set (sd := staged_batch _ _ _ _ _ _ _).
    pose proof (commit_loop_offset sd docs source gtid file pos ctx
                  (snd (Now (snd (Now w))))) as H.
    destruct (retry_loop 6 ctx _ 5 0 (100 * Millisecond) None tt _) as [[[e|] u] w'];
      simpl; [discriminate|].
    intros _. apply Hload, H.
  - unfold saveGTID. pose proof (offsets_Upsert_outcome source gtid file pos w) as H.
    destruct (offsets_Upsert source gtid file pos w) as [[e|] w']; simpl; [discriminate|].
    intros _. apply Hload, H.
Qed.

Lemma committed_position_is_loaded_witness :
  fst (loadGTID Background "mysql://127.0.0.1:3306"
         (snd (writeBatchWithGTID Background [sample_doc] "mysql://127.0.0.1:3306"
                 "uuid:1-5" "binlog.000001" 4 standalone_world)))
  = ("uuid:1-5", true, None).
Proof.
  refine (proj1 (committed_position_is_loaded Background Background [sample_doc]
                   "mysql://127.0.0.1:3306" "uuid:1-5" "binlog.000001" 4
                   standalone_world _) _ _ _).
  - discriminate.
  - discriminate.
  - vm_compute. reflexivity.
  - vm_compute. constructor.
Defined.

(** When the load of the stored position fails, the reader is started all
    the same: the error is neither returned nor logged, and the reader
    starts from the current position of the source, as if nothing had been
    stored. *)
Theorem startReader_drops_load_error
    (c : Canal) (h : Handler) (w w1 : World) (g : string) (ok : bool) (e : error) :
  loadGTID Background (source h) w = ((g, ok, Some e), w1) ->
  startReader c h w =
  match GetMasterGTIDSet c with
  | inl e' => (Some (Wrapf "GetMasterGTIDSet" e'), emit EGetMasterGTIDSet w1)
  | inr gset =>
      (StartFromGTID c gset,
       emit (EStartFromGTID gset)
         (log (LogStartingFromMaster gset) (emit EGetMasterGTIDSet w1)))
  end.
Proof.
  intros Hload. unfold startReader. rewrite Hload.
  assert (Hok : ok = false).
  { revert Hload. unfold loadGTID.
    destruct (retryWithBackoff _ _ _ _ _ _) as [[[e0|] g0] w0];
      repeat match goal with
             | |- context [if ?b then _ else _] => destruct b
             end; intros H; inversion H; reflexivity. }
  rewrite Hok. simpl. destruct (GetMasterGTIDSet c); reflexivity.
Qed.

(** A position is stored, the store refuses the query, and the reader
    starts from the position of the source. *)
Lemma startReader_drops_load_error_witness :
  startReader sample_canal sample_handler unreachable_offset_world
  = (None,
     emit (EStartFromGTID "uuid:1-9")
       (log (LogStartingFromMaster "uuid:1-9")
          (emit EGetMasterGTIDSet
             (snd (loadGTID Background (source sample_handler)
                     unreachable_offset_world))))).
Proof.
  apply (startReader_drops_load_error sample_canal sample_handler
           unreachable_offset_world
           (snd (loadGTID Background (source sample_handler) unreachable_offset_world))
           "" false (NetError false [] "connection refused")).
  vm_compute. reflexivity.
Defined.

(** ** The two renderings of a primary key *)

Lemma toPK_parts_None idxs row :
  toPK_parts idxs row = None <-> Exists (fun idx => (length row <= idx)%nat) idxs.
Proof.
  induction idxs as [|idx rest IH]; simpl.
  - split; [discriminate|]. intros H. inversion H.
  - destruct (row !! idx) as [v|] eqn:Hv.
    + apply lookup_lt_Some in Hv.
      destruct (toPK_parts rest row) as [parts|].
      * split; [discriminate|]. intros H. inversion H; subst; [lia|].
        apply IH in H1. discriminate.
      * split; [|reflexivity]. intros _. apply Exists_cons_tl, IH. reflexivity.
    + apply lookup_ge_None in Hv. split; [|reflexivity].
      intros _. apply Exists_cons_hd. exact Hv.
Qed.

Lemma toPK_parts_foldl idxs row :
  forall parts acc,
    toPK_parts idxs row = Some parts ->
    foldl (fun parts idx => match row !! idx with
                            | None => parts
                            | Some v => (parts ++ [toS v])%list
                            end) acc idxs
    = (acc ++ parts)%list.
Proof.
  induction idxs as [|idx rest IH]; intros parts acc H; simpl in *.
  - inversion H. rewrite app_nil_r. reflexivity.
  - destruct (row !! idx) as [v|]; [|discriminate].
    destruct (toPK_parts rest row) as [ps|]; [|discriminate].
    inversion H; subst. rewrite (IH ps) by reflexivity.
    rewrite <- app_assoc. reflexivity.
Qed.

(** The unused helper toPK and the closure pkVal of OnRow render the same
    key whenever toPK returns: toPK panics exactly when a key column lies
    beyond the end of the row, where pkVal leaves the column out. *)
Theorem toPK_agrees_with_pkVal (e : RowsEvent) (row : list value) :
  (toPK e row = None <->
   Exists (fun idx => (length row <= idx)%nat) (PKColumns (table e))) /\
  (forall v, toPK e row = Some v -> pkVal e row = v).
Proof.
  unfold toPK, pkVal.
  destruct (PKColumns (table e)) as [|i0 [|i1 rest]] eqn:Hpk.
  - split.
    + split; [destruct row; discriminate|]. intros H. inversion H.
    + intros v. destruct row; intros H; inversion H; reflexivity.
  - split.
    + rewrite <- (toPK_parts_None [i0] row). simpl.
      destruct (row !! i0); split; congruence.
    + intros v Hv. rewrite Hv. reflexivity.
  - rewrite <- Hpk. split.
    + rewrite <- toPK_parts_None.
      destruct (toPK_parts (PKColumns (table e)) row); split; congruence.
    + intros v. destruct (toPK_parts (PKColumns (table e)) row) as [parts|] eqn:Hp;
        [|discriminate].
      intros H. inversion H; subst v.
      rewrite (toPK_parts_foldl _ _ parts [] Hp). simpl.
      destruct parts as [|p ps]; [|reflexivity].
      rewrite Hpk in Hp. simpl in Hp.
      destruct (row !! i0); [|discriminate]. destruct (row !! i1); [|discriminate].
      destruct (toPK_parts rest row); discriminate.
Qed.

Lemma toPK_agrees_with_pkVal_witness :
  pkVal sample_lines_event [VInt 7; VInt 2; VInt 5] = VStr "7|2" /\
  toPK sample_lines_event [VInt 7] = None.
Proof.
  split.
  - apply (proj2 (toPK_agrees_with_pkVal sample_lines_event [VInt 7; VInt 2; VInt 5])).
    vm_compute. reflexivity.
  - apply (proj1 (toPK_agrees_with_pkVal sample_lines_event [VInt 7])).
    apply Exists_cons_tl, Exists_cons_hd. simpl. lia.
Defined.

(** ** The shape of an event id *)

Lemma be_bytes_length n x : length (be_bytes n x) = n.
Proof. induction n as [|n IH]; simpl; [reflexivity|]. rewrite IH. reflexivity. Qed.

Lemma be_bytes_range n x : Forall (fun b => 0 <= b < 256) (be_bytes n x).
Proof.
  induction n as [|n IH]; simpl; constructor; [|exact IH].
  change 255 with (Z.ones 8). rewrite Z.land_ones by lia.
  apply Z.mod_pos_bound. lia.
Qed.

Lemma sha1_Sum_bytes data :
  length (sha1_Sum data) = 20%nat /\ Forall (fun b => 0 <= b < 256) (sha1_Sum data).
Proof.
  unfold sha1_Sum.
  destruct (sha1_blocks _ _ _) as [[[[h0 h1] h2] h3] h4]. split.
  - rewrite !length_app, !be_bytes_length. reflexivity.
  - repeat (apply Forall_app; split); apply be_bytes_range.
Qed.

Lemma hex_digit_is_hex x :
  0 <= x < 16 -> exists a, hex_digit x = String a "" /\ is_hex a = true.
Proof.
  intros Hx. unfold hex_digit. eexists. split; [reflexivity|].
  assert (Hn : (Z.to_nat x < 16)%nat) by lia.
  generalize dependent (Z.to_nat x). intros n Hn.
  do 16 (destruct n as [|n]; [vm_compute; reflexivity|]). lia.
Qed.

Lemma hex_EncodeToString_hex bs :
  Forall (fun b => 0 <= b < 256) bs ->
  String.length (hex_EncodeToString bs) = (2 * length bs)%nat /\
  forallb is_hex (list_ascii_of_string (hex_EncodeToString bs)) = true.
Proof.
  induction 1 as [|b bs Hb Hbs [IHl IHh]]; [split; reflexivity|].
  cbn [hex_EncodeToString].
  destruct (hex_digit_is_hex (b / 16)) as (a1 & -> & H1).
  { split; [apply Z.div_pos; lia|apply Z.div_lt_upper_bound; lia]. }
  destruct (hex_digit_is_hex (b mod 16)) as (a2 & -> & H2).
  { apply Z.mod_pos_bound. lia. }
  rewrite !append_cons, !append_nil. cbn [String.length list_ascii_of_string forallb length].
  rewrite IHl, H1, H2, IHh. split; [lia|reflexivity].
Qed.

(** An event id is forty lower-case hexadecimal digits, whatever the
    event: it is a fixed-width key. *)
Theorem makeID_is_forty_hex_digits
    (db tbl : string) (pk : value) (ts : Z) (op file : string) (pos : Z) (gtid : string) :
  String.length (makeID db tbl pk ts op file pos gtid) = 40%nat /\
  forallb is_hex (list_ascii_of_string (makeID db tbl pk ts op file pos gtid)) = true.
Proof.
  unfold makeID.
  destruct (sha1_Sum_bytes (bytes_of_string
              (makeID_input db tbl pk ts op file pos gtid))) as [Hl Hr].
  destruct (hex_EncodeToString_hex _ Hr) as [H1 H2].
  rewrite H1, Hl. split; [reflexivity|exact H2].
Qed.

(** ** The batch of the handler *)

Lemma tracks_position_refl h : tracks_position h h.
Proof. unfold tracks_position. repeat split; auto. Qed.

Lemma addDoc_discipline h0 e pk chg op h w :
  (length (batch h) < 100)%nat -> tracks_position h0 h ->
  within_threshold (addDoc e pk chg op h w) /\
  tracks_position h0 (snd (fst (addDoc e pk chg op h w))).
Proof.
  intros Hlen Ht. pose proof Ht as (H1 & H2 & H3 & H4 & H5 & H6 & H7). unfold addDoc.
  destruct (loc h) as [l|] eqn:Hloc; [|split; [exact Hlen|exact Ht]].
  match goal with
  | |- context [decide (100 <= length (batch ?hh))%nat] =>
      set (h1 := hh); destruct (decide (100 <= length (batch h1))%nat) as [Hge|Hlt]
  end.
  - assert (Hfull : length (batch h1) = 100%nat).
    { subst h1. simpl in *. rewrite length_app in *. simpl in *. lia. }
    destruct (writeBatchWithGTID _ _ _ _ _ _ _) as [[err|] w1];
      unfold within_threshold, tracks_position; simpl;
      (split; [first [exact Hfull | lia]|]);
      repeat split; try congruence; right; rewrite H2, H3, H4; auto.
  - unfold within_threshold, tracks_position. simpl. split; [subst h1; simpl in *; lia|].
    repeat split; try congruence. right. rewrite H2, H3, H4. auto.
Qed.

Lemma and_then_discipline h0 wrap r k :
  within_threshold r /\ tracks_position h0 (snd (fst r)) ->
  (forall h1 w1, (length (batch h1) < 100)%nat -> tracks_position h0 h1 ->
     within_threshold (k h1 w1) /\ tracks_position h0 (snd (fst (k h1 w1)))) ->
  within_threshold (and_then wrap r k) /\
  tracks_position h0 (snd (fst (and_then wrap r k))).
Proof.
  intros [Hr Ht] Hk. destruct r as [[[[err|]|p] h1] w1]; simpl in *.
  - split; assumption.
  - apply Hk; assumption.
  - split; assumption.
Qed.

Lemma insert_rows_discipline h0 e :
  forall rows h w,
    (length (batch h) < 100)%nat -> tracks_position h0 h ->
    within_threshold (insert_rows e rows h w) /\
    tracks_position h0 (snd (fst (insert_rows e rows h w))).
Proof.
  induction rows as [|row rows IH]; intros h w Hlen Ht; simpl; [split; assumption|].
  destruct (chg_insert (Columns (table e)) row); [|split; assumption].
  apply and_then_discipline; [apply addDoc_discipline; assumption|].
  intros h1 w1. apply IH.
Qed.

Lemma delete_rows_discipline h0 e :
  forall rows h w,
    (length (batch h) < 100)%nat -> tracks_position h0 h ->
    within_threshold (delete_rows e rows h w) /\
    tracks_position h0 (snd (fst (delete_rows e rows h w))).
Proof.
  induction rows as [|row rows IH]; intros h w Hlen Ht; simpl; [split; assumption|].
  destruct (chg_delete (Columns (table e)) row); [|split; assumption].
  apply and_then_discipline; [apply addDoc_discipline; assumption|].
  intros h1 w1. apply IH.
Qed.

Lemma update_rows_discipline h0 e :
  forall n i h w,
    (length (batch h) < 100)%nat -> tracks_position h0 h ->
    within_threshold (update_rows e n i h w) /\
    tracks_position h0 (snd (fst (update_rows e n i h w))).
Proof.
  induction n as [|n IH]; intros i h w Hlen Ht; cbn [update_rows]; [split; assumption|].
  destruct (Rows e !! i) as [before|]; [|split; assumption].
  destruct (Rows e !! (i + 1)%nat) as [after|]; [|split; assumption].
  destruct (chg_update (Columns (table e)) before after); [|split; assumption].
  apply and_then_discipline; [apply addDoc_discipline; assumption|].
  intros h1 w1. apply IH.
Qed.

(** A row event received with fewer than a hundred events in the batch
    leaves fewer than a hundred in it, unless a commit failed: then the
    callback returns the error with exactly a hundred events kept in the
    batch.  It changes nothing of the handler but the batch and its
    position, and a position it sets is the last position the handler was
    told, with the file offset cut to 32 bits. *)
Theorem OnRow_batch_discipline (e : RowsEvent) (h : Handler) (w : World) :
  (length (batch h) < 100)%nat ->
  within_threshold (OnRow e h w) /\ tracks_position h (snd (fst (OnRow e h w))).
Proof.
  intros Hlen. pose proof (tracks_position_refl h) as Ht. unfold OnRow.
  destruct (PKColumns (table e)); [split; assumption|].
  destruct (decide (Action e = InsertAction));
    [apply insert_rows_discipline; assumption|].
  destruct (decide (Action e = DeleteAction));
    [apply delete_rows_discipline; assumption|].
  destruct (decide (Action e = UpdateAction));
    [apply update_rows_discipline; assumption|].
  split; assumption.
Qed.

(** The hundredth event makes the handler commit, and on a healthy store
    the batch is empty afterwards. *)
Lemma OnRow_batch_discipline_witness :
  length (batch (snd (fst (OnRow sample_insert nearly_full_handler empty_world)))) = 0%nat /\
  within_threshold (OnRow sample_insert nearly_full_handler empty_world) /\
  tracks_position nearly_full_handler
    (snd (fst (OnRow sample_insert nearly_full_handler empty_world))).
Proof.
  split; [vm_compute; reflexivity|].
  apply (OnRow_batch_discipline sample_insert nearly_full_handler empty_world).
  vm_compute. lia.
Defined.

(** ** Position callbacks *)

Lemma Flush_with_last ctx file pos gtid h w :
  Flush ctx (with_last file pos gtid h) w
  = (fst (fst (Flush ctx h w)), with_last file pos gtid (snd (fst (Flush ctx h w))),
     snd (Flush ctx h w)).
Proof.
  unfold Flush. simpl. destruct (batch h) as [|d0 b]; [reflexivity|].
  destruct (writeBatchWithGTID _ _ _ _ _ _ _) as [[e|] w1]; reflexivity.
Qed.

(** The callbacks that report a position (OnPosSynced, OnRotate, OnGTID)
    and OnXID return nil, issue no store call, and do not change what a
    flush commits: flushing after such a callback is flushing before it.
    The position that reaches the offsets collection is the one recorded
    when a row was added to the batch. *)
Theorem position_callbacks_commute_with_Flush
    (ctx : Context) (name : string) (pos : Z) (set : option string) (rendered : string)
    (h : Handler) (w : World) :
  let after (cb : Handler -> option error * Handler) :=
    fst (cb h) = None /\
    Flush ctx (snd (cb h)) w
    = (fst (fst (Flush ctx h w)), snd (cb (snd (fst (Flush ctx h w)))),
       snd (Flush ctx h w)) in
  after (OnPosSynced name pos set) /\ after (OnRotate name pos) /\
  after (OnGTID rendered) /\ after OnXID.
Proof.
  cbv zeta. unfold OnPosSynced, OnRotate, OnGTID, OnXID. cbn [fst snd].
  assert (Hkeep : forall h', snd (fst (Flush ctx h w)) = h' ->
            lastGTID h' = lastGTID h /\ lastFile h' = lastFile h /\ lastPos h' = lastPos h).
  { intros h' <-. unfold Flush. destruct (batch h) as [|d0 b]; [auto|].
    destruct (writeBatchWithGTID _ _ _ _ _ _ _) as [[e|] w1]; simpl; auto. }
  destruct (Hkeep _ eq_refl) as (Hg & Hf & Hp).
  repeat split.
  - rewrite Flush_with_last. rewrite Hg. reflexivity.
  - rewrite Flush_with_last. rewrite Hg. reflexivity.
  - rewrite Flush_with_last. rewrite Hf, Hp. reflexivity.
  - destruct (Flush ctx h w) as [[r h'] w']. reflexivity.
Qed.

(** ** What the documents of a row event say *)

Lemma mkDoc_describes e pk chg op h l row :
  op = shortOP (Action e) -> row ∈ Rows e -> pk = pkVal e row ->
  describes e (mkDoc e pk chg op h l).
Proof.
  intros -> Hrow ->. unfold describes, mkDoc. simpl. repeat split; eauto.
Qed.

(** OnRow skips an event on a table for which hasPrimaryKey is false.
    Otherwise every document it adds to the batch or to the events
    collection describes a row of the event: its operation is shortOP of
    the action, its time is the time of the event, its sequence number is
    0, and its meta names the table of the event and the key of one of its
    rows (for an update, of an after-image). *)
Theorem OnRow_documents_describe_the_event (e : RowsEvent) (h : Handler) (w : World) :
  (hasPrimaryKey e = false -> OnRow e h w = (Return None, h, w)) /\
  adds_only (describes e) h w (OnRow e h w).
Proof.
  split.
  - unfold hasPrimaryKey, OnRow. destruct (PKColumns (table e)); [reflexivity|].
    intros H. apply bool_decide_eq_false in H. simpl in H. lia.
  - unfold OnRow. destruct (PKColumns (table e)); [apply adds_only_here|].
    destruct (decide (Action e = InsertAction)) as [Hi|Hni].
    { apply (insert_rows_adds_only _ e (loc h)); [reflexivity|].
      intros row chg h1 l1 Hrow _ _ _. apply (mkDoc_describes _ _ _ _ _ _ row); auto.
      rewrite Hi. reflexivity. }
    destruct (decide (Action e = DeleteAction)) as [Hd|Hnd].
    { apply (delete_rows_adds_only _ e (loc h)); [reflexivity|].
      intros row chg h1 l1 Hrow _ _ _. apply (mkDoc_describes _ _ _ _ _ _ row); auto.
      rewrite Hd. reflexivity. }
    destruct (decide (Action e = UpdateAction)) as [Hu|Hnu]; [|apply adds_only_here].
    apply (update_rows_adds_only _ e (loc h) _ 0%nat); [reflexivity|].
    intros j before after chg h1 l1 _ _ Ha _ _ _.
    apply (mkDoc_describes _ _ _ _ _ _ after); auto.
    + rewrite Hu. reflexivity.
    + apply list_elem_of_lookup_2 in Ha. exact Ha.
Qed.

Lemma OnRow_documents_describe_the_event_witness :
  OnRow {| table := {| Schema := "shop"; Name := "log"; Columns := ["line"];
                       PKColumns := [] |};
           Action := InsertAction; Rows := [[VStr "x"]]; Timestamp := 1765621800 |}
        sample_handler empty_world
  = (Return None, sample_handler, empty_world).
Proof.
  apply (proj1 (OnRow_documents_describe_the_event _ sample_handler empty_world)).
  reflexivity.
Defined.

(** ** The legacy writeBatch *)

Lemma staging_events_BulkWrite docs w :
  staging (snd (events_BulkWrite docs w)) = staging w.
Proof.
  unfold events_BulkWrite, pop_fault. simpl.
  case_fault w; simpl;
    try (destruct (foldl bulk_insert_one (events w, []) docs) as [m [|c errs]]);
    reflexivity.
Qed.

(** writeBatch writes to the events collection only: it issues one bulk
    insert for a non-empty batch and nothing for an empty one, and never
    touches the offsets or the staging collection, so that a batch written
    with it is not a committed position.  On a healthy store the documents
    whose ids are free are inserted; it returns nil when the ids of the
    batch are fresh, and the driver's duplicate-key exception when an id is
    taken. *)
Theorem writeBatch_writes_events_only (docs : list EventDoc) (w : World) :
  offsets (snd (writeBatch docs w)) = offsets w /\
  staging (snd (writeBatch docs w)) = staging w /\
  trace (snd (writeBatch docs w))
  = (trace w ++ match docs with
                | [] => []
                | _ => [EBulkWrite (map ID docs)]
                end)%list /\
  (no_faults w ->
   events (snd (writeBatch docs w)) = bulk_events docs (events w) /\
   (fresh_ids docs (events w) -> fst (writeBatch docs w) = None) /\
   ((exists d, d ∈ docs /\ is_Some (events w !! ID d)) ->
    exists errs,
      errs <> [] /\ Forall (fun c => c = 11000) errs /\
      fst (writeBatch docs w)
      = Some (BulkWriteException None errs [] "bulk write exception"))).
Proof.
  unfold writeBatch. destruct docs as [|d0 docs'] eqn:Hd.
  - rewrite app_nil_r. repeat split; try reflexivity.
    intros (d & Hin & _). apply elem_of_nil in Hin. contradiction.
  - rewrite <- Hd.
    pose proof (offsets_events_BulkWrite docs w) as Ho.
    pose proof (staging_events_BulkWrite docs w) as Hs.
    assert (Ht : trace (snd (events_BulkWrite docs w))
                 = (trace w ++ [EBulkWrite (map ID docs)])%list).
    { unfold events_BulkWrite, pop_fault. simpl.
      case_fault w; simpl;
        try (destruct (foldl bulk_insert_one (events w, []) docs) as [m [|c errs]]);
        reflexivity. }
    assert (Hh : no_faults w ->
              events (snd (events_BulkWrite docs w)) = bulk_events docs (events w) /\
              (fresh_ids docs (events w) -> fst (events_BulkWrite docs w) = None) /\
              ((exists d, d ∈ docs /\ is_Some (events w !! ID d)) ->
               exists errs,
                 errs <> [] /\ Forall (fun c => c = 11000) errs /\
                 fst (events_BulkWrite docs w)
                 = Some (BulkWriteException None errs [] "bulk write exception"))).
    { intros Hnf.
      destruct (events_BulkWrite_healthy docs w Hnf)
        as (r & w1 & -> & _ & He & _ & _ & Hfr & Hdup).
      split; [exact He|]. split; [exact Hfr|exact Hdup]. }
    destruct (events_BulkWrite docs w) as [[e|] w1]; simpl in *.
    + assert (Hret : forall (P : option error * World -> Prop),
                (as_BulkWriteException e = None -> P (Some e, w1)) ->
                (forall ws, as_BulkWriteException e = Some ws -> allDup ws = true ->
                   P (None, w1)) ->
                (forall ws, as_BulkWriteException e = Some ws -> allDup ws = false ->
                   P (Some e, w1)) ->
                P (match as_BulkWriteException e with
                   | Some ws => if allDup ws then (None, w1) else (Some e, w1)
                   | None => (Some e, w1)
                   end)).
      { intros P H1 H2 H3. destruct (as_BulkWriteException e) as [ws|] eqn:Has;
          [destruct (allDup ws) eqn:Hall|]; eauto. }
      split; [apply Hret; auto|]. split; [apply Hret; auto|].
      split; [apply Hret; auto|].
      intros Hnf. destruct (Hh Hnf) as (He & Hfr & Hdup).
      split; [apply Hret; auto|]. split.
      * intros Hfresh. specialize (Hfr Hfresh). discriminate.
      * intros Hd'. destruct (Hdup Hd') as (errs & Hne & Hall & Heq).
        inversion Heq; subst e. exists errs. auto.
    + repeat split; auto; try (apply Hh; assumption).
Qed.

Lemma writeBatch_writes_events_only_witness :
  fst (writeBatch [sample_doc] empty_world) = None /\
  exists errs,
    errs <> [] /\ Forall (fun c => c = 11000) errs /\
    fst (writeBatch [sample_doc] replay_world)
    = Some (BulkWriteException None errs [] "bulk write exception").
Proof.
  split.
  - refine (proj1 (proj2 (proj2 (proj2 (proj2
              (writeBatch_writes_events_only [sample_doc] empty_world))) _)) _).
    + constructor.
    + split; [repeat constructor; apply not_elem_of_nil|]. intros d _. reflexivity.
  - refine (proj2 (proj2 (proj2 (proj2 (proj2
              (writeBatch_writes_events_only [sample_doc] replay_world))) _)) _).
    + constructor.
    + exists sample_doc. split; [apply list_elem_of_here|]. exists sample_doc.
      reflexivity.
Defined.

(** ** What Recovery leaves behind *)

Lemma foldl_archive_other l : forall w k,
  k ∉ map st_id l -> staging (foldl archive_one w l) !! k = staging w !! k.
Proof.
  induction l as [|a l IH]; intros w k Hk; simpl; [reflexivity|].
  simpl in Hk. apply not_elem_of_cons in Hk as [Hne Hk].
  rewrite IH by exact Hk.
  destruct (archive_one_staging w a) as [->| ->]; [reflexivity|].
  apply lookup_alter_ne. congruence.
Qed.

Lemma foldl_archive_dom l : forall w k,
  staging w !! k = None -> staging (foldl archive_one w l) !! k = None.
Proof.
  induction l as [|a l IH]; intros w k Hk; simpl; [exact Hk|].
  apply IH. destruct (archive_one_staging w a) as [->| ->]; [exact Hk|].
  destruct (decide (st_id a = k)) as [<-|Hne].
  - rewrite lookup_alter_eq, Hk. reflexivity.
  - rewrite lookup_alter_ne by exact Hne. exact Hk.
Qed.

Lemma foldl_archive_no_faults l : forall w,
  no_faults w -> no_faults (foldl archive_one w l).
Proof.
  induction l as [|a l IH]; intros w Hnf; simpl; [exact Hnf|].
  apply IH, archive_one_no_faults, Hnf.
Qed.

Lemma pending_docs_inv w a :
  staging_wf w -> a ∈ pending_docs w ->
  st_status a = pending /\ staging w !! st_id a = Some a.
Proof.
  intros Hwf Ha. unfold pending_docs in Ha.
  apply list_elem_of_filter in Ha as [Hp Hin]. split; [exact Hp|].
  apply list_elem_of_In, in_map_iff in Hin as [[k d] [Heq Hin]]. simpl in Heq. subst d.
  apply list_elem_of_In, elem_of_map_to_list in Hin.
  rewrite (Hwf k a Hin). exact Hin.
Qed.

Lemma pending_docs_nil w :
  (forall k d, staging w !! k = Some d -> st_status d <> pending) -> pending_docs w = [].
Proof.
  intros H. unfold pending_docs. destruct (filter _ _) as [|d l] eqn:Hf; [reflexivity|].
  assert (Hin : d ∈ filter (fun d => st_status d = pending)
                       (map snd (map_to_list (staging w))))
    by (rewrite Hf; apply list_elem_of_here).
  apply list_elem_of_filter in Hin as [Hs Hin].
  apply list_elem_of_In, in_map_iff in Hin as [[k d'] [Heq Hin]]. simpl in Heq. subst d'.
  apply list_elem_of_In, elem_of_map_to_list in Hin. exfalso. exact (H k d Hin Hs).
Qed.

(** Recovery changes pending documents only: a staging document that is
    committed or archived is left as it is, whatever the store answers,
    and no document appears.  On a healthy store no document is pending
    afterwards, so that a second Recovery finds nothing and issues the
    query and the decoding only. *)
Theorem recovery_changes_pending_only (w : World) :
  staging_wf w ->
  (forall k d, staging w !! k = Some d -> st_status d <> pending ->
     staging (snd (RecoverPendingBatches w)) !! k = Some d) /\
  (forall k, staging w !! k = None ->
     staging (snd (RecoverPendingBatches w)) !! k = None) /\
  (no_faults w ->
   pending_docs (snd (RecoverPendingBatches w)) = [] /\
   fst (RecoverPendingBatches (snd (RecoverPendingBatches w))) = None /\
   staging (snd (RecoverPendingBatches (snd (RecoverPendingBatches w))))
   = staging (snd (RecoverPendingBatches w)) /\
   trace (snd (RecoverPendingBatches (snd (RecoverPendingBatches w))))
   = (trace (snd (RecoverPendingBatches w)) ++ [EFindPending; ECursorAll])%list).
Proof.
  intros Hwf.
  assert (Hother : forall k d, staging w !! k = Some d -> st_status d <> pending ->
                     k ∉ map st_id (pending_docs w)).
  { intros k d Hk Hnp Hin.
    apply list_elem_of_In, in_map_iff in Hin as [a [Hid Ha]].
    apply list_elem_of_In in Ha.
    destruct (pending_docs_inv w a Hwf Ha) as [Hp Hst]. rewrite Hid in Hst. congruence. }
  destruct (RecoverPendingBatches_cases w)
    as [(e & fs & Hf & Hr) | [(e & fs & Hf & Hr) | (w2 & Hst & Hev & Hof & Htr & Hfl & Hr)]];
    cbv zeta in Hr; rewrite Hr; cbn [snd].
  - split; [auto|]. split; [auto|]. intros Hnf. unfold no_faults in Hnf.
    rewrite Hf in Hnf. inversion Hnf; subst; discriminate.
  - split; [auto|]. split; [auto|]. intros Hnf. unfold no_faults in Hnf.
    rewrite Hf in Hnf. inversion Hnf as [|? ? ? Hrest]; subst.
    inversion Hrest; subst; discriminate.
  - set (w' := match pending_docs w with
               | [] => w2
               | _ :: _ => foldl archive_one
                             (log (LogFoundPending (length (pending_docs w))) w2)
                             (pending_docs w)
               end).
    assert (Hw' : staging w' = staging (foldl archive_one
                             (log (LogFoundPending (length (pending_docs w))) w2)
                             (pending_docs w))).
    { subst w'. destruct (pending_docs w); reflexivity. }
    assert (H1 : forall k d, staging w !! k = Some d -> st_status d <> pending ->
                   staging w' !! k = Some d).
    { intros k d Hk Hnp. rewrite Hw', foldl_archive_other by (eapply Hother; eauto).
      rewrite staging_log, Hst. exact Hk. }
    assert (H2 : forall k, staging w !! k = None -> staging w' !! k = None).
    { intros k Hk. rewrite Hw'. apply foldl_archive_dom. rewrite staging_log, Hst.
      exact Hk. }
    split; [exact H1|]. split; [exact H2|]. intros Hnf.
    assert (Hnf2 : no_faults w2).
    { unfold no_faults in *. rewrite Hfl. apply Forall_drop, Hnf. }
    assert (Hnf' : no_faults w').
    { subst w'. destruct (pending_docs w); [exact Hnf2|].
      apply foldl_archive_no_faults. exact Hnf2. }
    assert (Hnone : pending_docs w' = []).
    { apply pending_docs_nil. intros k d' Hk' Hp'.
      destruct (staging w !! k) as [d|] eqn:Hk;
        [|rewrite (H2 k Hk) in Hk'; discriminate].
      destruct (decide (st_status d = pending)) as [Hp|Hnp].
      - destruct (foldl_archive_archives (pending_docs w)
                    (log (LogFoundPending (length (pending_docs w))) w2) k d)
          as (d'' & Hd'' & Har).
        + exact Hnf2.
        + rewrite staging_log, Hst. exact Hk.
        + apply list_elem_of_In, in_map_iff. exists d. split; [apply Hwf, Hk|].
          apply list_elem_of_In, pending_docs_elem with k; assumption.
        + rewrite <- Hw', Hk' in Hd''. inversion Hd''; subst d''.
          destruct Har as (Hs & _). congruence.
      - rewrite (H1 k d Hk Hnp) in Hk'. congruence. }
    split; [exact Hnone|].
    destruct (RecoverPendingBatches_cases w')
      as [(e & fs & Hf & _) | [(e & fs & Hf & _) | (w3 & Hst3 & _ & _ & Htr3 & _ & Hr')]].
    + unfold no_faults in Hnf'. rewrite Hf in Hnf'. inversion Hnf'; subst; discriminate.
    + unfold no_faults in Hnf'. rewrite Hf in Hnf'.
      inversion Hnf' as [|? ? ? Hrest]; subst. inversion Hrest; subst; discriminate.
    + cbv zeta in Hr'. rewrite Hnone in Hr'. rewrite Hr'. cbn [fst snd]. auto.
Qed.

Lemma recovery_changes_pending_only_witness :
  pending_docs (snd (RecoverPendingBatches crashed_world)) = [].
Proof.
  refine (proj1 (proj2 (proj2 (recovery_changes_pending_only crashed_world
                                 staging_wf_crashed_world)) _)).
  constructor.
Defined.

(** A flush of one event on a healthy store commits its position. *)
Lemma Flush_clears_batch_iff_committed_witness :
  offset_is (source loaded_handler) "uuid:1-5" "binlog.000001" 4
    (snd (Flush Background loaded_handler empty_world)).
Proof.
  pose proof (Flush_clears_batch_iff_committed Background loaded_handler empty_world) as H.
  destruct (Flush Background loaded_handler empty_world) as [[[e|] h'] w'] eqn:Hf.
  - vm_compute in Hf. discriminate.
  - destruct H as [_ H]. apply H. discriminate.
Defined.

(** ** A store without transactions *)

Lemma staging_InsertOne_pass doc w fs :
  faults w = None :: fs -> staging w !! st_id doc = None ->
  staging_InsertOne doc w
  = (None, with_staging (<[st_id doc := doc]> (staging w))
             (with_faults fs (emit (EInsertStaging (st_id doc)) w))).
Proof.
  intros Hf Hs. unfold staging_InsertOne, pop_fault. simpl. rewrite Hf. simpl.
  rewrite Hs. reflexivity.
Qed.

Lemma StartSession_pass w fs :
  faults w = None :: fs -> StartSession w = (None, with_faults fs (emit EStartSession w)).
Proof. intros Hf. unfold StartSession, pop_fault. simpl. rewrite Hf. reflexivity. Qed.

Lemma events_BulkWrite_refused docs w e fs :
  faults w = Some e :: fs ->
  events_BulkWrite docs w = (Some e, with_faults fs (emit (EBulkWrite (map ID docs)) w)).
Proof. intros Hf. unfold events_BulkWrite, pop_fault. simpl. rewrite Hf. reflexivity. Qed.

Lemma writeBatchWithoutTransaction_healthy docs source gtid file pos w :
  no_faults w -> fresh_ids docs (events w) ->
  exists w' t, writeBatchWithoutTransaction docs source gtid file pos w = (None, w') /\
    healthy_after [EBulkWrite (map ID docs); EUpsertOffset source gtid file pos] w w' /\
    events w' = bulk_events docs (events w) /\ staging w' = staging w /\
    offsets w' = <[source := {| of_source := source; of_gtid := gtid; of_file := file;
                                of_pos := pos; of_updatedAt := t |}]> (offsets w).
Proof.
  intros Hnf Hfresh. unfold writeBatchWithoutTransaction.
  destruct (events_BulkWrite_healthy docs w Hnf)
    as (r & w1 & -> & Hh1 & He1 & Ho1 & Hs1 & Hfr & _).
  rewrite (Hfr Hfresh).
  destruct (offsets_Upsert_healthy source gtid file pos w1 (proj1 Hh1))
    as (w2 & t & -> & Hh2 & He2 & Hs2 & Ho2).
  exists w2, t. split; [reflexivity|].
  split; [exact (healthy_after_trans _ _ _ _ _ Hh1 Hh2)|].
  rewrite He2, He1, Hs2, Hs1, Ho2, Ho1. auto.
Qed.

Lemma txBody_refused docs source gtid file pos w e fs :
  faults w = Some e :: fs -> as_BulkWriteException e = None ->
  txBody docs source gtid file pos w
  = (Some e, with_faults fs (emit (EBulkWrite (map ID docs)) w)).
Proof.
  intros Hf Has. unfold txBody. rewrite (events_BulkWrite_refused docs w e fs Hf), Has.
  reflexivity.
Qed.

(** On a store that refuses the bulk insert inside the transaction with
    "Transaction numbers are only allowed on a replica set" (or with the
    time-series message) and fails no other call, a commit of a batch whose
    event ids are fresh still returns nil after one attempt: the
    transaction is aborted, the warning is logged unless the sink logged it
    before, and the batch and then the offset are written outside a
    transaction.  The collections end as after a transactional commit, and
    the flag of the sink is set.  The refusal carries no
    TransientTransactionError label, so the driver runs the callback
    once. *)
Theorem fallback_commits_outside_a_transaction
    (ctx : Context) (docs : list EventDoc) (source gtid file : string) (pos : Z)
    (w : World) (e : error) (fs : list (option error)) :
  docs <> [] ->
  faults w = None :: None :: Some e :: fs -> Forall (fun f => f = None) fs ->
  staging w !! mkBatchID source (clock w) gtid = None ->
  fresh_ids docs (events w) ->
  as_BulkWriteException e = None ->
  has_label TransientTransactionError e = false ->
  Contains (Error e) no_replica_set_msg || Contains (Error e) time_series_msg = true ->
  exists w' t t',
    writeBatchWithGTID ctx docs source gtid file pos w = (None, w') /\
    trace w' = (trace w ++ fallback_effects (noTxWarningLogged w)
                             (mkBatchID source (clock w) gtid) docs
                             source gtid file pos)%list /\
    noTxWarningLogged w' = true /\
    events w' = bulk_events docs (events w) /\
    (forall d, d ∈ docs -> events w' !! ID d = Some d) /\
    offsets w' = <[source := {| of_source := source; of_gtid := gtid; of_file := file;
                                of_pos := pos; of_updatedAt := t |}]> (offsets w) /\
    staging w' = <[mkBatchID source (clock w) gtid :=
                     set_status committed t'
                       (staged_batch docs source gtid file pos (clock w) (clock w + 1))]>
                   (staging w).
Proof.
  intros Hd Hf Hfs Hfree Hfresh Has Hl Hmsg.
  rewrite writeBatchWithGTID_staged by exact Hd. cbv zeta.
  set (sd := staged_batch docs source gtid file pos (clock w) (clock w + 1)).
  set (id := mkBatchID source (clock w) gtid) in *.
  set (w0 := snd (Now (snd (Now w)))).
  rewrite retry_loop_S. unfold commitAttempt.
  rewrite (staging_InsertOne_pass sd w0 (None :: Some e :: fs) Hf Hfree).
  unfold writeBatchWithTransaction.
  rewrite (StartSession_pass _ (Some e :: fs)) by reflexivity.
  match goal with
  | |- context [WithTransaction ?b ?x] =>
      destruct (WithTransaction_fails b x e
                  (with_faults fs (emit (EBulkWrite (map ID docs)) x)))
        as (w4 & -> & He4 & Ho4 & Hs4 & Hf4 & Hfl4 & Ht4);
      [apply txBody_refused; [reflexivity|exact Has] | exact Hl |]
  end.
  cbv beta iota zeta. rewrite Hmsg.
  match goal with
  | |- context [writeBatchWithoutTransaction docs source gtid file pos ?x] =>
      set (w5 := x)
  end.
  assert (Hw5 : no_faults w5 /\
                trace w5 = (trace w
                            ++ [EInsertStaging id; EStartSession; EBulkWrite (map ID docs);
                                EAbortTx]
                            ++ (if noTxWarningLogged w then [] else [ELog LogNoTxWarning]))%list /\
                noTxWarningLogged w5 = true /\ events w5 = events w /\
                offsets w5 = offsets w /\ staging w5 = <[id := sd]> (staging w)).
  { simpl in He4, Ho4, Hs4, Hf4, Hfl4, Ht4. subst w5. unfold no_faults.
    destruct (noTxWarningLogged w4) eqn:Hflag; simpl;
      rewrite ?Hf4, ?Ht4, ?He4, ?Ho4, ?Hs4, <- ?Hfl4; simpl; rewrite <- ?app_assoc; simpl;
      repeat split; auto. }
  clearbody w5. clear w4 He4 Ho4 Hs4 Hf4 Hfl4 Ht4.
  destruct Hw5 as (Hnf5 & Ht5 & Hfl5 & He5 & Ho5 & Hs5).
  rewrite <- He5 in Hfresh.
  destruct (writeBatchWithoutTransaction_healthy docs source gtid file pos w5 Hnf5 Hfresh)
    as (w6 & t & -> & (Hnf6 & Ht6 & Hfl6) & He6 & Hs6 & Ho6).
  destruct (staging_SetStatus_healthy (st_id sd) committed w6 Hnf6)
    as (w7 & t' & -> & (Hnf7 & Ht7 & Hfl7) & He7 & Ho7 & Hs7).
  exists w7, t, t'. split; [reflexivity|].
  rewrite Ht7, Ht6, Ht5, Hfl7, Hfl6, Hfl5, He7, He6, Ho7, Ho6, Ho5, Hs7, Hs6, Hs5.
  unfold fallback_effects. rewrite <- !app_assoc.
  change (st_id sd) with id. rewrite alter_insert_eq.
  split; [reflexivity|]. split; [reflexivity|].
  split; [rewrite He5; reflexivity|].
  split; [|split; reflexivity].
  intros d Hin. unfold bulk_events.
  apply (foldl_bulk_insert_fresh docs (events w5) [] Hfresh), Hin.
Qed.

Lemma fallback_commits_outside_a_transaction_witness :
  exists w' t t',
    writeBatchWithGTID Background [sample_doc] "mysql://127.0.0.1:3306" "uuid:1-5"
      "binlog.000001" 4 standalone_world = (None, w') /\
    trace w' = (trace standalone_world
                ++ fallback_effects (noTxWarningLogged standalone_world)
                     (mkBatchID "mysql://127.0.0.1:3306" (clock standalone_world) "uuid:1-5")
                     [sample_doc] "mysql://127.0.0.1:3306" "uuid:1-5" "binlog.000001" 4)%list /\
    noTxWarningLogged w' = true /\
    events w' = bulk_events [sample_doc] (events standalone_world) /\
    (forall d, d ∈ [sample_doc] -> events w' !! ID d = Some d) /\
    offsets w' = <["mysql://127.0.0.1:3306" :=
                     {| of_source := "mysql://127.0.0.1:3306"; of_gtid := "uuid:1-5";
                        of_file := "binlog.000001"; of_pos := 4; of_updatedAt := t |}]>
                   (offsets standalone_world) /\
    staging w' = <[mkBatchID "mysql://127.0.0.1:3306" (clock standalone_world) "uuid:1-5" :=
                     set_status committed t'
                       (staged_batch [sample_doc] "mysql://127.0.0.1:3306" "uuid:1-5"
                          "binlog.000001" 4 (clock standalone_world)
                          (clock standalone_world + 1))]>
                   (staging standalone_world).
Proof.
  apply (fallback_commits_outside_a_transaction Background [sample_doc]
           "mysql://127.0.0.1:3306" "uuid:1-5" "binlog.000001" 4 standalone_world
           standalone_error []);
    [discriminate | reflexivity | constructor | reflexivity
    | split; [repeat constructor; apply not_elem_of_nil | intros d _; reflexivity]
    | reflexivity | reflexivity | vm_compute; reflexivity].
Defined.
